(** * CRM invoice automation: the order-processing workflow of [main.py]

    A shallow embedding of [CRMAutomation] (login, navigation, the per-order
    search / open / extract pipeline, the extraction fallbacks, the run loop
    and its statistics) together with the properties of the workflow.

    Modelling conventions.
    - The browser (Playwright) is an external capability.  Every use of it
      is a [call]; the capability answers a call from the history of the
      calls made so far, so a capability is a function [oracle] and the
      history ([trace]) is part of the program state.  A call returns a value
      or raises.  [datetime.now()] reads a clock that advances with the
      history and never raises.
    - Python exceptions are explicit: a computation returns [Ok v] or
      [Raise e], and keeps the state reached when it raised.
      [except Exception] catches the exceptions with [is_Exception e = true],
      a bare [except:] catches every one.
    - [self.stats], [self.cancelled], the lines of [failed_orders.txt], the
      content of [automation_summary.txt] and the set of image files written
      are fields of the state.  The append to [failed_orders.txt] sits inside
      the per-order [try] and may raise (the line cannot be encoded, the file
      cannot be opened); what it gives is a parameter of the workflow, like
      the input column and the base64 decoder.  Logging, the write of the
      summary and the files that Playwright itself writes do not fail on
      their own.
    - [logger.info], [logger.warning] and [logger.error] calls are recorded in
      the state ([log]); [logger.debug] calls are left out.
    - Keyword arguments that do not influence control flow ([wait_until],
      [full_page], [state="visible"], navigation timeouts) are left out of the
      calls. *)

From Stdlib Require Import String Ascii List ZArith Lia Bool Arith.
Import ListNotations.
Local Open Scope string_scope.
Local Open Scope list_scope.

(** ** Python string primitives *)

Module Py.

(** [startswith s p] is [s.startswith(p)]. *)
Definition startswith (s p : string) : bool := String.prefix p s.

(** [contains needle hay] is [needle in hay]. *)
Fixpoint contains (needle hay : string) : bool :=
  if String.prefix needle hay then true
  else match hay with
       | EmptyString => false
       | String _ rest => contains needle rest
       end.

Definition lower_ascii (c : ascii) : ascii :=
  let n := nat_of_ascii c in
  if (65 <=? n)%nat && (n <=? 90)%nat then ascii_of_nat (n + 32) else c.

(** [lower s] is [s.lower()] on ASCII text. *)
Fixpoint lower (s : string) : string :=
  match s with
  | EmptyString => EmptyString
  | String c rest => String (lower_ascii c) (lower rest)
  end.

(** Truth value of a string: the empty string is falsy. *)
Definition truthy (s : string) : bool :=
  match s with EmptyString => false | _ => true end.

(** [range n] is [range(n)]. *)
Definition range (n : nat) : list Z := map Z.of_nat (seq 0 n).

End Py.

(** ** Exceptions and results *)

Inductive exn : Type :=
| TypeError
| ValueError
| KeyError
| AttributeError
| PlaywrightError        (* playwright Error / TimeoutError *)
| KeyboardInterrupt      (* a BaseException that is not an Exception *)
| CancelledError.        (* asyncio.CancelledError, also a BaseException *)

Definition is_Exception (e : exn) : bool :=
  match e with
  | KeyboardInterrupt | CancelledError => false
  | _ => true
  end.

Inductive result (A : Type) : Type :=
| Ok (a : A)
| Raise (e : exn).
Arguments Ok {A} a.
Arguments Raise {A} e.

(** ** The capability: pages, elements, files and calls *)

Inductive page : Type :=
| MainPage
| NewPage (n : nat).

Definition elem : Type := nat.

Inductive path : Type :=
| Cwd (name : string)          (* a file in the working directory *)
| Download (name : string).    (* a file in [self.download_dir] *)

Inductive call : Type -> Type :=
| LaunchBrowser : call unit
| BrowserClose : call unit
| PlaywrightStop : call unit
| Goto (p : page) (url : string) : call unit
| WaitForLoadState (p : page) : call unit
| WaitForTimeout (p : page) (ms : Z) : call unit
| WaitForSelector (p : page) (sel : string) (timeout : Z) : call (option elem)
| QuerySelector (p : page) (sel : string) : call (option elem)
| QuerySelectorAll (p : page) (sel : string) : call (list elem)
| Click (p : page) (sel : string) : call unit
| KeyboardPress (p : page) (key : string) : call unit
| Screenshot (p : page) (f : path) : call unit
| Reload (p : page) : call unit
| GoBack (p : page) : call unit
| PageUrl (p : page) : call string
| StorageState (file : string) : call unit
| ExpectPage : call page
| PageClose (p : page) : call unit
| ElemFill (e : elem) (text : string) : call unit
| ElemType (e : elem) (text : string) : call unit
| ElemClick (e : elem) : call unit
| ElemScrollIntoView (e : elem) : call unit
| ElemTextContent (e : elem) : call (option string)
| ElemGetAttribute (e : elem) (name : string) : call (option string)
| ElemQuerySelector (e : elem) (sel : string) : call (option elem)
| ElemScreenshot (e : elem) (f : path) : call unit.

Definition event : Type := { T : Type & call T }.
Definition Ev {T : Type} (c : call T) : event := existT call T c.

(** A capability answers each call from the calls made before it. *)
Definition oracle : Type := forall T : Type, list event -> call T -> result T.

(** ** Element locator table ([self.xpaths]) *)

Inductive xpath_key : Type :=
| username | password | login_button | logout_button
| job_search_menu | job_search_link | search_input
| eye_button | table_rows | invoice_image.

Definition xpaths (k : xpath_key) : string :=
  match k with
  | username => "xpath=/html/body/div/form/div[2]/input"
  | password => "xpath=/html/body/div/form/div[3]/input"
  | login_button => "xpath=/html/body/div/form/div[3]/button"
  | logout_button => "xpath=/html/body/div/div/div[1]/div[2]/ul/li[10]/a"
  | job_search_menu => "xpath=/html/body/div[1]/div/div[1]/div[2]/ul/li[4]"
  | job_search_link => "xpath=/html/body/div[1]/div/div[1]/div[2]/ul/ul[3]/a/li"
  | search_input => "xpath=/html/body/div/div/div[2]/form[2]/div/div/div[2]/label/input"
  | eye_button => "xpath=/html/body/div/div/div[2]/form[2]/div/div/table/tbody/tr/td[16]/div/a/i"
  | table_rows => "xpath=/html/body/div/div/div[2]/form[2]/div/div/table/tbody/tr"
  | invoice_image => "xpath=/html/body/div/div/div[2]/form/div[1]/div[2]/div[2]/table/tbody/tr[8]/td[2]/a"
  end.

(** ** Configuration ([self.config]) *)

Record config : Type := mkConfig {
  crm_url : option string;       (* config["crm_url"], KeyError when absent *)
  cfg_username : option string;  (* config["username"] *)
  cfg_password : option string;  (* config["password"] *)
  max_retries : option Z;        (* config.get("max_retries", 3) *)
  wait_time : option Z           (* config.get("wait_time", 5) *)
}.

Definition get_max_retries (c : config) : Z :=
  match max_retries c with Some n => n | None => 3%Z end.

Definition get_wait_time (c : config) : Z :=
  match wait_time c with Some n => n | None => 5%Z end.

(** ** Log messages (info, warning and error level) *)

Inductive msg : Type :=
(* load_service_orders *)
| LoadedServiceOrders (n : nat)
| FailedToLoadServiceOrders (e : exn)
(* login *)
| LoggingIn
| LookingForUsername (attempt max_attempts : Z)
| FoundUsernameField
| ClickingLoginButton
| LoginSuccessful
| LoginMayHaveFailed
| AttemptFailed (attempt : Z) (e : exn)
| AllLoginAttemptsFailed
| LoginFailedWithError (e : exn)
(* navigate_to_job_search *)
| NavigatingToJobSearch
| NavigatedToJobSearch
| SearchInputNotFound
| FailedToNavigate (e : exn)
(* search_service_order *)
| SearchBoxNotFound
| NoResultsFound (so : string)
| SearchFailed (so : string) (e : exn)
(* find_eye_button_for_so, open_service_order_details *)
| ErrorFindingEyeButton (e : exn)
| ViewButtonNotFound (so : string)
| FailedToOpenDetails (so : string) (e : exn)
(* save_invoice_image_new_tab, find_and_save_invoice_image, save_base64_image *)
| NoInvoiceLink (so : string)
| InvoiceSaved (so : string)
| FailedToSaveInNewTab (so : string) (e : exn)
| InvoiceSavedScreenshot (so : string)
| NoInvoiceImage (so : string)
| FailedToSaveInvoice (so : string) (e : exn)
| FailedToSaveBase64 (e : exn)
(* return_to_search *)
| FailedToReturnToSearch (e : exn)
(* process_service_order *)
| ProcessingSO (so : string) (attempt max_attempts : Z)
| StepSearchFailed (so : string)
| StepOpenDetailsFailed (so : string)
| StepSaveInvoiceFailed (so : string)
| OrderProcessed (so : string)
| ErrorProcessing (so : string) (e : exn)
| Retrying (so : string)
(* run_automation *)
| ProcessingHeader (i n : nat) (so : string)
| RunSuccess (so : string)
| RunFailed (so : string)
| CriticalError (so : string) (e : exn)
| LoginFailedExiting
| NavigationFailedExiting
| AutomationFailed (e : exn)
| SetupFailed (e : exn)
(* print_summary *)
| Summary (total success failed skipped : nat) (duration : Z)
| SuccessRate (success total : nat).

(** ** Run statistics ([self.stats]) and the program state *)

Record run_stats : Type := mkStats {
  total : nat;
  success : nat;
  failed : nat;
  skipped : nat;
  start_time : option Z;
  end_time : option Z
}.

(** The dictionary built by [__init__]. *)
Definition initial_stats : run_stats := mkStats 0 0 0 0 None None.

(** What [print_summary] writes to [automation_summary.txt]. *)
Record summary : Type := mkSummary {
  sum_start : Z;
  sum_end : Z;
  sum_duration : Z;
  sum_total : nat;
  sum_success : nat;
  sum_failed : nat;
  sum_rate : option (nat * nat)   (* success / total, written when total > 0 *)
}.

Record state : Type := mkState {
  trace : list event;              (* capability calls made so far *)
  log : list msg;                  (* logger output so far *)
  files : list path;               (* image files written *)
  stats : run_stats;               (* self.stats *)
  cancelled : bool;                (* self.cancelled *)
  failed_orders_txt : list string; (* lines of download_dir/failed_orders.txt *)
  summary_txt : option summary     (* download_dir/automation_summary.txt *)
}.

(** The object as [__init__] leaves it, with the cancellation flag as the
    caller has set it and the failure log of earlier runs. *)
Definition initial_state (flag : bool) (old_failures : list string) : state :=
  mkState [] [] [] initial_stats flag old_failures None.

Definition with_trace (t : list event) (s : state) : state :=
  mkState t (log s) (files s) (stats s) (cancelled s) (failed_orders_txt s) (summary_txt s).
Definition with_log (l : list msg) (s : state) : state :=
  mkState (trace s) l (files s) (stats s) (cancelled s) (failed_orders_txt s) (summary_txt s).
Definition with_files (f : list path) (s : state) : state :=
  mkState (trace s) (log s) f (stats s) (cancelled s) (failed_orders_txt s) (summary_txt s).
Definition with_stats (st : run_stats) (s : state) : state :=
  mkState (trace s) (log s) (files s) st (cancelled s) (failed_orders_txt s) (summary_txt s).
Definition with_failed_orders (l : list string) (s : state) : state :=
  mkState (trace s) (log s) (files s) (stats s) (cancelled s) l (summary_txt s).
Definition with_summary (x : option summary) (s : state) : state :=
  mkState (trace s) (log s) (files s) (stats s) (cancelled s) (failed_orders_txt s) x.

Definition set_total (n : nat) (st : run_stats) : run_stats :=
  mkStats n (success st) (failed st) (skipped st) (start_time st) (end_time st).
Definition incr_success (st : run_stats) : run_stats :=
  mkStats (total st) (success st + 1) (failed st) (skipped st) (start_time st) (end_time st).
Definition incr_failed (st : run_stats) : run_stats :=
  mkStats (total st) (success st) (failed st + 1) (skipped st) (start_time st) (end_time st).
Definition set_start_time (t : Z) (st : run_stats) : run_stats :=
  mkStats (total st) (success st) (failed st) (skipped st) (Some t) (end_time st).
Definition set_end_time (t : Z) (st : run_stats) : run_stats :=
  mkStats (total st) (success st) (failed st) (skipped st) (start_time st) (Some t).

(** ** The monad of the workflow: state and exceptions *)

Definition M (A : Type) : Type := state -> result A * state.

Definition ret {A : Type} (a : A) : M A := fun s => (Ok a, s).

Definition raise {A : Type} (e : exn) : M A := fun s => (Raise e, s).

Definition bind {A B : Type} (m : M A) (k : A -> M B) : M B :=
  fun s => match m s with
           | (Ok a, s1) => k a s1
           | (Raise e, s1) => (Raise e, s1)
           end.

Declare Scope workflow_scope.
Delimit Scope workflow_scope with workflow.
Notation "x <- c1 ;; c2" := (bind c1 (fun x => c2))
  (at level 61, c1 at next level, right associativity) : workflow_scope.
Notation "c1 ;; c2" := (bind c1 (fun _ => c2))
  (at level 61, right associativity) : workflow_scope.
Local Open Scope workflow_scope.

(** [try: m except <catches> as e: h e]. *)
Definition try_except {A : Type} (m : M A) (catches : exn -> bool) (h : exn -> M A) : M A :=
  fun s => match m s with
           | (Ok a, s1) => (Ok a, s1)
           | (Raise e, s1) => if catches e then h e s1 else (Raise e, s1)
           end.

(** [except Exception as e]. *)
Definition except_Exception {A : Type} (m : M A) (h : exn -> M A) : M A :=
  try_except m is_Exception h.

(** A bare [except:]. *)
Definition except_any {A : Type} (m : M A) (h : M A) : M A :=
  try_except m (fun _ => true) (fun _ => h).

(** [try: m finally: f].  An exception of [f] replaces the outcome of [m]. *)
Definition finally {A : Type} (m : M A) (f : M unit) : M A :=
  fun s => match m s with
           | (r, s1) => match f s1 with
                        | (Ok _, s2) => (r, s2)
                        | (Raise e, s2) => (Raise e, s2)
                        end
           end.

Definition gets {A : Type} (f : state -> A) : M A := fun s => (Ok (f s), s).

Definition modify (f : state -> state) : M unit := fun s => (Ok tt, f s).

Definition log_ (m : msg) : M unit := modify (fun s => with_log (log s ++ [m]) s).

Definition add_file (f : path) : M unit := modify (fun s => with_files (files s ++ [f]) s).

Definition update_stats (f : run_stats -> run_stats) : M unit :=
  modify (fun s => with_stats (f (stats s)) s).

Definition png (so_number : string) : path := Download (so_number ++ ".png")%string.

(** ** Test doubles of the capability *)

Module Double.

(** Every call succeeds.  The result table has one row per entry of
    [rows]; the text of row [e] is the [e]-th entry.  The invoice is an
    inline image with the source [src]. *)
Definition all_ok (rows : list string) (src : string) : oracle :=
  fun T _ c =>
    match c in call T return result T with
    | LaunchBrowser => Ok tt
    | BrowserClose => Ok tt
    | PlaywrightStop => Ok tt
    | Goto _ _ => Ok tt
    | WaitForLoadState _ => Ok tt
    | WaitForTimeout _ _ => Ok tt
    | WaitForSelector _ _ _ => Ok (Some 100%nat)
    | QuerySelector _ _ => Ok (Some 100%nat)
    | QuerySelectorAll _ _ => Ok (seq 0 (length rows))
    | Click _ _ => Ok tt
    | KeyboardPress _ _ => Ok tt
    | Screenshot _ _ => Ok tt
    | Reload _ => Ok tt
    | GoBack _ => Ok tt
    | PageUrl _ => Ok "https://crm.example/home"
    | StorageState _ => Ok tt
    | ExpectPage => Ok (NewPage 1)
    | PageClose _ => Ok tt
    | ElemFill _ _ => Ok tt
    | ElemType _ _ => Ok tt
    | ElemClick _ => Ok tt
    | ElemScrollIntoView _ => Ok tt
    | ElemTextContent e => Ok (nth_error rows e)
    | ElemGetAttribute _ _ => Ok (Some src)
    | ElemQuerySelector _ _ => Ok (Some 101%nat)
    | ElemScreenshot _ _ => Ok tt
    end.

(** A double that answers some calls itself and leaves the rest to [base]. *)
Definition special : Type := forall T : Type, list event -> call T -> option (result T).

Definition override (sp : special) (base : oracle) : oracle :=
  fun T t c => match sp T t c with
               | Some r => r
               | None => base T t c
               end.

(** The login form never shows: waiting for the username field times out. *)
Definition no_login_form : special :=
  fun T _ c =>
    match c in call T return option (result T) with
    | WaitForSelector _ sel _ =>
        if String.eqb sel (xpaths username) then Some (Raise PlaywrightError) else None
    | _ => None
    end.

(** The invoice link opens no new tab. *)
Definition no_new_tab : special :=
  fun T _ c =>
    match c in call T return option (result T) with
    | ExpectPage => Some (Raise PlaywrightError)
    | _ => None
    end.

(** Clicking an element faults, and so does the diagnostic screenshot. *)
Definition broken_click : special :=
  fun T _ c =>
    match c in call T return option (result T) with
    | ElemClick _ => Some (Raise PlaywrightError)
    | Screenshot _ _ => Some (Raise PlaywrightError)
    | _ => None
    end.

Definition is_typing (ev : event) : bool :=
  match projT2 ev with
  | ElemType _ _ => true
  | _ => false
  end.

(** Once an order has been searched for, the session is lost: the menu
    link, the history and direct navigation all fault. *)
Definition lost_after_search : special :=
  fun T t c =>
    match c in call T return option (result T) with
    | Click _ _ | GoBack _ | Goto _ _ =>
        if existsb is_typing t then Some (Raise PlaywrightError) else None
    | _ => None
    end.

Definition clock (t : list event) : Z := Z.of_nat (length t).

Definition cfg : config :=
  mkConfig (Some "https://crm.example") (Some "agent") (Some "secret") (Some 3%Z) (Some 5%Z).

Definition b64 (payload : string) : bool := true.

(** A download directory where [failed_orders.txt] can be written. *)
Definition disk (t : list event) (line : string) : result unit := Ok tt.

(** A download directory where [failed_orders.txt] cannot be written: every
    append raises (a line that the locale cannot encode raises
    UnicodeEncodeError, a ValueError). *)
Definition unwritable (t : list event) (line : string) : result unit := Raise ValueError.

(** The CRM as the scenarios see it: the result table always shows the one
    row of order SO001, and the invoice is an inline PNG. *)
Definition crm : oracle := all_ok ["SO001 | open"] "data:image/png;base64,AA".

Definition two_orders : list string := ["SO001"; "SO002"].

(** The backoff of a retry (line 698). *)
Definition is_backoff (ev : event) : bool :=
  match projT2 ev with
  | WaitForTimeout _ ms => (ms =? 3000)%Z
  | _ => false
  end.

(** The log entries of a failed login attempt (line 289). *)
Definition is_attempt_failed (m : msg) : bool :=
  match m with
  | AttemptFailed _ _ => true
  | _ => false
  end.

(** The browser cannot be launched. *)
Definition no_browser : special :=
  fun T _ c =>
    match c in call T return option (result T) with
    | LaunchBrowser => Some (Raise PlaywrightError)
    | _ => None
    end.

(** The menu of the job search does not react to clicks. *)
Definition broken_menu : special :=
  fun T _ c =>
    match c in call T return option (result T) with
    | Click _ _ => Some (Raise PlaywrightError)
    | _ => None
    end.

(** The page shows no search box after a return to the search. *)
Definition no_search_box : special :=
  fun T _ c =>
    match c in call T return option (result T) with
    | QuerySelector _ sel =>
        if String.eqb sel (xpaths search_input) then Some (Ok None) else None
    | _ => None
    end.

(** A configuration file without the password. *)
Definition cfg_without_password : config :=
  mkConfig (Some "https://crm.example") (Some "agent") None (Some 3%Z) (Some 5%Z).

(** A decoder that rejects every payload. *)
Definition b64_rejects (payload : string) : bool := false.

(** Clicking an element faults; the diagnostic screenshots work. *)
Definition stuck_click : special :=
  fun T _ c =>
    match c in call T return option (result T) with
    | ElemClick _ => Some (Raise PlaywrightError)
    | _ => None
    end.


End Double.

(** ** The log of the web front end ([StreamlitCRMAutomation.add_log]) *)

Module Streamlit.

(** [logs[-n:]]: the last [n] entries. *)
Definition last_entries (n : nat) (logs : list string) : list string :=
  skipn (length logs - n) logs.

(** Lines 126-134 of [streamlit_app.py]; [timestamp] is
    [datetime.now().strftime("%H:%M:%S")]. *)
Definition add_log (timestamp message : string) (automation_logs : list string)
  : list string :=
  let log_entry := ("[" ++ timestamp ++ "] " ++ message)%string in
  let appended := automation_logs ++ [log_entry] in
  if (100 <? length appended)%nat then last_entries 100 appended else appended.

End Streamlit.

(** ** The workflow ([class CRMAutomation]) *)

Section Workflow.

Variable env : oracle.
Variable clock : list event -> Z.
Variable cfg : config.

(** What [pd.read_excel] and the column extraction of [load_service_orders]
    (lines 140-155) produce: the cleaned column, or the exception raised. *)
Variable excel_column : result (list string).

(** Whether [base64.b64decode] accepts the payload of a [data:] source. *)
Variable b64decode_ok : string -> bool.

(** What appending one line to [failed_orders.txt] gives at this point of
    the run (lines 744-745: [open(..., "a")] and [f.write] in text mode):
    [Ok tt], or the exception raised by the [open] or by the encoding of the
    line (OSError; UnicodeEncodeError, a ValueError). *)
Variable failed_orders_append : list event -> string -> result unit.

(** One use of the capability: ask, and record the call. *)
Definition call_ {T : Type} (c : call T) : M T :=
  fun s => (env T (trace s) c, with_trace (trace s ++ [Ev c]) s).

(** [datetime.now()]. *)
Definition now : M Z := gets (fun s => clock (trace s)).

(** [page.screenshot(path=f)]: the file exists once the call returns. *)
Definition screenshot (p : page) (f : path) : M unit :=
  call_ (Screenshot p f) ;; add_file f.

(** [element.screenshot(path=f)]. *)
Definition elem_screenshot (e : elem) (f : path) : M unit :=
  call_ (ElemScreenshot e f) ;; add_file f.

(** [self.config[key]]. *)
Definition config_item (field : config -> option string) : M string :=
  match field cfg with
  | Some v => ret v
  | None => raise KeyError
  end.

(** *** load_service_orders (lines 137-165) *)

Definition load_service_orders : M (list string) :=
  except_Exception
    (match excel_column with
     | Raise e => raise e
     | Ok so_numbers =>
         match so_numbers with
         | [] => raise ValueError
         | _ => log_ (LoadedServiceOrders (length so_numbers)) ;; ret so_numbers
         end
     end)
    (fun e => log_ (FailedToLoadServiceOrders e) ;; raise e).

(** *** setup_browser (lines 167-211), one call of the capability *)

Definition setup_browser : M unit := call_ LaunchBrowser.

(** *** is_logged_in (lines 306-355) *)

Definition dashboard_selectors : list string :=
  ["div.dashboard"; "nav"; "header"; ".main-content";
   ".sidebar"; ".menu"; "#navbar"; ".top-bar"].

Definition welcome_selectors : list string :=
  ["text=/welcome/i"; "text=/hello/i"; ".user-name"; ".profile-name"].

(** The loop of lines 333-337; [true] when it returns True. *)
Fixpoint dashboard_loop (selectors : list string) : M bool :=
  match selectors with
  | [] => ret false
  | selector :: rest =>
      elements <- call_ (QuerySelectorAll MainPage selector) ;;
      if (0 <? length elements)%nat then ret true else dashboard_loop rest
  end.

(** The loop of lines 341-348; [true] when it returns True. *)
Fixpoint welcome_loop (selectors : list string) : M bool :=
  match selectors with
  | [] => ret false
  | selector :: rest =>
      found <- except_any
                 (element <- call_ (QuerySelector MainPage selector) ;;
                  match element with
                  | Some _ => ret true
                  | None => ret false
                  end)
                 (ret false) ;;
      if found then ret true else welcome_loop rest
  end.

Definition is_logged_in : M bool :=
  except_Exception
    (by_logout <- except_any
                    (logout <- call_ (WaitForSelector MainPage (xpaths logout_button) 5000) ;;
                     match logout with
                     | Some _ => ret true
                     | None => ret false
                     end)
                    (ret false) ;;
     if by_logout then ret true
     else
       current_url <- call_ (PageUrl MainPage) ;;
       by_dashboard <-
         (if negb (Py.contains "login" (Py.lower current_url))
             && negb (Py.contains "signin" (Py.lower current_url))
          then dashboard_loop dashboard_selectors
          else ret false) ;;
       if by_dashboard then ret true
       else
         by_welcome <- welcome_loop welcome_selectors ;;
         if by_welcome then ret true else ret false)
    (fun _ => ret false).

(** *** login (lines 213-304) *)

Definition max_attempts : Z := 3.

(** One iteration of the loop of lines 233-295; [true] when the iteration
    executes [return True], [false] when the loop goes on. *)
Definition login_attempt (attempt : Z) (user pass : string) : M bool :=
  except_Exception
    (log_ (LookingForUsername (attempt + 1) max_attempts) ;;
     username_field <- call_ (WaitForSelector MainPage (xpaths username) 10000) ;;
     match username_field with
     | None => ret false
     | Some uf =>
         log_ FoundUsernameField ;;
         call_ (ElemFill uf user) ;;
         password_field <- call_ (WaitForSelector MainPage (xpaths password) 5000) ;;
         match password_field with
         | None => ret false
         | Some pf =>
             call_ (ElemFill pf pass) ;;
             button <- call_ (WaitForSelector MainPage (xpaths login_button) 5000) ;;
             match button with
             | None => ret false
             | Some lb =>
                 log_ ClickingLoginButton ;;
                 call_ (ElemClick lb) ;;
                 call_ (WaitForLoadState MainPage) ;;
                 call_ (WaitForTimeout MainPage 5000) ;;
                 logged_in <- is_logged_in ;;
                 if logged_in
                 then log_ LoginSuccessful ;;
                      call_ (StorageState "auth_state.json") ;;
                      ret true
                 else log_ LoginMayHaveFailed ;;
                      screenshot MainPage (Cwd "login_attempt.png") ;;
                      ret false
             end
         end
     end)
    (fun e =>
       log_ (AttemptFailed (attempt + 1) e) ;;
       call_ (WaitForTimeout MainPage 3000) ;;
       (if (attempt <? max_attempts - 1)%Z
        then call_ (Reload MainPage) ;; call_ (WaitForTimeout MainPage 3000)
        else ret tt) ;;
       ret false).

(** The loop of line 233 with the lines 297-299 that follow it. *)
Fixpoint login_loop (attempts : list Z) (user pass : string) : M bool :=
  match attempts with
  | [] =>
      log_ AllLoginAttemptsFailed ;;
      screenshot MainPage (Cwd "login_failed.png") ;;
      ret false
  | attempt :: rest =>
      returned <- login_attempt attempt user pass ;;
      if returned then ret true else login_loop rest user pass
  end.

Definition login : M bool :=
  except_Exception
    (log_ LoggingIn ;;
     url <- config_item crm_url ;;
     user <- config_item cfg_username ;;
     pass <- config_item cfg_password ;;
     call_ (Goto MainPage url) ;;
     call_ (WaitForLoadState MainPage) ;;
     call_ (WaitForTimeout MainPage 5000) ;;
     login_loop (Py.range (Z.to_nat max_attempts)) user pass)
    (fun e =>
       log_ (LoginFailedWithError e) ;;
       screenshot MainPage (Cwd "login_error.png") ;;
       ret false).

(** *** navigate_to_job_search (lines 357-385) *)

Definition navigate_to_job_search : M bool :=
  except_Exception
    (log_ NavigatingToJobSearch ;;
     call_ (Click MainPage (xpaths job_search_menu)) ;;
     call_ (WaitForTimeout MainPage 1000) ;;
     call_ (Click MainPage (xpaths job_search_link)) ;;
     call_ (WaitForLoadState MainPage) ;;
     call_ (WaitForTimeout MainPage 3000) ;;
     except_any
       (call_ (WaitForSelector MainPage (xpaths search_input) 10000) ;;
        log_ NavigatedToJobSearch ;;
        ret true)
       (log_ SearchInputNotFound ;; ret true))
    (fun e =>
       log_ (FailedToNavigate e) ;;
       screenshot MainPage (Cwd "navigation_error.png") ;;
       ret false).

(** *** verify_search_results (lines 422-456) *)

(** The loop of lines 439-443; [true] when it returns True.  [so_number in
    row_text] raises TypeError when the row has no text. *)
Fixpoint so_in_rows (so_number : string) (rows : list elem) : M bool :=
  match rows with
  | [] => ret false
  | row :: rest =>
      row_text <- call_ (ElemTextContent row) ;;
      match row_text with
      | None => raise TypeError
      | Some text =>
          if Py.contains so_number text then ret true
          else so_in_rows so_number rest
      end
  end.

Definition no_results_selector : string := "text=/no.*results|not found|no data/i".

Definition verify_search_results (so_number : string) : M bool :=
  except_Exception
    (present <- except_any
                  (call_ (WaitForSelector MainPage (xpaths table_rows) 15000) ;; ret true)
                  (ret false) ;;
     if negb present then ret false
     else
       rows <- call_ (QuerySelectorAll MainPage (xpaths table_rows)) ;;
       match rows with
       | [] => ret false
       | _ =>
           found <- so_in_rows so_number rows ;;
           if found then ret true
           else
             no_results <- call_ (QuerySelector MainPage no_results_selector) ;;
             match no_results with
             | Some _ => ret false
             | None => ret false
             end
       end)
    (fun _ => ret false).

(** *** search_service_order (lines 387-420) *)

Definition search_service_order (so_number : string) : M bool :=
  except_Exception
    (box <- except_any
              (b <- call_ (WaitForSelector MainPage (xpaths search_input) 10000) ;;
               ret (Some b))
              (log_ SearchBoxNotFound ;; ret None) ;;
     match box with
     | None => ret false
     | Some None => raise AttributeError
     | Some (Some search_box) =>
         call_ (ElemFill search_box "") ;;
         call_ (ElemType search_box so_number) ;;
         call_ (KeyboardPress MainPage "Enter") ;;
         call_ (WaitForTimeout MainPage 4000) ;;
         call_ (WaitForLoadState MainPage) ;;
         results_found <- verify_search_results so_number ;;
         if results_found then ret true
         else log_ (NoResultsFound so_number) ;; ret false
     end)
    (fun e => log_ (SearchFailed so_number e) ;; ret false).

(** *** find_eye_button_for_so (lines 458-480) *)

Definition eye_in_row : string := "xpath=./td[16]/div/a/i".
Definition eye_fallback : string :=
  "td:last-child i, td:last-child a, td:last-child button".

(** The loop of lines 464-474; [Some b] when it returns the button [b]. *)
Fixpoint eye_loop (so_number : string) (rows : list elem) : M (option elem) :=
  match rows with
  | [] => ret None
  | row :: rest =>
      row_text <- call_ (ElemTextContent row) ;;
      match row_text with
      | None => raise TypeError
      | Some text =>
          if Py.contains so_number text
          then
            primary <- call_ (ElemQuerySelector row eye_in_row) ;;
            button <- match primary with
                      | Some b => ret (Some b)
                      | None => call_ (ElemQuerySelector row eye_fallback)
                      end ;;
            match button with
            | Some b => ret (Some b)
            | None => eye_loop so_number rest
            end
          else eye_loop so_number rest
      end
  end.

Definition find_eye_button_for_so (so_number : string) : M (option elem) :=
  except_Exception
    (rows <- call_ (QuerySelectorAll MainPage (xpaths table_rows)) ;;
     eye_loop so_number rows)
    (fun e => log_ (ErrorFindingEyeButton e) ;; ret None).

(** *** open_service_order_details (lines 482-518) *)

Definition open_service_order_details (so_number : string) : M bool :=
  except_Exception
    (button <- find_eye_button_for_so so_number ;;
     match button with
     | None => log_ (ViewButtonNotFound so_number) ;; ret false
     | Some b =>
         call_ (ElemScrollIntoView b) ;;
         call_ (WaitForTimeout MainPage 1000) ;;
         call_ (ElemClick b) ;;
         call_ (WaitForTimeout MainPage (get_wait_time cfg * 1000)) ;;
         call_ (WaitForLoadState MainPage) ;;
         except_any
           (call_ (WaitForSelector MainPage (xpaths invoice_image) 10000) ;; ret true)
           (ret true)
     end)
    (fun e =>
       log_ (FailedToOpenDetails so_number e) ;;
       screenshot MainPage (Cwd ("details_error_" ++ so_number ++ ".png")%string) ;;
       ret false).

(** *** save_invoice_image_new_tab (lines 520-560): strategy 1 *)

Definition save_invoice_image_new_tab (so_number : string) : M bool :=
  except_Exception
    (invoice_link <- call_ (WaitForSelector MainPage (xpaths invoice_image) 10000) ;;
     match invoice_link with
     | None => log_ (NoInvoiceLink so_number) ;; ret false
     | Some link =>
         call_ (ElemClick link) ;;
         new_page <- call_ ExpectPage ;;
         call_ (WaitForLoadState new_page) ;;
         call_ (WaitForTimeout new_page 2000) ;;
         screenshot new_page (png so_number) ;;
         log_ (InvoiceSaved so_number) ;;
         call_ (PageClose new_page) ;;
         ret true
     end)
    (fun e => log_ (FailedToSaveInNewTab so_number e) ;; ret false).

(** *** save_base64_image (lines 606-633) *)

Definition base64_ext (base64_string : string) : string :=
  if Py.startswith base64_string "data:image/png" then "png"
  else if Py.startswith base64_string "data:image/jpeg"
          || Py.startswith base64_string "data:image/jpg" then "jpg"
  else "png".

Definition save_base64_image (base64_string so_number : string) : M unit :=
  except_Exception
    (if b64decode_ok base64_string
     then add_file (Download (so_number ++ "." ++ base64_ext base64_string)%string)
     else raise ValueError)
    (fun e => log_ (FailedToSaveBase64 e) ;; raise e).

(** *** find_and_save_invoice_image (lines 562-604) *)

(** Lines 565-569: bring the invoice link into view. *)
Definition scroll_to_invoice : M unit :=
  invoice_link <- call_ (QuerySelector MainPage (xpaths invoice_image)) ;;
  match invoice_link with
  | Some link =>
      call_ (ElemScrollIntoView link) ;;
      call_ (WaitForTimeout MainPage 1000)
  | None => ret tt
  end.

(** Lines 575-589, strategy 2: fetch the embedded image.  [true] when the
    block executes [return True], [false] when control falls through. *)
Definition embedded_image_fetch (so_number : string) : M bool :=
  image_element <- call_ (QuerySelector MainPage (xpaths invoice_image ++ " img")%string) ;;
  match image_element with
  | None => ret false
  | Some img =>
      image_src <- call_ (ElemGetAttribute img "src") ;;
      match image_src with
      | None => ret false
      | Some src =>
          if negb (Py.truthy src) then ret false
          else if Py.startswith src "data:"
          then save_base64_image src so_number ;; ret true
          else if Py.startswith src "http"
          then call_ (Goto MainPage src) ;;
               screenshot MainPage (png so_number) ;;
               call_ (GoBack MainPage) ;;
               ret true
          else ret false
      end
  end.

(** Lines 591-599, strategy 3: screenshot of the element's region. *)
Definition region_screenshot (so_number : string) : M bool :=
  invoice_element <- call_ (QuerySelector MainPage (xpaths invoice_image)) ;;
  match invoice_element with
  | Some el =>
      elem_screenshot el (png so_number) ;;
      log_ (InvoiceSavedScreenshot so_number) ;;
      ret true
  | None => log_ (NoInvoiceImage so_number) ;; ret false
  end.

Definition find_and_save_invoice_image (so_number : string) : M bool :=
  except_Exception
    (scroll_to_invoice ;;
     by_new_tab <- save_invoice_image_new_tab so_number ;;
     if by_new_tab then ret true
     else
       by_fetch <- embedded_image_fetch so_number ;;
       if by_fetch then ret true
       else region_screenshot so_number)
    (fun e =>
       log_ (FailedToSaveInvoice so_number e) ;;
       screenshot MainPage (Cwd ("invoice_error_" ++ so_number ++ ".png")%string) ;;
       ret false).

(** *** return_to_search (lines 635-659) *)

Definition return_to_search : M bool :=
  except_Exception
    (call_ (Click MainPage (xpaths job_search_link)) ;;
     call_ (WaitForLoadState MainPage) ;;
     call_ (WaitForTimeout MainPage 2000) ;;
     box <- call_ (QuerySelector MainPage (xpaths search_input)) ;;
     match box with
     | Some _ => ret true
     | None => ret false
     end)
    (fun e =>
       log_ (FailedToReturnToSearch e) ;;
       except_any
         (call_ (GoBack MainPage) ;;
          call_ (WaitForLoadState MainPage) ;;
          ret true)
         (url <- config_item crm_url ;;
          call_ (Goto MainPage (url ++ "/job-search")%string) ;;
          ret true)).

(** *** process_service_order (lines 661-701) *)

(** Lines 670-691: the steps of one attempt. *)
Definition attempt_steps (so_number : string) (retry_count : Z) : M bool :=
  log_ (ProcessingSO so_number (retry_count + 1) (get_max_retries cfg)) ;;
  search_success <- search_service_order so_number ;;
  if negb search_success
  then log_ (StepSearchFailed so_number) ;; ret false
  else
    details_opened <- open_service_order_details so_number ;;
    if negb details_opened
    then log_ (StepOpenDetailsFailed so_number) ;; ret false
    else
      invoice_saved <- find_and_save_invoice_image so_number ;;
      if negb invoice_saved
      then log_ (StepSaveInvoiceFailed so_number) ;; ret false
      else log_ (OrderProcessed so_number) ;; ret true.

(** The recursion of line 699 is on [retry_count], which grows towards
    [max_retries - 1]; [fuel] bounds the number of recursive calls. *)
Fixpoint process_service_order_rec (fuel : nat) (so_number : string) (retry_count : Z)
  : M bool :=
  is_cancelled <- gets cancelled ;;
  if is_cancelled then ret false
  else
    except_Exception
      (attempt_steps so_number retry_count)
      (fun e =>
         log_ (ErrorProcessing so_number e) ;;
         if (retry_count <? get_max_retries cfg - 1)%Z
         then
           log_ (Retrying so_number) ;;
           call_ (WaitForTimeout MainPage 3000) ;;
           match fuel with
           | S fuel' => process_service_order_rec fuel' so_number (retry_count + 1)
           | O => ret false
           end
         else ret false).

(** The fuel that [retry_count] leaves: the recursion never runs out of it
    (see [process_service_order_unfold]). *)
Definition process_service_order (so_number : string) (retry_count : Z) : M bool :=
  process_service_order_rec
    (Z.to_nat (get_max_retries cfg - 1 - retry_count)) so_number retry_count.

(** *** print_summary (lines 783-815) *)

Definition print_summary : M unit :=
  st <- gets stats ;;
  match end_time st, start_time st with
  | Some e, Some b =>
      let duration := (e - b)%Z in
      log_ (Summary (total st) (success st) (failed st) (skipped st) duration) ;;
      (if (0 <? total st)%nat
       then log_ (SuccessRate (success st) (total st))
       else ret tt) ;;
      modify (with_summary
                (Some (mkSummary b e duration (total st) (success st) (failed st)
                         (if (0 <? total st)%nat
                          then Some (success st, total st) else None))))
  | _, _ => raise TypeError
  end.

(** *** run_automation (lines 703-781) *)

(** Lines 744-745: the append to the failure log.  Nothing is written when
    the [open] or the [write] raises. *)
Definition append_failed_order (so_number : string) : M unit :=
  fun s => match failed_orders_append (trace s) so_number with
           | Ok _ => (Ok tt, with_failed_orders (failed_orders_txt s ++ [so_number]) s)
           | Raise e => (Raise e, s)
           end.

(** Lines 734-750: one order, its classification and the failure log. *)
Definition process_and_count (so_number : string) : M unit :=
  except_Exception
    (ok <- process_service_order so_number 0 ;;
     if ok
     then update_stats incr_success ;;
          log_ (RunSuccess so_number)
     else update_stats incr_failed ;;
          log_ (RunFailed so_number) ;;
          append_failed_order so_number)
    (fun e =>
       log_ (CriticalError so_number e) ;;
       update_stats incr_failed ;;
       screenshot MainPage (Cwd ("critical_error_" ++ so_number ++ ".png")%string)).

(** Lines 729-754: the loop over [enumerate(so_numbers, 1)]; [n] is
    [len(so_numbers)] and [i] the index of the head of [rest]. *)
Fixpoint process_orders (n i : nat) (rest : list string) : M unit :=
  match rest with
  | [] => ret tt
  | so_number :: rest' =>
      log_ (ProcessingHeader i n so_number) ;;
      process_and_count so_number ;;
      (if (i <? n)%nat then return_to_search ;; ret tt else ret tt) ;;
      process_orders n (S i) rest'
  end.

(** Lines 716-757: the body of the inner [try]. *)
Definition session (so_numbers : list string) : M unit :=
  login_success <- login ;;
  if negb login_success
  then log_ LoginFailedExiting
  else
    navigation_success <- navigate_to_job_search ;;
    if negb navigation_success
    then log_ NavigationFailedExiting
    else
      process_orders (length so_numbers) 1 so_numbers ;;
      print_summary.

(** Lines 764-773: the cleanup of the inner [finally]. *)
Definition cleanup : M unit :=
  except_any (call_ BrowserClose) (ret tt) ;;
  except_any (call_ PlaywrightStop) (ret tt).

(** Lines 779-781: the outer [finally]. *)
Definition finalize : M unit :=
  t <- now ;;
  update_stats (set_end_time t) ;;
  print_summary.

(** Lines 715-773: the inner [try] with its handler and its cleanup. *)
Definition guarded_session (so_numbers : list string) : M unit :=
  finally
    (except_Exception
       (session so_numbers)
       (fun e =>
          log_ (AutomationFailed e) ;;
          screenshot MainPage (Cwd "automation_error.png")))
    cleanup.

(** Lines 707-776: the outer [try] with its handler. *)
Definition run_body : M unit :=
  except_Exception
    (so_numbers <- load_service_orders ;;
     update_stats (set_total (length so_numbers)) ;;
     setup_browser ;;
     guarded_session so_numbers)
    (fun e => log_ (SetupFailed e)).

Definition run_automation : M unit :=
  t <- now ;;
  update_stats (set_start_time t) ;;
  finally run_body finalize.

(** Lines 705-713 as one block: the run up to the point where the browser
    is set up, with the identifiers loaded. *)
Definition run_prologue : M (list string) :=
  t <- now ;;
  update_stats (set_start_time t) ;;
  so_numbers <- load_service_orders ;;
  update_stats (set_total (length so_numbers)) ;;
  setup_browser ;;
  ret so_numbers.

(** ** Vocabulary of the properties *)

(** [keeps proj m]: running [m] never changes the part [proj] of the state,
    however [m] ends. *)
Definition keeps {A X : Type} (proj : state -> X) (m : M A) : Prop :=
  forall s, proj (snd (m s)) = proj s.

(** The part of the state that belongs to the run coordinator. *)
Definition coordinator (s : state) : run_stats * bool * list string * option summary :=
  (stats s, cancelled s, failed_orders_txt s, summary_txt s).

(** The log entries that announce an attempt on an order (line 670). *)
Definition is_attempt (m : msg) : bool :=
  match m with
  | ProcessingSO _ _ _ => true
  | _ => false
  end.

Definition attempts_logged (s : state) : list msg := filter is_attempt (log s).

(** What the browser-level operations leave alone: the coordinator's data
    and the record of attempts. *)
Definition frame (s : state) :=
  (coordinator s, attempts_logged s).

(** What only the coordinator's own steps can change. *)
Definition observed (s : state) :=
  (stats s, cancelled s, failed_orders_txt s, attempts_logged s).

(** What no step of a run changes once the run has started. *)
Definition fixed (s : state) := (skipped (stats s), start_time (stats s), cancelled s).

Definition skipped_count (s : state) : nat := skipped (stats s).

(** [leads P Q m]: from a state in [P], [m] ends in a state in [Q], however
    it ends. *)
Definition leads {A : Type} (P Q : state -> Prop) (m : M A) : Prop :=
  forall s, P s -> Q (snd (m s)).

(** [extends t0 s]: the trace of [s] begins with [t0]. *)
Definition extends (t0 : list event) (s : state) : Prop :=
  exists t, trace s = t0 ++ t.

(** The first call of every attempt on an order: the wait for the search
    box (line 391). *)
Definition search_box_wait : event :=
  Ev (WaitForSelector MainPage (xpaths search_input) 10000).

(** The calls that, once the search page is reached, only the steps of the
    pipeline make; the loop itself returns to the search (clicks on the
    page, waits, queries, history, navigation) and takes diagnostic
    screenshots of the page. *)
Definition is_step_call (ev : event) : bool :=
  match projT2 ev with
  | WaitForSelector _ _ _ | QuerySelectorAll _ _ | KeyboardPress _ _
  | ExpectPage | PageClose _
  | ElemFill _ _ | ElemType _ _ | ElemClick _ | ElemScrollIntoView _
  | ElemTextContent _ | ElemGetAttribute _ _ | ElemQuerySelector _ _
  | ElemScreenshot _ _ => true
  | _ => false
  end.

Definition step_calls (s : state) : list event := filter is_step_call (trace s).



(** No append to the failure log raises an [Exception]. *)
Definition appends_work : Prop :=
  forall t so e, failed_orders_append t so = Raise e -> is_Exception e = false.

(** The state after lines 741-742: the order is counted as failed and the
    verdict is logged. *)
Definition failed_state (so_number : string) (s : state) : state :=
  with_log (log s ++ [RunFailed so_number]) (with_stats (incr_failed (stats s)) s).

(** The calls of strategy 3: a screenshot of an element's region. *)
Definition is_region_shot (ev : event) : bool :=
  match projT2 ev with
  | ElemScreenshot _ _ => true
  | _ => false
  end.

Definition region_shots (s : state) : list event := filter is_region_shot (trace s).

(** The invoice of an order is on disk, as [.png] or as [.jpg]. *)
Definition artifact_exists (so_number : string) (s : state) : Prop :=
  In (Download (so_number ++ ".png")%string) (files s)
  \/ In (Download (so_number ++ ".jpg")%string) (files s).

(** [counted k s s']: from [s] to [s'] at most [k] orders were classified,
    each as success or as failed, and nothing else of the coordinator's
    counters moved. *)
Definition counted (k : nat) (s s' : state) : Prop :=
  total (stats s') = total (stats s)
  /\ skipped (stats s') = skipped (stats s)
  /\ start_time (stats s') = start_time (stats s)
  /\ end_time (stats s') = end_time (stats s)
  /\ cancelled s' = cancelled s
  /\ (success (stats s) <= success (stats s'))%nat
  /\ (failed (stats s) <= failed (stats s'))%nat
  /\ (success (stats s') + failed (stats s')
      <= success (stats s) + failed (stats s) + k)%nat.

(** The state in which the run starts its body (after line 705). *)
Definition started (s : state) : state :=
  with_stats (set_start_time (clock (trace s)) (stats s)) s.

(** The state after the identifiers are loaded and counted (line 710). *)
Definition loaded (ids : list string) (s : state) : state :=
  with_stats (set_total (length ids) (stats s))
    (with_log (log s ++ [LoadedServiceOrders (length ids)]) s).

(** The summary that [print_summary] writes for given statistics. *)
Definition summary_of (st : run_stats) : option summary :=
  match end_time st, start_time st with
  | Some e, Some b =>
      Some (mkSummary b e (e - b) (total st) (success st) (failed st)
              (if (0 <? total st)%nat then Some (success st, total st) else None))
  | _, _ => None
  end.

(** A finalized run: the end time is set, the summary file holds the
    summary of the final statistics, and the summary is in the log. *)
Definition finalized (s : state) : Prop :=
  exists b e,
    start_time (stats s) = Some b
    /\ end_time (stats s) = Some e
    /\ summary_txt s = summary_of (stats s)
    /\ summary_txt s <> None
    /\ In (Summary (total (stats s)) (success (stats s)) (failed (stats s))
             (skipped (stats s)) (e - b)) (log s).

(** [no_Exception m]: [m] never ends in an exception that [except Exception]
    would catch; it returns, or it is interrupted by a [BaseException]. *)
Definition no_Exception {A : Type} (m : M A) : Prop :=
  forall s e, fst (m s) = Raise e -> is_Exception e = false.

(** The messages that the run coordinator itself logs ([load_service_orders],
    [run_automation], [print_summary]). *)
Definition is_run_msg (m : msg) : bool :=
  match m with
  | LoadedServiceOrders _ | FailedToLoadServiceOrders _
  | ProcessingHeader _ _ _ | RunSuccess _ | RunFailed _ | CriticalError _ _
  | LoginFailedExiting | NavigationFailedExiting
  | AutomationFailed _ | SetupFailed _
  | Summary _ _ _ _ _ | SuccessRate _ _ => true
  | _ => false
  end.

(** The calls that create and release the browser session. *)
Definition is_lifecycle (ev : event) : bool :=
  match projT2 ev with
  | LaunchBrowser | BrowserClose | PlaywrightStop => true
  | _ => false
  end.

(** The coordinator's lines of the log, and the session's lifecycle calls. *)
Definition journal (s : state) : list msg := filter is_run_msg (log s).

Definition lifecycle (s : state) : list event := filter is_lifecycle (trace s).

(** [preserves I m]: running [m] from a state in [I] ends in a state in [I],
    however [m] ends. *)
Definition preserves {A : Type} (I : state -> Prop) (m : M A) : Prop :=
  forall s, I s -> I (snd (m s)).




(** The identifiers of the verdicts in a log, in the order of the log. *)
Fixpoint verdict_ids (l : list msg) : list string :=
  match l with
  | [] => []
  | RunSuccess so :: rest => so :: verdict_ids rest
  | RunFailed so :: rest => so :: verdict_ids rest
  | CriticalError so _ :: rest => so :: verdict_ids rest
  | _ :: rest => verdict_ids rest
  end.







(** The identifiers of the orders that have got their verdict so far. *)
Definition verdicts (s : state) : list string := verdict_ids (log s).

(** The attempts on one order that the log shows when [k] attempts were made
    from retry count [rc] on. *)
Definition attempts_from (so_number : string) (rc : Z) (k : nat) : list msg :=
  map (fun i => ProcessingSO so_number (rc + Z.of_nat i + 1) (get_max_retries cfg))
    (seq 0 k).

(** The attempts of [login] that the log shows (line 235). *)
Definition is_login_try (m : msg) : bool :=
  match m with LookingForUsername _ _ => true | _ => false end.

Definition login_tries (s : state) : list msg := filter is_login_try (log s).

(** The session was stored as the last call, right after the login was
    reported (lines 272-275). *)
Definition session_saved (s : state) : Prop :=
  (exists t, trace s = t ++ [Ev (StorageState "auth_state.json")])
  /\ (exists l, log s = l ++ [LoginSuccessful]).

(** ** Reasoning about the workflow *)

(** *** What a computation leaves unchanged *)

Section Keeps.

Context {X : Type} (proj : state -> X).

Lemma keeps_ret {A : Type} (a : A) : keeps proj (ret a).
Proof. intros s; reflexivity. Qed.

Lemma keeps_raise {A : Type} (e : exn) : keeps proj (@raise A e).
Proof. intros s; reflexivity. Qed.

Lemma keeps_gets {A : Type} (f : state -> A) : keeps proj (gets f).
Proof. intros s; reflexivity. Qed.

Lemma keeps_bind {A B : Type} (m : M A) (k : A -> M B) :
  keeps proj m -> (forall a, keeps proj (k a)) -> keeps proj (bind m k).
Proof.
  intros Hm Hk s. unfold bind. specialize (Hm s).
  destruct (m s) as [[a | e] s1]; simpl in *.
  - rewrite Hk. exact Hm.
  - exact Hm.
Qed.

Lemma keeps_try_except {A : Type} (m : M A) (c : exn -> bool) (h : exn -> M A) :
  keeps proj m -> (forall e, keeps proj (h e)) -> keeps proj (try_except m c h).
Proof.
  intros Hm Hh s. unfold try_except. specialize (Hm s).
  destruct (m s) as [[a | e] s1]; simpl in *; [exact Hm|].
  destruct (c e); simpl; [rewrite Hh|]; exact Hm.
Qed.

Lemma keeps_except_Exception {A : Type} (m : M A) (h : exn -> M A) :
  keeps proj m -> (forall e, keeps proj (h e)) -> keeps proj (except_Exception m h).
Proof. apply keeps_try_except. Qed.

Lemma keeps_except_any {A : Type} (m h : M A) :
  keeps proj m -> keeps proj h -> keeps proj (except_any m h).
Proof. intros Hm Hh. apply keeps_try_except; auto. Qed.

Lemma keeps_finally {A : Type} (m : M A) (f : M unit) :
  keeps proj m -> keeps proj f -> keeps proj (finally m f).
Proof.
  intros Hm Hf s. unfold finally. specialize (Hm s).
  destruct (m s) as [r s1]. specialize (Hf s1).
  destruct (f s1) as [[u | e] s2]; simpl in *; congruence.
Qed.

Lemma keeps_modify (f : state -> state) :
  (forall s, proj (f s) = proj s) -> keeps proj (modify f).
Proof. intros H s. apply H. Qed.

Lemma keeps_call {T : Type} (c : call T) :
  (forall s, proj (with_trace (trace s ++ [Ev c]) s) = proj s) ->
  keeps proj (call_ c).
Proof. intros H s. apply H. Qed.

Lemma keeps_append (so : string) :
  (forall s, proj (with_failed_orders (failed_orders_txt s ++ [so]) s) = proj s) ->
  keeps proj (append_failed_order so).
Proof.
  intros H s. unfold append_failed_order.
  destruct (failed_orders_append (trace s) so); simpl; [ apply H | reflexivity ].
Qed.

End Keeps.

(** One structural step of a [keeps] proof, chosen by the head of the
    computation. *)
Ltac keeps_step :=
  lazymatch goal with
  | |- keeps _ (ret _) => apply keeps_ret
  | |- keeps _ (raise _) => apply keeps_raise
  | |- keeps _ (gets _) => apply keeps_gets
  | |- keeps _ (bind _ _) => apply keeps_bind; [ | intros ? ]
  | |- keeps _ (except_Exception _ _) => apply keeps_except_Exception; [ | intros ? ]
  | |- keeps _ (except_any _ _) => apply keeps_except_any
  | |- keeps _ (finally _ _) => apply keeps_finally
  | |- keeps _ (match ?x with _ => _ end) => destruct x
  end.

Ltac keeps_with leaf := repeat first [ leaf | keeps_step ].

(** *** The coordinator's data is out of the pipeline's reach *)

Lemma frame_call {T : Type} (c : call T) : keeps frame (call_ c).
Proof. apply keeps_call. reflexivity. Qed.

Lemma frame_log (m : msg) : is_attempt m = false -> keeps frame (log_ m).
Proof.
  intros H. apply keeps_modify. intros s. unfold frame, attempts_logged. simpl.
  rewrite filter_app. simpl. rewrite H, app_nil_r. reflexivity.
Qed.

Lemma frame_add_file (f : path) : keeps frame (add_file f).
Proof. apply keeps_modify. reflexivity. Qed.

Lemma frame_screenshot p f : keeps frame (screenshot p f).
Proof.
  apply keeps_bind; [ apply frame_call | intros _; apply frame_add_file ].
Qed.

Lemma frame_elem_screenshot e f : keeps frame (elem_screenshot e f).
Proof.
  apply keeps_bind; [ apply frame_call | intros _; apply frame_add_file ].
Qed.

Create HintDb frame_db.
Hint Resolve frame_call frame_add_file frame_screenshot frame_elem_screenshot : frame_db.

Ltac frame_tac :=
  keeps_with ltac:(first [ solve [ auto with frame_db ]
                         | apply frame_log; reflexivity ]).

Lemma frame_dashboard_loop l : keeps frame (dashboard_loop l).
Proof. induction l; simpl; frame_tac. Qed.

Lemma frame_welcome_loop l : keeps frame (welcome_loop l).
Proof. induction l; simpl; frame_tac. Qed.
Hint Resolve frame_dashboard_loop frame_welcome_loop : frame_db.

Lemma frame_is_logged_in : keeps frame is_logged_in.
Proof. unfold is_logged_in; frame_tac. Qed.
Hint Resolve frame_is_logged_in : frame_db.

Lemma frame_login_attempt a u p : keeps frame (login_attempt a u p).
Proof. unfold login_attempt; frame_tac. Qed.
Hint Resolve frame_login_attempt : frame_db.

Lemma frame_login_loop l u p : keeps frame (login_loop l u p).
Proof. induction l; simpl; frame_tac. Qed.
Hint Resolve frame_login_loop : frame_db.

Lemma frame_login : keeps frame login.
Proof. unfold login, config_item; frame_tac. Qed.

Lemma frame_navigate : keeps frame navigate_to_job_search.
Proof. unfold navigate_to_job_search; frame_tac. Qed.

Lemma frame_so_in_rows so rows : keeps frame (so_in_rows so rows).
Proof. induction rows; simpl; frame_tac. Qed.
Hint Resolve frame_so_in_rows : frame_db.

Lemma frame_verify so : keeps frame (verify_search_results so).
Proof. unfold verify_search_results; frame_tac. Qed.
Hint Resolve frame_verify : frame_db.

Lemma frame_search so : keeps frame (search_service_order so).
Proof. unfold search_service_order; frame_tac. Qed.

Lemma frame_eye_loop so rows : keeps frame (eye_loop so rows).
Proof. induction rows; simpl; frame_tac. Qed.
Hint Resolve frame_eye_loop : frame_db.

Lemma frame_find_eye so : keeps frame (find_eye_button_for_so so).
Proof. unfold find_eye_button_for_so; frame_tac. Qed.
Hint Resolve frame_find_eye : frame_db.

Lemma frame_open_details so : keeps frame (open_service_order_details so).
Proof. unfold open_service_order_details; frame_tac. Qed.

Lemma frame_new_tab so : keeps frame (save_invoice_image_new_tab so).
Proof. unfold save_invoice_image_new_tab; frame_tac. Qed.

Lemma frame_save_base64 src so : keeps frame (save_base64_image src so).
Proof. unfold save_base64_image; frame_tac. Qed.
Hint Resolve frame_save_base64 : frame_db.

Lemma frame_scroll : keeps frame scroll_to_invoice.
Proof. unfold scroll_to_invoice; frame_tac. Qed.

Lemma frame_embedded so : keeps frame (embedded_image_fetch so).
Proof. unfold embedded_image_fetch; frame_tac. Qed.

Lemma frame_region so : keeps frame (region_screenshot so).
Proof. unfold region_screenshot; frame_tac. Qed.
Hint Resolve frame_new_tab frame_scroll frame_embedded
  frame_region : frame_db.

Lemma frame_find_and_save so : keeps frame (find_and_save_invoice_image so).
Proof. unfold find_and_save_invoice_image; frame_tac. Qed.

Lemma frame_return_to_search : keeps frame return_to_search.
Proof. unfold return_to_search, config_item; frame_tac. Qed.
Hint Resolve frame_search frame_open_details frame_find_and_save
  frame_return_to_search : frame_db.

Lemma frame_setup_browser : keeps frame setup_browser.
Proof. apply frame_call. Qed.

Lemma frame_cleanup : keeps frame cleanup.
Proof. unfold cleanup; frame_tac. Qed.


(** A computation that keeps the frame keeps the coordinator's data. *)
Lemma frame_coordinator {A : Type} (m : M A) : keeps frame m -> keeps coordinator m.
Proof. intros H s. specialize (H s). unfold frame in H. congruence. Qed.

Lemma frame_attempts {A : Type} (m : M A) : keeps frame m -> keeps attempts_logged m.
Proof. intros H s. specialize (H s). unfold frame in H. congruence. Qed.

Lemma coordinator_log (m : msg) : keeps coordinator (log_ m).
Proof. apply keeps_modify. reflexivity. Qed.

Create HintDb coordinator_db.
Hint Resolve coordinator_log : coordinator_db.

Ltac coordinator_tac :=
  keeps_with ltac:(first [ solve [ auto with coordinator_db ]
                         | apply frame_coordinator; solve [ auto with frame_db ] ]).

Lemma coordinator_attempt_steps so rc : keeps coordinator (attempt_steps so rc).
Proof. unfold attempt_steps; coordinator_tac. Qed.
Hint Resolve coordinator_attempt_steps : coordinator_db.

Lemma coordinator_process_rec fuel :
  forall so rc, keeps coordinator (process_service_order_rec fuel so rc).
Proof. induction fuel; intros so rc; simpl; coordinator_tac. Qed.

Lemma coordinator_process so rc : keeps coordinator (process_service_order so rc).
Proof. apply coordinator_process_rec. Qed.

(** Components of the coordinator's data, read off a [keeps coordinator]. *)
Lemma coordinator_parts s s' :
  coordinator s' = coordinator s ->
  stats s' = stats s /\ cancelled s' = cancelled s
  /\ failed_orders_txt s' = failed_orders_txt s /\ summary_txt s' = summary_txt s.
Proof. unfold coordinator; intros H; inversion H; auto. Qed.

(** *** The retry recursion of process_service_order *)

(** [process_service_order] satisfies the recursive equation of the source:
    the fuel of [process_service_order_rec] is never exhausted. *)
Lemma process_service_order_unfold so_number retry_count :
  process_service_order so_number retry_count =
    (is_cancelled <- gets cancelled ;;
     if is_cancelled then ret false
     else
       except_Exception
         (attempt_steps so_number retry_count)
         (fun e =>
            log_ (ErrorProcessing so_number e) ;;
            if (retry_count <? get_max_retries cfg - 1)%Z
            then
              log_ (Retrying so_number) ;;
              call_ (WaitForTimeout MainPage 3000) ;;
              process_service_order so_number (retry_count + 1)
            else ret false)).
Proof.
  unfold process_service_order.
  destruct (retry_count <? get_max_retries cfg - 1)%Z eqn:Hlt.
  - apply Z.ltb_lt in Hlt.
    replace (Z.to_nat (get_max_retries cfg - 1 - retry_count))
      with (S (Z.to_nat (get_max_retries cfg - 1 - (retry_count + 1)))) by lia.
    simpl. rewrite (proj2 (Z.ltb_lt _ _) Hlt). reflexivity.
  - destruct (Z.to_nat (get_max_retries cfg - 1 - retry_count)); simpl;
      rewrite Hlt; reflexivity.
Qed.

(** *** Equations for running a computation from a known state *)

Lemma bind_ok {A B : Type} (m : M A) (k : A -> M B) s a s1 :
  m s = (Ok a, s1) -> bind m k s = k a s1.
Proof. intros H. unfold bind. rewrite H. reflexivity. Qed.

Lemma bind_raise {A B : Type} (m : M A) (k : A -> M B) s e s1 :
  m s = (Raise e, s1) -> bind m k s = (Raise e, s1).
Proof. intros H. unfold bind. rewrite H. reflexivity. Qed.

Lemma bind_ok_inv {A B : Type} (m : M A) (k : A -> M B) s b s' :
  bind m k s = (Ok b, s') -> exists a s1, m s = (Ok a, s1) /\ k a s1 = (Ok b, s').
Proof.
  unfold bind. destruct (m s) as [[a | e] s1]; intros H.
  - exists a, s1. auto.
  - discriminate.
Qed.

Lemma try_ok {A : Type} (m : M A) c h s a s1 :
  m s = (Ok a, s1) -> try_except m c h s = (Ok a, s1).
Proof. intros H. unfold try_except. rewrite H. reflexivity. Qed.

Lemma try_caught {A : Type} (m : M A) c h s e s1 :
  m s = (Raise e, s1) -> c e = true -> try_except m c h s = h e s1.
Proof. intros H Hc. unfold try_except. rewrite H, Hc. reflexivity. Qed.

Lemma try_uncaught {A : Type} (m : M A) c h s e s1 :
  m s = (Raise e, s1) -> c e = false -> try_except m c h s = (Raise e, s1).
Proof. intros H Hc. unfold try_except. rewrite H, Hc. reflexivity. Qed.

(** *** What a computation preserves *)

Section Preserves.

Context (I : state -> Prop).

Lemma preserves_ret {A : Type} (a : A) : preserves I (ret a).
Proof. intros s H. exact H. Qed.

Lemma preserves_raise {A : Type} (e : exn) : preserves I (@raise A e).
Proof. intros s H. exact H. Qed.

Lemma preserves_gets {A : Type} (f : state -> A) : preserves I (gets f).
Proof. intros s H. exact H. Qed.

Lemma preserves_bind {A B : Type} (m : M A) (k : A -> M B) :
  preserves I m -> (forall a, preserves I (k a)) -> preserves I (bind m k).
Proof.
  intros Hm Hk s H. unfold bind. specialize (Hm s H).
  destruct (m s) as [[a | e] s1]; simpl in *; [ apply Hk | ]; exact Hm.
Qed.

Lemma preserves_except_Exception {A : Type} (m : M A) (h : exn -> M A) :
  preserves I m -> (forall e, preserves I (h e)) -> preserves I (except_Exception m h).
Proof.
  intros Hm Hh s H. unfold except_Exception, try_except. specialize (Hm s H).
  destruct (m s) as [[a | e] s1]; simpl in *; [ exact Hm | ].
  destruct (is_Exception e); simpl; [ apply Hh | ]; exact Hm.
Qed.

Lemma preserves_except_any {A : Type} (m h : M A) :
  preserves I m -> preserves I h -> preserves I (except_any m h).
Proof.
  intros Hm Hh s H. unfold except_any, try_except. specialize (Hm s H).
  destruct (m s) as [[a | e] s1]; simpl in *; [ exact Hm | apply Hh; exact Hm ].
Qed.

Lemma preserves_finally {A : Type} (m : M A) (f : M unit) :
  preserves I m -> preserves I f -> preserves I (finally m f).
Proof.
  intros Hm Hf s H. unfold finally. specialize (Hm s H).
  destruct (m s) as [r s1]. specialize (Hf s1 Hm).
  destruct (f s1) as [[u | e] s2]; exact Hf.
Qed.


End Preserves.

Ltac preserves_step :=
  lazymatch goal with
  | |- preserves _ (ret _) => apply preserves_ret
  | |- preserves _ (raise _) => apply preserves_raise
  | |- preserves _ (gets _) => apply preserves_gets
  | |- preserves _ (bind _ _) => apply preserves_bind; [ | intros ? ]
  | |- preserves _ (except_Exception _ _) =>
      apply preserves_except_Exception; [ | intros ? ]
  | |- preserves _ (except_any _ _) => apply preserves_except_any
  | |- preserves _ (finally _ _) => apply preserves_finally
  | |- preserves _ (match ?x with _ => _ end) => destruct x
  end.

Ltac preserves_with leaf := repeat first [ leaf | preserves_step ].

Lemma preserves_log_always (I : state -> Prop) :
  (forall m s, I s -> I (with_log (log s ++ [m]) s)) -> forall m, preserves I (log_ m).
Proof. intros H m s Hs. apply H, Hs. Qed.

(** Where a computation leads: from a state in [P] it ends in a state in
    [Q], however it ends. *)
Lemma leads_preserves {A : Type} (I : state -> Prop) (m : M A) :
  preserves I m -> leads I I m.
Proof. intros H. exact H. Qed.

Lemma leads_bind {A B : Type} (P Q : state -> Prop) (m : M A) (k : A -> M B) :
  leads P Q m -> (forall a, preserves Q (k a)) -> leads P Q (bind m k).
Proof.
  intros Hm Hk s H. unfold bind. specialize (Hm s H).
  destruct (m s) as [[a | e] s1]; simpl in *; [ apply Hk | ]; exact Hm.
Qed.

Lemma leads_try_except {A : Type} (P Q : state -> Prop) (m : M A) c (h : exn -> M A) :
  leads P Q m -> (forall e, preserves Q (h e)) -> leads P Q (try_except m c h).
Proof.
  intros Hm Hh s H. unfold try_except. specialize (Hm s H).
  destruct (m s) as [[a | e] s1]; simpl in *; [ exact Hm | ].
  destruct (c e); simpl; [ apply Hh | ]; exact Hm.
Qed.

(** *** Invariants of the operations below the coordinator *)

Section Invariant.

(** A property of the state that every call, every message and every file
    written preserves is preserved by the whole pipeline. *)
Context (I : state -> Prop).
Hypothesis I_call : forall T (c : call T), preserves I (call_ c).
Hypothesis I_log : forall m, preserves I (log_ m).
Hypothesis I_file : forall f, preserves I (add_file f).

Lemma inv_screenshot p f : preserves I (screenshot p f).
Proof. apply preserves_bind; [ apply I_call | intros _; apply I_file ]. Qed.

Lemma inv_elem_screenshot e f : preserves I (elem_screenshot e f).
Proof. apply preserves_bind; [ apply I_call | intros _; apply I_file ]. Qed.

Create HintDb inv_db.
Hint Resolve inv_screenshot inv_elem_screenshot I_file : inv_db.

Ltac inv_tac :=
  preserves_with ltac:(first [ solve [ auto with inv_db ]
                             | apply I_call
                             | apply I_log ]).

Lemma inv_dashboard_loop l : preserves I (dashboard_loop l).
Proof. induction l; simpl; inv_tac. Qed.

Lemma inv_welcome_loop l : preserves I (welcome_loop l).
Proof. induction l; simpl; inv_tac. Qed.
Hint Resolve inv_dashboard_loop inv_welcome_loop : inv_db.

Lemma inv_is_logged_in : preserves I is_logged_in.
Proof. unfold is_logged_in; inv_tac. Qed.
Hint Resolve inv_is_logged_in : inv_db.

Lemma inv_login_attempt a u p : preserves I (login_attempt a u p).
Proof. unfold login_attempt; inv_tac. Qed.
Hint Resolve inv_login_attempt : inv_db.

Lemma inv_login_loop l u p : preserves I (login_loop l u p).
Proof. induction l; simpl; inv_tac. Qed.
Hint Resolve inv_login_loop : inv_db.

Lemma inv_login : preserves I login.
Proof. unfold login, config_item; inv_tac. Qed.

Lemma inv_navigate : preserves I navigate_to_job_search.
Proof. unfold navigate_to_job_search; inv_tac. Qed.

Lemma inv_so_in_rows so rows : preserves I (so_in_rows so rows).
Proof. induction rows; simpl; inv_tac. Qed.
Hint Resolve inv_so_in_rows : inv_db.

Lemma inv_verify so : preserves I (verify_search_results so).
Proof. unfold verify_search_results; inv_tac. Qed.
Hint Resolve inv_verify : inv_db.

Lemma inv_search so : preserves I (search_service_order so).
Proof. unfold search_service_order; inv_tac. Qed.

Lemma inv_eye_loop so rows : preserves I (eye_loop so rows).
Proof. induction rows; simpl; inv_tac. Qed.
Hint Resolve inv_eye_loop : inv_db.

Lemma inv_find_eye so : preserves I (find_eye_button_for_so so).
Proof. unfold find_eye_button_for_so; inv_tac. Qed.
Hint Resolve inv_find_eye : inv_db.

Lemma inv_open_details so : preserves I (open_service_order_details so).
Proof. unfold open_service_order_details; inv_tac. Qed.

Lemma inv_new_tab so : preserves I (save_invoice_image_new_tab so).
Proof. unfold save_invoice_image_new_tab; inv_tac. Qed.

Lemma inv_save_base64 src so : preserves I (save_base64_image src so).
Proof. unfold save_base64_image; inv_tac. Qed.
Hint Resolve inv_save_base64 : inv_db.

Lemma inv_scroll : preserves I scroll_to_invoice.
Proof. unfold scroll_to_invoice; inv_tac. Qed.

Lemma inv_embedded so : preserves I (embedded_image_fetch so).
Proof. unfold embedded_image_fetch; inv_tac. Qed.

Lemma inv_region so : preserves I (region_screenshot so).
Proof. unfold region_screenshot; inv_tac. Qed.
Hint Resolve inv_new_tab inv_scroll inv_embedded inv_region : inv_db.

Lemma inv_find_and_save so : preserves I (find_and_save_invoice_image so).
Proof. unfold find_and_save_invoice_image; inv_tac. Qed.

Lemma inv_return_to_search : preserves I return_to_search.
Proof. unfold return_to_search, config_item; inv_tac. Qed.
Hint Resolve inv_search inv_open_details inv_find_and_save : inv_db.

Lemma inv_attempt_steps so rc : preserves I (attempt_steps so rc).
Proof. unfold attempt_steps; inv_tac. Qed.
Hint Resolve inv_attempt_steps : inv_db.

Lemma inv_process_rec fuel :
  forall so rc, preserves I (process_service_order_rec fuel so rc).
Proof. induction fuel; intros so rc; simpl; inv_tac. Qed.

Lemma inv_process so rc : preserves I (process_service_order so rc).
Proof. apply inv_process_rec. Qed.

End Invariant.

(** *** The calls of a computation are appended to the trace *)

Lemma extends_refl s : extends (trace s) s.
Proof. exists []. symmetry. apply app_nil_r. Qed.

Lemma extends_call t0 {T : Type} (c : call T) : preserves (extends t0) (call_ c).
Proof.
  intros s [t H]. exists (t ++ [Ev c]). simpl. rewrite H, app_assoc. reflexivity.
Qed.

Lemma extends_log t0 (m : msg) : preserves (extends t0) (log_ m).
Proof. intros s H. exact H. Qed.

Lemma extends_add_file t0 (f : path) : preserves (extends t0) (add_file f).
Proof. intros s H. exact H. Qed.

Ltac extends_leaf :=
  intros; first [ apply extends_call | apply extends_log | apply extends_add_file ].

(** Every attempt on an order begins with the search: its first call is the
    wait for the search box (lines 391-395). *)
Lemma search_starts_with_the_box so t0 :
  leads (fun s => trace s = t0) (extends (t0 ++ [search_box_wait]))
    (search_service_order so).
Proof.
  unfold search_service_order, except_Exception.
  apply leads_try_except.
  - apply leads_bind.
    + unfold except_any. apply leads_try_except.
      * apply leads_bind.
        -- intros s H. exists []. simpl. rewrite H, app_nil_r. reflexivity.
        -- intros a. apply preserves_ret.
      * intros e. apply preserves_bind; [ apply extends_log | intros _; apply preserves_ret ].
    + intros box.
      preserves_with ltac:(first [ apply extends_call
                                 | apply extends_log
                                 | apply inv_verify; extends_leaf ]).
  - intros e. apply preserves_bind; [ apply extends_log | intros _; apply preserves_ret ].
Qed.

Lemma attempt_starts_with_the_search so rc s :
  extends (trace s ++ [search_box_wait]) (snd (attempt_steps so rc s)).
Proof.
  unfold attempt_steps. unfold bind at 1. simpl.
  match goal with
  | |- extends _ (snd (bind (search_service_order so) ?k ?s1)) =>
      apply (leads_bind (fun s0 => trace s0 = trace s)
               (extends (trace s ++ [search_box_wait])) (search_service_order so) k)
  end.
  - apply search_starts_with_the_box.
  - intros found.
    preserves_with ltac:(first [ apply extends_log
                               | first [ apply inv_open_details | apply inv_find_and_save ];
                                 extends_leaf ]).
  - reflexivity.
Qed.

Lemma process_starts_with_the_search so rc s :
  cancelled s = false ->
  extends (trace s ++ [search_box_wait]) (snd (process_service_order so rc s)).
Proof.
  intros Hflag.
  replace (process_service_order so rc s)
    with (try_except (attempt_steps so rc) is_Exception
            (fun e =>
               log_ (ErrorProcessing so e) ;;
               if (rc <? get_max_retries cfg - 1)%Z
               then
                 log_ (Retrying so) ;;
                 call_ (WaitForTimeout MainPage 3000) ;;
                 process_service_order so (rc + 1)
               else ret false) s).
  2: { symmetry.
       etransitivity; [ apply (f_equal (fun m => m s)), process_service_order_unfold | ].
       unfold bind at 1, gets. rewrite Hflag. reflexivity. }
  apply (leads_try_except (fun s0 => s0 = s)); [ | | reflexivity ].
  - intros s0 ->. apply attempt_starts_with_the_search.
  - intros e.
    preserves_with ltac:(first [ apply extends_log
                               | apply extends_call
                               | apply inv_process; extends_leaf ]).
Qed.

(** ** Python's substring test *)

Lemma prefix_app (p s : string) :
  String.prefix p s = true <-> exists rest, s = (p ++ rest)%string.
Proof.
  revert s. induction p as [| c p IH]; intros s; simpl.
  - split; [ intros _; exists s; reflexivity | destruct s; reflexivity ].
  - destruct s as [| d s]; simpl.
    + split; [ discriminate | intros [rest H]; discriminate ].
    + destruct (Ascii.ascii_dec c d) as [-> | Hne].
      * rewrite IH. split; intros [rest H]; exists rest; congruence.
      * split; [ discriminate | intros [rest H]; congruence ].
Qed.

Lemma contains_here (needle hay : string) :
  String.prefix needle hay = true -> Py.contains needle hay = true.
Proof. intros H. destruct hay; cbn [Py.contains]; rewrite H; reflexivity. Qed.

Lemma contains_later (needle : string) (c : ascii) (hay : string) :
  String.prefix needle (String c hay) = false ->
  Py.contains needle (String c hay) = Py.contains needle hay.
Proof. intros H. cbn [Py.contains]. rewrite H. reflexivity. Qed.

(** [Py.contains needle hay] holds exactly when [needle] occurs in [hay]. *)
Lemma contains_substring (needle hay : string) :
  Py.contains needle hay = true <->
  exists before after, hay = (before ++ needle ++ after)%string.
Proof.
  induction hay as [| c hay IH].
  - destruct (String.prefix needle "") eqn:Hp.
    + rewrite (contains_here _ _ Hp).
      apply prefix_app in Hp. destruct Hp as [rest H].
      split; [ intros _; exists "", rest; exact H | reflexivity ].
    + split.
      * cbn [Py.contains]. rewrite Hp. discriminate.
      * intros [before [after H]]. destruct before; simpl in H.
        -- assert (String.prefix needle "" = true) by (apply prefix_app; eauto).
           congruence.
        -- discriminate.
  - destruct (String.prefix needle (String c hay)) eqn:Hp.
    + rewrite (contains_here _ _ Hp).
      apply prefix_app in Hp. destruct Hp as [rest H].
      split; [ intros _; exists "", rest; exact H | reflexivity ].
    + rewrite (contains_later _ _ _ Hp), IH. split.
      * intros [before [after H]]. exists (String c before), after.
        simpl. congruence.
      * intros [before [after H]]. destruct before as [| d before]; simpl in H.
        -- assert (String.prefix needle (String c hay) = true)
             by (apply prefix_app; eauto).
           congruence.
        -- exists before, after. congruence.
Qed.

(** ** Verification of the search results *)

(** With readable rows, the row loop computes the substring test over the
    rows. *)
Lemma so_in_rows_readable so_number (text : elem -> string) (rows : list elem) :
  (forall t row, In row rows -> env _ t (ElemTextContent row) = Ok (Some (text row))) ->
  forall s,
    fst (so_in_rows so_number rows s)
    = Ok (existsb (fun row => Py.contains so_number (text row)) rows).
Proof.
  induction rows as [| row rows IH]; intros Htext s.
  - reflexivity.
  - simpl. unfold bind at 1. unfold call_ at 1.
    rewrite (Htext _ row (or_introl eq_refl)).
    destruct (Py.contains so_number (text row)); simpl.
    + reflexivity.
    + apply IH. intros t r Hr. apply Htext. right. exact Hr.
Qed.

(** The outcome of the verify step over a readable result table: the
    substring test over the rows, unless the query for a "no results"
    message is interrupted by an exception that [except Exception] lets
    through. *)
Lemma verify_search_results_outcome
    (so_number : string) (rows : list elem) (text : elem -> string) (s : state) :
  (forall t, exists found,
      env _ t (WaitForSelector MainPage (xpaths table_rows) 15000) = Ok found) ->
  (forall t, env _ t (QuerySelectorAll MainPage (xpaths table_rows)) = Ok rows) ->
  (forall t row, In row rows -> env _ t (ElemTextContent row) = Ok (Some (text row))) ->
  match fst (verify_search_results so_number s) with
  | Ok b => b = existsb (fun row => Py.contains so_number (text row)) rows
  | Raise e =>
      existsb (fun row => Py.contains so_number (text row)) rows = false
      /\ is_Exception e = false
      /\ exists t, env _ t (QuerySelector MainPage no_results_selector) = Raise e
  end.
Proof.
  intros Hwait Hall Htext.
  unfold verify_search_results, except_Exception, except_any, try_except.
  unfold bind at 1. unfold bind at 1. unfold call_ at 1.
  destruct (Hwait (trace s)) as [found Hfound]. rewrite Hfound. simpl.
  unfold bind at 1. unfold call_ at 1. simpl. rewrite Hall.
  destruct rows as [| row rows'] eqn:Hrows; [ reflexivity | ].
  rewrite <- Hrows in *. unfold bind at 1.
  pose proof (so_in_rows_readable so_number text rows Htext) as Hloop.
  match goal with
  | |- context [so_in_rows so_number rows ?s0] =>
      specialize (Hloop s0); destruct (so_in_rows so_number rows s0) as [r s1]
  end.
  simpl in Hloop. subst r.
  destruct (existsb (fun row0 => Py.contains so_number (text row0)) rows);
    [ reflexivity | ].
  unfold bind, call_. simpl.
  destruct (env (option elem) (trace s1) (QuerySelector MainPage no_results_selector))
    as [[x |] | e] eqn:Hq; simpl; try reflexivity.
  destruct (is_Exception e) eqn:He; simpl; [ reflexivity | ].
  split; [ reflexivity | split; [ exact He | ] ]. exists (trace s1). exact Hq.
Qed.

(** C8.  When the result table can be listed and every row has a text, the
    verify step succeeds exactly when the text of some row contains the
    identifier as a substring.  When no row does, the step answers "not
    found" whatever the query for a "no results" message returns (a
    message, nothing, or an ordinary fault). *)
Theorem verify_search_results_substring
    (so_number : string) (rows : list elem) (text : elem -> string) (s : state) :
  (forall t, exists found,
      env _ t (WaitForSelector MainPage (xpaths table_rows) 15000) = Ok found) ->
  (forall t, env _ t (QuerySelectorAll MainPage (xpaths table_rows)) = Ok rows) ->
  (forall t row, In row rows -> env _ t (ElemTextContent row) = Ok (Some (text row))) ->
  (fst (verify_search_results so_number s) = Ok true
   <-> exists row before after,
         In row rows /\ text row = (before ++ so_number ++ after)%string)
  /\ ((forall t e, env _ t (QuerySelector MainPage no_results_selector) = Raise e ->
                   is_Exception e = true) ->
      (forall row, In row rows -> Py.contains so_number (text row) = false) ->
      fst (verify_search_results so_number s) = Ok false).
Proof.
  intros Hwait Hall Htext.
  pose proof (verify_search_results_outcome so_number rows text s Hwait Hall Htext) as Hrun.
  assert (Hex : existsb (fun row => Py.contains so_number (text row)) rows = true
                <-> exists row before after,
                      In row rows /\ text row = (before ++ so_number ++ after)%string).
  { rewrite existsb_exists. split.
    - intros [row [Hin Hc]]. apply contains_substring in Hc.
      destruct Hc as [before [after Hc]]. exists row, before, after. auto.
    - intros [row [before [after [Hin Hc]]]]. exists row. split; [ exact Hin | ].
      apply contains_substring. eauto. }
  split.
  - rewrite <- Hex. revert Hrun.
    destruct (fst (verify_search_results so_number s)) as [b | e]; intros Hrun.
    + subst b. split; congruence.
    + destruct Hrun as [Hnone _]. rewrite Hnone. split; discriminate.
  - intros Hfault Hno.
    assert (Hnone : existsb (fun row => Py.contains so_number (text row)) rows = false).
    { destruct (existsb _ rows) eqn:Hx; [ | reflexivity ].
      apply existsb_exists in Hx. destruct Hx as [row [Hin Hc]].
      rewrite (Hno row Hin) in Hc. discriminate. }
    revert Hrun.
    destruct (fst (verify_search_results so_number s)) as [b | e]; intros Hrun.
    + congruence.
    + destruct Hrun as [_ [He [t Hq]]]. apply Hfault in Hq. congruence.
Qed.

(** ** The extraction strategy chain *)

Lemma region_call {T : Type} (c : call T) :
  is_region_shot (Ev c) = false -> keeps region_shots (call_ c).
Proof.
  intros H. apply keeps_call. intros s. unfold region_shots. simpl.
  rewrite filter_app. simpl. rewrite H. apply app_nil_r.
Qed.

Ltac region_tac :=
  keeps_with ltac:(first [ apply region_call; reflexivity
                         | apply keeps_modify; reflexivity
                         | progress unfold screenshot, log_, add_file ]).

Lemma region_scroll : keeps region_shots scroll_to_invoice.
Proof. unfold scroll_to_invoice. region_tac. Qed.

Lemma region_new_tab so : keeps region_shots (save_invoice_image_new_tab so).
Proof. unfold save_invoice_image_new_tab. region_tac. Qed.

Lemma region_embedded so : keeps region_shots (embedded_image_fetch so).
Proof. unfold embedded_image_fetch, save_base64_image. region_tac. Qed.

(** Strategy 2 reports success only with the image file written. *)
Lemma embedded_image_fetch_writes so s s' :
  embedded_image_fetch so s = (Ok true, s') -> artifact_exists so s'.
Proof.
  unfold embedded_image_fetch. intros H.
  apply bind_ok_inv in H. destruct H as [image_element [sa [_ H]]].
  destruct image_element as [img |]; [ | discriminate ].
  apply bind_ok_inv in H. destruct H as [image_src [sb [_ H]]].
  destruct image_src as [src |]; [ | discriminate ].
  destruct (negb (Py.truthy src)); [ discriminate | ].
  destruct (Py.startswith src "data:").
  - apply bind_ok_inv in H. destruct H as [u [sc [Hsave H]]].
    inversion H; subst; clear H.
    unfold save_base64_image, except_Exception, try_except in Hsave.
    destruct (b64decode_ok src); simpl in Hsave.
    + inversion Hsave; subst; clear Hsave. unfold artifact_exists, base64_ext. simpl.
      repeat match goal with
             | |- context [if ?b then _ else _] => destruct b
             end;
        [ left | right | left ]; apply in_or_app; right; left; reflexivity.
    + discriminate.
  - destruct (Py.startswith src "http"); [ | discriminate ].
    apply bind_ok_inv in H. destruct H as [u1 [sc [_ H]]].
    apply bind_ok_inv in H. destruct H as [u2 [sd [Hshot H]]].
    apply bind_ok_inv in H. destruct H as [u3 [se [Hback H]]].
    inversion H; subst; clear H.
    unfold screenshot in Hshot.
    apply bind_ok_inv in Hshot. destruct Hshot as [u4 [sf [_ Hadd]]].
    inversion Hadd; subst; clear Hadd.
    unfold call_ in Hback. inversion Hback; subst; clear Hback.
    left. simpl. apply in_or_app. right. left. reflexivity.
Qed.

(** C5.  The strategies run in the order new tab, embedded image, region
    screenshot, and the first success ends the chain: when the new-tab
    capture succeeds nothing else runs; when it fails and the embedded
    image fetch succeeds, the invoice file exists and no region screenshot
    was taken; the region screenshot decides only after both have failed. *)
Theorem extraction_chain_first_success (so_number : string) (s s1 : state) :
  scroll_to_invoice s = (Ok tt, s1) ->
  (forall s2,
      save_invoice_image_new_tab so_number s1 = (Ok true, s2) ->
      find_and_save_invoice_image so_number s = (Ok true, s2))
  /\ (forall s2 s3,
         save_invoice_image_new_tab so_number s1 = (Ok false, s2) ->
         embedded_image_fetch so_number s2 = (Ok true, s3) ->
         find_and_save_invoice_image so_number s = (Ok true, s3)
         /\ artifact_exists so_number s3
         /\ region_shots s3 = region_shots s)
  /\ (forall s2 s3 b s4,
         save_invoice_image_new_tab so_number s1 = (Ok false, s2) ->
         embedded_image_fetch so_number s2 = (Ok false, s3) ->
         region_screenshot so_number s3 = (Ok b, s4) ->
         find_and_save_invoice_image so_number s = (Ok b, s4)).
Proof.
  intros Hscroll. unfold find_and_save_invoice_image, except_Exception.
  split; [ | split ].
  - intros s2 H1. apply try_ok.
    rewrite (bind_ok _ _ _ _ _ Hscroll), (bind_ok _ _ _ _ _ H1). reflexivity.
  - intros s2 s3 H1 H2. split; [ | split ].
    + apply try_ok.
      rewrite (bind_ok _ _ _ _ _ Hscroll), (bind_ok _ _ _ _ _ H1),
        (bind_ok _ _ _ _ _ H2).
      reflexivity.
    + eapply embedded_image_fetch_writes. exact H2.
    + pose proof (region_embedded so_number s2) as E2.
      pose proof (region_new_tab so_number s1) as E1.
      pose proof (region_scroll s) as E0.
      rewrite H2 in E2. rewrite H1 in E1. rewrite Hscroll in E0. simpl in *.
      congruence.
  - intros s2 s3 b s4 H1 H2 H3. apply try_ok.
    rewrite (bind_ok _ _ _ _ _ Hscroll), (bind_ok _ _ _ _ _ H1),
      (bind_ok _ _ _ _ _ H2).
    exact H3.
Qed.

(** ** Retries of one order *)

(** One run of the steps logs exactly one attempt. *)
Lemma attempt_steps_logs_one so rc s :
  attempts_logged (snd (attempt_steps so rc s))
  = attempts_logged s ++ [ProcessingSO so (rc + 1) (get_max_retries cfg)].
Proof.
  unfold attempt_steps.
  match goal with
  | |- context [bind (log_ ?m) ?k] =>
      assert (Hk : keeps attempts_logged (k tt))
  end.
  { keeps_with ltac:(first [ apply frame_attempts; solve [ auto with frame_db ]
                           | apply frame_attempts; apply frame_log; reflexivity ]). }
  unfold bind at 1. simpl. rewrite Hk.
  unfold attempts_logged. simpl. rewrite filter_app. reflexivity.
Qed.

(** The attempts on an order are bounded by the fuel of the recursion. *)
Lemma process_rec_attempts fuel :
  forall so rc s,
    (length (attempts_logged (snd (process_service_order_rec fuel so rc s)))
     <= length (attempts_logged s) + S fuel)%nat.
Proof.
  induction fuel as [| fuel IH]; intros so rc s;
    cbn [process_service_order_rec]; unfold bind at 1, gets;
    (destruct (cancelled s); [ simpl; lia | ]);
    unfold except_Exception, try_except;
    pose proof (attempt_steps_logs_one so rc s) as Hone;
    destruct (attempt_steps so rc s) as [[b | e] s1]; simpl in Hone;
    try (simpl; rewrite Hone, length_app; simpl; lia);
    (destruct (is_Exception e); [ | simpl; rewrite Hone, length_app; simpl; lia ]);
    unfold bind at 1; simpl;
    (destruct (rc <? get_max_retries cfg - 1)%Z;
     [ | simpl; unfold attempts_logged in *; simpl; rewrite filter_app, length_app;
         simpl; rewrite Hone, length_app; simpl; lia ]);
    unfold bind at 1; simpl; unfold bind at 1; unfold call_ at 1;
    match goal with
    | |- context [env unit ?t ?c] => destruct (env unit t c)
    end; simpl.
  - unfold attempts_logged in *. simpl.
    rewrite !filter_app, !length_app. simpl. rewrite Hone, length_app. simpl. lia.
  - unfold attempts_logged in *. simpl.
    rewrite !filter_app, !length_app. simpl. rewrite Hone, length_app. simpl. lia.
  - match goal with
    | |- context [process_service_order_rec fuel so (rc + 1) ?s2] =>
        specialize (IH so (rc + 1)%Z s2);
        assert (Hs2 : attempts_logged s2 = attempts_logged s1)
    end.
    { unfold attempts_logged. simpl. rewrite !filter_app. simpl.
      rewrite !app_nil_r. reflexivity. }
    rewrite Hs2, Hone, length_app in IH. simpl in IH. lia.
  - unfold attempts_logged in *. simpl.
    rewrite !filter_app, !length_app. simpl. rewrite Hone, length_app. simpl. lia.
Qed.

(** An order is attempted at most [max_retries - retry_count] times, and at
    most once when no retry is left. *)
Lemma process_service_order_attempts so rc s :
  (length (attempts_logged (snd (process_service_order so rc s)))
   <= length (attempts_logged s) + Z.to_nat (Z.max 1 (get_max_retries cfg - rc)))%nat.
Proof.
  unfold process_service_order.
  pose proof (process_rec_attempts
                (Z.to_nat (get_max_retries cfg - 1 - rc)) so rc s) as H.
  lia.
Qed.

(** C3, amended.  While the flag is unset, every call of
    [process_service_order], whatever its retry count, begins with the
    search (its first call is the wait for the search box), and a step that
    reports failure ends the order as Failed at once, with no backoff and no
    retry: the search that returns False, the details that do not open, the
    invoice that is not saved.  Only an exception that escapes the steps is
    retried: with [retry_count < max_retries - 1] the order waits 3 s and
    runs again with [retry_count + 1], from the search step; otherwise it is
    Failed. *)
Theorem retry_only_on_exception (so_number : string) (retry_count : Z) (s : state) :
  cancelled s = false ->
  let s0 := with_log (log s ++ [ProcessingSO so_number (retry_count + 1)
                                  (get_max_retries cfg)]) s in
  (forall b s1,
      attempt_steps so_number retry_count s = (Ok b, s1) ->
      process_service_order so_number retry_count s = (Ok b, s1))
  /\ (forall e s1,
         attempt_steps so_number retry_count s = (Raise e, s1) ->
         is_Exception e = true ->
         (retry_count < get_max_retries cfg - 1)%Z ->
         process_service_order so_number retry_count s
         = (log_ (ErrorProcessing so_number e) ;;
            log_ (Retrying so_number) ;;
            call_ (WaitForTimeout MainPage 3000) ;;
            process_service_order so_number (retry_count + 1)) s1)
  /\ (forall e s1,
         attempt_steps so_number retry_count s = (Raise e, s1) ->
         is_Exception e = true ->
         (retry_count >= get_max_retries cfg - 1)%Z ->
         process_service_order so_number retry_count s
         = (Ok false, with_log (log s1 ++ [ErrorProcessing so_number e]) s1))
  /\ (exists t,
         trace (snd (process_service_order so_number retry_count s))
         = trace s ++ search_box_wait :: t)
  /\ (forall s1,
         search_service_order so_number s0 = (Ok false, s1) ->
         process_service_order so_number retry_count s
         = (Ok false, with_log (log s1 ++ [StepSearchFailed so_number]) s1))
  /\ (forall s1 s2,
         search_service_order so_number s0 = (Ok true, s1) ->
         open_service_order_details so_number s1 = (Ok false, s2) ->
         process_service_order so_number retry_count s
         = (Ok false, with_log (log s2 ++ [StepOpenDetailsFailed so_number]) s2))
  /\ (forall s1 s2 s3,
         search_service_order so_number s0 = (Ok true, s1) ->
         open_service_order_details so_number s1 = (Ok true, s2) ->
         find_and_save_invoice_image so_number s2 = (Ok false, s3) ->
         process_service_order so_number retry_count s
         = (Ok false, with_log (log s3 ++ [StepSaveInvoiceFailed so_number]) s3))
  /\ (forall s1 s2 s3,
         search_service_order so_number s0 = (Ok true, s1) ->
         open_service_order_details so_number s1 = (Ok true, s2) ->
         find_and_save_invoice_image so_number s2 = (Ok true, s3) ->
         process_service_order so_number retry_count s
         = (Ok true, with_log (log s3 ++ [OrderProcessed so_number]) s3))
  /\ (forall e s1,
         attempt_steps so_number retry_count s = (Raise e, s1) ->
         is_Exception e = true ->
         (retry_count < get_max_retries cfg - 1)%Z ->
         env unit (trace s1) (WaitForTimeout MainPage 3000) = Ok tt ->
         exists t,
           trace (snd (process_service_order so_number retry_count s))
           = trace s1 ++ Ev (WaitForTimeout MainPage 3000) :: search_box_wait :: t).
Proof.
  intros Hflag s0.
  assert (Hrun : process_service_order so_number retry_count s
                 = try_except (attempt_steps so_number retry_count) is_Exception
                     (fun e =>
                        log_ (ErrorProcessing so_number e) ;;
                        if (retry_count <? get_max_retries cfg - 1)%Z
                        then
                          log_ (Retrying so_number) ;;
                          call_ (WaitForTimeout MainPage 3000) ;;
                          process_service_order so_number (retry_count + 1)
                        else ret false) s).
  { etransitivity; [ apply (f_equal (fun m => m s)), process_service_order_unfold | ].
    unfold bind at 1, gets. rewrite Hflag. reflexivity. }
  assert (Hok : forall b s1,
             attempt_steps so_number retry_count s = (Ok b, s1) ->
             process_service_order so_number retry_count s = (Ok b, s1)).
  { intros b s1 H. rewrite Hrun. apply try_ok. exact H. }
  assert (Hretry : forall e s1,
             attempt_steps so_number retry_count s = (Raise e, s1) ->
             is_Exception e = true ->
             (retry_count < get_max_retries cfg - 1)%Z ->
             process_service_order so_number retry_count s
             = (log_ (ErrorProcessing so_number e) ;;
                log_ (Retrying so_number) ;;
                call_ (WaitForTimeout MainPage 3000) ;;
                process_service_order so_number (retry_count + 1)) s1).
  { intros e s1 H He Hlt. rewrite Hrun, (try_caught _ _ _ _ _ _ H He).
    rewrite (proj2 (Z.ltb_lt _ _) Hlt). reflexivity. }
  assert (Hsteps : attempt_steps so_number retry_count s
                   = (search_success <- search_service_order so_number ;;
                      if negb search_success
                      then log_ (StepSearchFailed so_number) ;; ret false
                      else
                        details_opened <- open_service_order_details so_number ;;
                        if negb details_opened
                        then log_ (StepOpenDetailsFailed so_number) ;; ret false
                        else
                          invoice_saved <- find_and_save_invoice_image so_number ;;
                          if negb invoice_saved
                          then log_ (StepSaveInvoiceFailed so_number) ;; ret false
                          else log_ (OrderProcessed so_number) ;; ret true) s0).
  { reflexivity. }
  split; [ exact Hok | ]. split; [ exact Hretry | ].
  split.
  { intros e s1 H He Hge. rewrite Hrun, (try_caught _ _ _ _ _ _ H He).
    rewrite (proj2 (Z.ltb_ge _ _)) by lia. reflexivity. }
  split.
  { destruct (process_starts_with_the_search so_number retry_count s Hflag) as [t Ht].
    exists t. rewrite Ht, <- app_assoc. reflexivity. }
  split.
  { intros s1 H1. apply Hok. rewrite Hsteps, (bind_ok _ _ _ _ _ H1). reflexivity. }
  split.
  { intros s1 s2 H1 H2. apply Hok.
    rewrite Hsteps, (bind_ok _ _ _ _ _ H1). cbn [negb].
    rewrite (bind_ok _ _ _ _ _ H2). reflexivity. }
  split.
  { intros s1 s2 s3 H1 H2 H3. apply Hok.
    rewrite Hsteps, (bind_ok _ _ _ _ _ H1). cbn [negb].
    rewrite (bind_ok _ _ _ _ _ H2). cbn [negb].
    rewrite (bind_ok _ _ _ _ _ H3). reflexivity. }
  split.
  { intros s1 s2 s3 H1 H2 H3. apply Hok.
    rewrite Hsteps, (bind_ok _ _ _ _ _ H1). cbn [negb].
    rewrite (bind_ok _ _ _ _ _ H2). cbn [negb].
    rewrite (bind_ok _ _ _ _ _ H3). reflexivity. }
  intros e s1 H He Hlt Hwait.
  rewrite (Hretry e s1 H He Hlt).
  pose proof (coordinator_attempt_steps so_number retry_count s) as Hco.
  rewrite H in Hco. apply coordinator_parts in Hco. destruct Hco as [_ [Hc1 _]].
  simpl in Hc1.
  unfold bind at 1. unfold log_ at 1, modify at 1. cbv iota beta.
  unfold bind at 1. unfold log_ at 1, modify at 1. cbv iota beta.
  unfold bind at 1. unfold call_ at 1. cbn [trace with_log]. rewrite Hwait.
  cbv iota beta.
  match goal with
  | |- context [process_service_order so_number (retry_count + 1) ?s2] =>
      destruct (process_starts_with_the_search so_number (retry_count + 1)%Z s2)
        as [t Ht]; [ simpl; congruence | ];
      exists t; rewrite Ht
  end.
  simpl. rewrite <- !app_assoc. reflexivity.
Qed.

(** ** Counting the outcome of an order *)

Lemma bind_cases {A B : Type} (m : M A) (k : A -> M B) s :
  (exists a s1, m s = (Ok a, s1) /\ bind m k s = k a s1)
  \/ (exists e s1, m s = (Raise e, s1) /\ bind m k s = (Raise e, s1)).
Proof.
  unfold bind. destruct (m s) as [[a | e] s1]; [ left | right ]; eauto.
Qed.

(** What [process_and_count] does, by the outcome of the pipeline. *)
Lemma process_and_count_success so s s1 :
  process_service_order so 0 s = (Ok true, s1) ->
  process_and_count so s
  = (Ok tt, with_log (log s1 ++ [RunSuccess so]) (with_stats (incr_success (stats s1)) s1)).
Proof.
  intros H. unfold process_and_count, except_Exception.
  apply try_ok. rewrite (bind_ok _ _ _ _ _ H). reflexivity.
Qed.

Lemma append_ok so s :
  failed_orders_append (trace s) so = Ok tt ->
  append_failed_order so s
  = (Ok tt, with_failed_orders (failed_orders_txt s ++ [so]) s).
Proof. intros H. unfold append_failed_order. rewrite H. reflexivity. Qed.

Lemma append_raise so s e :
  failed_orders_append (trace s) so = Raise e ->
  append_failed_order so s = (Raise e, s).
Proof. intros H. unfold append_failed_order. rewrite H. reflexivity. Qed.

(** The pipeline reports failure: the order is counted and logged as failed
    (lines 741-742), and then the append decides. *)
Lemma process_and_count_reaches_append so s s1 :
  process_service_order so 0 s = (Ok false, s1) ->
  process_and_count so s
  = try_except (append_failed_order so) is_Exception
      (fun e =>
         log_ (CriticalError so e) ;;
         update_stats incr_failed ;;
         screenshot MainPage (Cwd ("critical_error_" ++ so ++ ".png")%string))
      (failed_state so s1).
Proof.
  intros H. unfold process_and_count, except_Exception, try_except.
  rewrite (bind_ok _ _ _ _ _ H). reflexivity.
Qed.

Lemma process_and_count_failed so s s1 :
  process_service_order so 0 s = (Ok false, s1) ->
  failed_orders_append (trace s1) so = Ok tt ->
  process_and_count so s
  = (Ok tt,
     with_failed_orders (failed_orders_txt s1 ++ [so])
       (with_log (log s1 ++ [RunFailed so]) (with_stats (incr_failed (stats s1)) s1))).
Proof.
  intros H Hw. rewrite (process_and_count_reaches_append _ _ _ H).
  apply try_ok. apply (append_ok so (failed_state so s1)). exact Hw.
Qed.

(** The append raises an [Exception]: nothing is written, and the handler of
    the loop logs a critical error and counts the order a second time. *)
Lemma process_and_count_unwritten so s s1 e :
  process_service_order so 0 s = (Ok false, s1) ->
  failed_orders_append (trace s1) so = Raise e ->
  is_Exception e = true ->
  process_and_count so s
  = screenshot MainPage (Cwd ("critical_error_" ++ so ++ ".png")%string)
      (with_stats (incr_failed (stats (failed_state so s1)))
         (with_log (log (failed_state so s1) ++ [CriticalError so e])
            (failed_state so s1))).
Proof.
  intros H Hw He. rewrite (process_and_count_reaches_append _ _ _ H).
  rewrite (try_caught _ _ _ _ _ _ (append_raise so (failed_state so s1) e Hw) He).
  reflexivity.
Qed.

Lemma process_and_count_unwritten_uncaught so s s1 e :
  process_service_order so 0 s = (Ok false, s1) ->
  failed_orders_append (trace s1) so = Raise e ->
  is_Exception e = false ->
  process_and_count so s = (Raise e, failed_state so s1).
Proof.
  intros H Hw He. rewrite (process_and_count_reaches_append _ _ _ H).
  apply try_uncaught; [ apply (append_raise so (failed_state so s1) e Hw) | exact He ].
Qed.

Lemma process_and_count_critical so s e s1 :
  process_service_order so 0 s = (Raise e, s1) ->
  is_Exception e = true ->
  process_and_count so s
  = screenshot MainPage (Cwd ("critical_error_" ++ so ++ ".png")%string)
      (with_stats (incr_failed (stats s1)) (with_log (log s1 ++ [CriticalError so e]) s1)).
Proof.
  intros H He. unfold process_and_count, except_Exception.
  rewrite (try_caught _ _ _ _ _ _ (bind_raise _ _ _ _ _ H) He). reflexivity.
Qed.

Lemma process_and_count_uncaught so s e s1 :
  process_service_order so 0 s = (Raise e, s1) ->
  is_Exception e = false ->
  process_and_count so s = (Raise e, s1).
Proof.
  intros H He. unfold process_and_count, except_Exception.
  apply try_uncaught; [ apply bind_raise; exact H | exact He ].
Qed.

Lemma counted_keeps {A : Type} (m : M A) s :
  keeps coordinator m -> counted 0 s (snd (m s)).
Proof.
  intros H. specialize (H s). apply coordinator_parts in H.
  destruct H as [Hst [Hc _]]. unfold counted. rewrite Hst, Hc.
  repeat split; lia.
Qed.

Lemma counted_trans a b s1 s2 s3 :
  counted a s1 s2 -> counted b s2 s3 -> counted (a + b) s1 s3.
Proof. unfold counted. intros H1 H2. intuition (try congruence; try lia). Qed.

Lemma counted_le a b s s' : (a <= b)%nat -> counted a s s' -> counted b s s'.
Proof. unfold counted. intros Hle H. intuition lia. Qed.

(** One order moves the counters by one, or by two when its append raises
    an [Exception] (lines 741 and 749). *)
Lemma process_and_count_counted_twice so s :
  counted 2 s (snd (process_and_count so s))
  /\ (fst (process_and_count so s) = Ok tt ->
      success (stats s) + failed (stats s) + 1
      <= success (stats (snd (process_and_count so s)))
         + failed (stats (snd (process_and_count so s))))%nat.
Proof.
  pose proof (coordinator_process so 0%Z s) as Hk.
  destruct (process_service_order so 0 s) as [[[|] | e] s1] eqn:Hp;
    simpl in Hk; apply coordinator_parts in Hk; destruct Hk as [Hst [Hc _]].
  - rewrite (process_and_count_success _ _ _ Hp). simpl.
    unfold counted. simpl. rewrite Hst, Hc. repeat split; lia.
  - destruct (failed_orders_append (trace s1) so) as [[] | e] eqn:Hw.
    + rewrite (process_and_count_failed _ _ _ Hp Hw). simpl.
      unfold counted. simpl. rewrite Hst, Hc. repeat split; lia.
    + destruct (is_Exception e) eqn:He.
      * rewrite (process_and_count_unwritten _ _ _ _ Hp Hw He).
        match goal with
        | |- context [screenshot ?p ?f ?s0] =>
            pose proof (coordinator_parts _ _
                          (frame_coordinator _ (frame_screenshot p f) s0)) as Hshot
        end.
        destruct Hshot as [Hst' [Hc' _]].
        unfold counted. rewrite Hst', Hc'. simpl. rewrite Hst, Hc.
        repeat split; lia.
      * rewrite (process_and_count_unwritten_uncaught _ _ _ _ Hp Hw He). simpl.
        unfold counted. simpl. rewrite Hst, Hc. split; [ repeat split; lia | discriminate ].
  - destruct (is_Exception e) eqn:He.
    + rewrite (process_and_count_critical _ _ _ _ Hp He).
      match goal with
      | |- context [screenshot ?p ?f ?s0] =>
          pose proof (coordinator_parts _ _
                        (frame_coordinator _ (frame_screenshot p f) s0)) as Hshot
      end.
      destruct Hshot as [Hst' [Hc' _]].
      unfold counted. rewrite Hst', Hc'. simpl. rewrite Hst, Hc.
      repeat split; lia.
    + rewrite (process_and_count_uncaught _ _ _ _ Hp He). simpl.
      unfold counted. rewrite Hst, Hc. split; [ repeat split; lia | discriminate ].
Qed.

(** While the appends work, one order moves the counters by one. *)
Lemma process_and_count_counted (Happ : appends_work) so s :
  counted 1 s (snd (process_and_count so s))
  /\ (fst (process_and_count so s) = Ok tt ->
      success (stats (snd (process_and_count so s)))
      + failed (stats (snd (process_and_count so s)))
      = success (stats s) + failed (stats s) + 1).
Proof.
  pose proof (coordinator_process so 0%Z s) as Hk.
  destruct (process_service_order so 0 s) as [[[|] | e] s1] eqn:Hp;
    simpl in Hk; apply coordinator_parts in Hk; destruct Hk as [Hst [Hc _]].
  - rewrite (process_and_count_success _ _ _ Hp). simpl.
    unfold counted. simpl. rewrite Hst, Hc. repeat split; lia.
  - destruct (failed_orders_append (trace s1) so) as [[] | e] eqn:Hw.
    + rewrite (process_and_count_failed _ _ _ Hp Hw). simpl.
      unfold counted. simpl. rewrite Hst, Hc. repeat split; lia.
    + rewrite (process_and_count_unwritten_uncaught _ _ _ _ Hp Hw (Happ _ _ _ Hw)).
      simpl. unfold counted. simpl. rewrite Hst, Hc.
      split; [ repeat split; lia | discriminate ].
  - destruct (is_Exception e) eqn:He.
    + rewrite (process_and_count_critical _ _ _ _ Hp He).
      match goal with
      | |- context [screenshot ?p ?f ?s0] =>
          pose proof (coordinator_parts _ _
                        (frame_coordinator _ (frame_screenshot p f) s0)) as Hshot
      end.
      destruct Hshot as [Hst' [Hc' _]].
      unfold counted. rewrite Hst', Hc'. simpl. rewrite Hst, Hc.
      repeat split; lia.
    + rewrite (process_and_count_uncaught _ _ _ _ Hp He). simpl.
      unfold counted. rewrite Hst, Hc. split; [ repeat split; lia | discriminate ].
Qed.


(** Lines 752-754: the return to the search page between two orders. *)
Lemma between_orders_keeps (i n : nat) :
  keeps coordinator (if (i <? n)%nat then return_to_search ;; ret tt else ret tt).
Proof.
  destruct (i <? n)%nat.
  - apply keeps_bind; [ apply frame_coordinator, frame_return_to_search | ].
    intros _. apply keeps_ret.
  - apply keeps_ret.
Qed.

(** One iteration of the loop, by the outcome of its parts. *)
Lemma process_orders_step n i so rest s :
  process_orders n i (so :: rest) s
  = match process_and_count so (with_log (log s ++ [ProcessingHeader i n so]) s) with
    | (Ok _, s1) =>
        match (if (i <? n)%nat then return_to_search ;; ret tt else ret tt) s1 with
        | (Ok _, s2) => process_orders n (S i) rest s2
        | (Raise e, s2) => (Raise e, s2)
        end
    | (Raise e, s1) => (Raise e, s1)
    end.
Proof. reflexivity. Qed.

(** While the appends work, the loop classifies each order at most once; when
    it runs to its end it has classified every order. *)
Lemma process_orders_counted (Happ : appends_work) n :
  forall rest i s,
    counted (length rest) s (snd (process_orders n i rest s))
    /\ (fst (process_orders n i rest s) = Ok tt ->
        success (stats (snd (process_orders n i rest s)))
        + failed (stats (snd (process_orders n i rest s)))
        = success (stats s) + failed (stats s) + length rest).
Proof.
  induction rest as [| so rest IH]; intros i s.
  - simpl. split; [ | lia ]. unfold counted. repeat split; lia.
  - rewrite process_orders_step. cbn [length].
    set (s0 := with_log (log s ++ [ProcessingHeader i n so]) s).
    assert (H0 : counted 0 s s0) by (unfold counted; simpl; repeat split; lia).
    destruct (process_and_count_counted Happ so s0) as [H1 H1ok].
    destruct (process_and_count so s0) as [[u | e] s1]; simpl in H1, H1ok.
    + pose proof (counted_keeps _ s1 (between_orders_keeps i n)) as H2.
      destruct ((if (i <? n)%nat then return_to_search ;; ret tt else ret tt) s1)
        as [[u' | e'] s2]; simpl in H2.
      * destruct (IH (S i) s2) as [H3 H3ok].
        pose proof (counted_trans _ _ _ _ _ (counted_trans _ _ _ _ _ H0 H1)
                      (counted_trans _ _ _ _ _ H2 H3)) as H.
        simpl in H. split; [ exact H | ].
        intros Hok. specialize (H3ok Hok). destruct u. specialize (H1ok eq_refl).
        unfold counted in H0, H2. simpl in H0. intuition lia.
      * pose proof (counted_trans _ _ _ _ _ (counted_trans _ _ _ _ _ H0 H1) H2) as H.
        simpl in H. split; [ | discriminate ].
        unfold counted in *. simpl. intuition lia.
    + pose proof (counted_trans _ _ _ _ _ H0 H1) as H. simpl in H.
      split; [ | discriminate ]. unfold counted in *. simpl. intuition lia.
Qed.

(** In general the loop moves the counters by at most two per order, and by
    at least one per order when it runs to its end. *)
Lemma process_orders_counted_twice n :
  forall rest i s,
    counted (2 * length rest) s (snd (process_orders n i rest s))
    /\ (fst (process_orders n i rest s) = Ok tt ->
        success (stats s) + failed (stats s) + length rest
        <= success (stats (snd (process_orders n i rest s)))
           + failed (stats (snd (process_orders n i rest s))))%nat.
Proof.
  induction rest as [| so rest IH]; intros i s.
  - simpl. split; [ | lia ]. unfold counted. repeat split; lia.
  - rewrite process_orders_step. cbn [length].
    set (s0 := with_log (log s ++ [ProcessingHeader i n so]) s).
    assert (H0 : counted 0 s s0) by (unfold counted; simpl; repeat split; lia).
    destruct (process_and_count_counted_twice so s0) as [H1 H1ok].
    destruct (process_and_count so s0) as [[u | e] s1]; simpl in H1, H1ok.
    + pose proof (counted_keeps _ s1 (between_orders_keeps i n)) as H2.
      destruct ((if (i <? n)%nat then return_to_search ;; ret tt else ret tt) s1)
        as [[u' | e'] s2]; simpl in H2.
      * destruct (IH (S i) s2) as [H3 H3ok].
        pose proof (counted_trans _ _ _ _ _ (counted_trans _ _ _ _ _ H0 H1)
                      (counted_trans _ _ _ _ _ H2 H3)) as H.
        split; [ eapply counted_le; [ | exact H ]; lia | ].
        intros Hok. specialize (H3ok Hok). destruct u. specialize (H1ok eq_refl).
        unfold counted in H0, H2. simpl in H0. intuition lia.
      * pose proof (counted_trans _ _ _ _ _ (counted_trans _ _ _ _ _ H0 H1) H2) as H.
        split; [ eapply counted_le; [ | exact H ]; lia | discriminate ].
    + pose proof (counted_trans _ _ _ _ _ H0 H1) as H.
      split; [ eapply counted_le; [ | exact H ]; lia | discriminate ].
Qed.

(** ** The failure log *)


Lemma log_screenshot p f : keeps log (screenshot p f).
Proof.
  apply keeps_bind; [ apply keeps_call; reflexivity
                    | intros _; apply keeps_modify; reflexivity ].
Qed.


(** ** The run as a whole *)

Lemma frame_observed {A : Type} (m : M A) : keeps frame m -> keeps observed m.
Proof.
  intros H s. specialize (H s). unfold frame, coordinator in H. unfold observed.
  inversion H. congruence.
Qed.

Lemma observed_log (m : msg) : is_attempt m = false -> keeps observed (log_ m).
Proof. intros H. apply frame_observed, frame_log, H. Qed.

Lemma observed_parts s s' :
  observed s' = observed s ->
  stats s' = stats s /\ cancelled s' = cancelled s
  /\ failed_orders_txt s' = failed_orders_txt s
  /\ attempts_logged s' = attempts_logged s.
Proof. unfold observed; intros H; inversion H; auto. Qed.

Ltac observed_tac :=
  keeps_with ltac:(first [ apply observed_log; reflexivity
                         | apply keeps_modify; reflexivity
                         | apply frame_observed; solve [ auto with frame_db ] ]).

Lemma observed_print_summary : keeps observed print_summary.
Proof. unfold print_summary. observed_tac. Qed.

Lemma run_automation_started s :
  run_automation s = finally run_body finalize (started s).
Proof. reflexivity. Qed.

(** With the start time set, the finalization goes through: it changes the
    end time, the summary and the log, and nothing else. *)
Lemma finalize_spec s b :
  start_time (stats s) = Some b ->
  fst (finalize s) = Ok tt
  /\ finalized (snd (finalize s))
  /\ stats (snd (finalize s)) = set_end_time (clock (trace s)) (stats s)
  /\ cancelled (snd (finalize s)) = cancelled s
  /\ failed_orders_txt (snd (finalize s)) = failed_orders_txt s
  /\ attempts_logged (snd (finalize s)) = attempts_logged s
  /\ trace (snd (finalize s)) = trace s.
Proof.
  intros Hb. unfold finalize, now, print_summary, bind, gets, update_stats, modify, log_.
  simpl. rewrite Hb.
  assert (Hin : forall (x : msg) l l', In x ((l ++ [x]) ++ l')).
  { intros x l l'. apply in_or_app. left. apply in_or_app. right. left. reflexivity. }
  destruct (0 <? total (stats s))%nat eqn:Htot; simpl.
  - split; [ reflexivity | split ].
    + exists b, (clock (trace s)). unfold summary_of. simpl. rewrite Hb, Htot.
      split; [ reflexivity | split; [ reflexivity | split; [ reflexivity | ] ] ].
      split; [ discriminate | apply Hin ].
    + unfold attempts_logged. simpl. rewrite !filter_app. simpl.
      rewrite !app_nil_r. repeat split; reflexivity.
  - split; [ reflexivity | split ].
    + exists b, (clock (trace s)). unfold summary_of. simpl. rewrite Hb, Htot.
      split; [ reflexivity | split; [ reflexivity | split; [ reflexivity | ] ] ].
      split; [ discriminate | ].
      apply in_or_app. right. left. reflexivity.
    + unfold attempts_logged. simpl. rewrite !filter_app. simpl.
      rewrite !app_nil_r. repeat split; reflexivity.
Qed.

Lemma frame_fixed {A : Type} (m : M A) : keeps frame m -> keeps fixed m.
Proof.
  intros H s. specialize (H s). unfold frame, coordinator in H. unfold fixed.
  inversion H. congruence.
Qed.

Lemma counted_fixed k s s' : counted k s s' -> fixed s' = fixed s.
Proof. unfold counted, fixed. intros H. intuition congruence. Qed.

Lemma fixed_process_orders n rest i : keeps fixed (process_orders n i rest).
Proof. intros s. eapply counted_fixed. apply process_orders_counted_twice. Qed.

Lemma fixed_print_summary : keeps fixed print_summary.
Proof.
  intros s. pose proof (observed_print_summary s) as H.
  apply observed_parts in H. unfold fixed. destruct H as [-> [-> _]]. reflexivity.
Qed.

Ltac fixed_tac :=
  keeps_with ltac:(first [ apply fixed_process_orders
                         | apply fixed_print_summary
                         | apply keeps_modify; reflexivity
                         | apply frame_fixed; solve [ auto with frame_db ]
                         | apply frame_fixed; apply frame_log; reflexivity ]).

Lemma fixed_load : keeps fixed load_service_orders.
Proof. unfold load_service_orders. fixed_tac. Qed.

Lemma fixed_session ids : keeps fixed (session ids).
Proof.
  unfold session.
  keeps_with ltac:(first [ apply fixed_process_orders
                         | apply fixed_print_summary
                         | apply frame_fixed, frame_login
                         | apply frame_fixed, frame_navigate
                         | apply frame_fixed; apply frame_log; reflexivity ]).
Qed.

Lemma fixed_guarded_session ids : keeps fixed (guarded_session ids).
Proof.
  unfold guarded_session.
  keeps_with ltac:(first [ apply fixed_session
                         | apply frame_fixed, frame_cleanup
                         | apply frame_fixed, frame_screenshot
                         | apply frame_fixed; apply frame_log; reflexivity ]).
Qed.

Lemma fixed_run_body : keeps fixed run_body.
Proof.
  unfold run_body.
  keeps_with ltac:(first [ apply fixed_guarded_session
                         | apply fixed_load
                         | apply frame_fixed, frame_setup_browser
                         | apply keeps_modify; reflexivity
                         | apply frame_fixed; apply frame_log; reflexivity ]).
Qed.

(** The run ends in the state that [finalize] produces from the state in
    which the body ended, and returns what the body returned. *)
Lemma run_automation_finalizes s :
  run_automation s
  = (fst (run_body (started s)), snd (finalize (snd (run_body (started s))))).
Proof.
  rewrite run_automation_started. unfold finally.
  pose proof (fixed_run_body (started s)) as Hfix.
  destruct (run_body (started s)) as [r s1]. simpl in *.
  assert (Hstart : start_time (stats s1) = Some (clock (trace s))).
  { unfold fixed in Hfix. inversion Hfix. reflexivity. }
  destruct (finalize_spec s1 _ Hstart) as [Hok _].
  destruct (finalize s1) as [[u | e] s2]; simpl in *; [ reflexivity | discriminate ].
Qed.

Lemma run_automation_finalized s : finalized (snd (run_automation s)).
Proof.
  rewrite run_automation_finalizes. simpl.
  pose proof (fixed_run_body (started s)) as Hfix.
  assert (Hstart : start_time (stats (snd (run_body (started s))))
                   = Some (clock (trace s))).
  { unfold fixed in Hfix. inversion Hfix. reflexivity. }
  apply (finalize_spec _ _ Hstart).
Qed.

(** C7.  Whatever happens in the body of a run (normal end, early return,
    an exception that the handlers catch, or one that propagates), the run
    ends finalized: the end time is set, the summary file holds the
    summary of the final statistics and the summary is logged; an
    exception that escapes the body still reaches the caller. *)
Theorem finalization_is_unconditional (s : state) :
  finalized (snd (run_automation s))
  /\ fst (run_automation s) = fst (run_body (started s)).
Proof.
  split; [ apply run_automation_finalized | ].
  rewrite run_automation_finalizes. reflexivity.
Qed.

(** *** The skipped counter *)

Lemma fixed_skipped {A : Type} (m : M A) : keeps fixed m -> keeps skipped_count m.
Proof.
  intros H s. specialize (H s). unfold fixed in H. unfold skipped_count.
  inversion H. reflexivity.
Qed.

Lemma skipped_finalize : keeps skipped_count finalize.
Proof.
  unfold finalize, now.
  keeps_with ltac:(first [ apply fixed_skipped, fixed_print_summary
                         | apply keeps_modify; reflexivity ]).
Qed.

Lemma skipped_run_automation : keeps skipped_count run_automation.
Proof.
  unfold run_automation, now.
  keeps_with ltac:(first [ apply fixed_skipped, fixed_run_body
                         | apply skipped_finalize
                         | apply keeps_modify; reflexivity ]).
Qed.

(** An order that is not attempted because of the flag is counted as failed:
    once while its append works, and a second time by the handler of the loop
    when the append raises an [Exception]. *)
Lemma cancelled_order_is_failed so s :
  cancelled s = true ->
  (failed (stats s) + 1 <= failed (stats (snd (process_and_count so s)))
   <= failed (stats s) + 2)%nat
  /\ ((forall e, failed_orders_append (trace s) so = Raise e -> is_Exception e = false) ->
      failed (stats (snd (process_and_count so s))) = (failed (stats s) + 1)%nat).
Proof.
  intros H.
  assert (Hp : process_service_order so 0 s = (Ok false, s)).
  { etransitivity; [ apply (f_equal (fun m => m s)), process_service_order_unfold | ].
    unfold bind, gets. rewrite H. reflexivity. }
  destruct (failed_orders_append (trace s) so) as [[] | e] eqn:Hw.
  - rewrite (process_and_count_failed _ _ _ Hp Hw). simpl.
    split; [ lia | reflexivity ].
  - destruct (is_Exception e) eqn:He.
    + rewrite (process_and_count_unwritten _ _ _ _ Hp Hw He).
      match goal with
      | |- context [screenshot ?p ?f ?s0] =>
          pose proof (coordinator_parts _ _
                        (frame_coordinator _ (frame_screenshot p f) s0)) as Hshot
      end.
      destruct Hshot as [Hst' _]. rewrite Hst'. simpl.
      split; [ lia | ]. intros Hno. specialize (Hno e eq_refl). congruence.
    + rewrite (process_and_count_unwritten_uncaught _ _ _ _ Hp Hw He). simpl.
      split; [ lia | reflexivity ].
Qed.

(** An order whose processing raises is counted as failed when the exception
    is caught, and is not counted when it is not. *)
Lemma errored_order_is_failed_or_uncounted so s e s1 :
  process_service_order so 0 s = (Raise e, s1) ->
  (is_Exception e = true ->
   failed (stats (snd (process_and_count so s))) = (failed (stats s) + 1)%nat
   /\ success (stats (snd (process_and_count so s))) = success (stats s))
  /\ (is_Exception e = false -> stats (snd (process_and_count so s)) = stats s).
Proof.
  intros Hp.
  pose proof (coordinator_process so 0%Z s) as Hk. rewrite Hp in Hk.
  apply coordinator_parts in Hk. destruct Hk as [Hst _]. simpl in Hst.
  split; intros He.
  - rewrite (process_and_count_critical _ _ _ _ Hp He).
    match goal with
    | |- context [screenshot ?p ?f ?s0] =>
        pose proof (coordinator_parts _ _
                      (frame_coordinator _ (frame_screenshot p f) s0)) as Hshot
    end.
    destruct Hshot as [Hst' _]. rewrite Hst'. simpl. rewrite Hst. auto.
  - rewrite (process_and_count_uncaught _ _ _ _ Hp He). exact Hst.
Qed.

(** C10.  No operation of a run changes the skipped counter: not the
    pipeline, not the classification of an order, not the loop, the session
    or the finalization.  An order that is cancelled or whose processing
    raises is counted as failed (a cancelled order twice when its append to
    the failure log raises an [Exception]), or not counted at all.  A run of
    a fresh object ends with [skipped = 0], and the logged summary shows
    0. *)
Theorem skipped_is_never_incremented :
  skipped initial_stats = 0%nat
  /\ (forall so rc, keeps skipped_count (process_service_order so rc))
  /\ (forall so, keeps skipped_count (process_and_count so))
  /\ (forall n i rest, keeps skipped_count (process_orders n i rest))
  /\ keeps skipped_count return_to_search
  /\ (forall ids, keeps skipped_count (session ids))
  /\ keeps skipped_count run_body
  /\ keeps skipped_count finalize
  /\ keeps skipped_count run_automation
  /\ (forall so s,
         cancelled s = true ->
         (failed (stats s) + 1 <= failed (stats (snd (process_and_count so s)))
          <= failed (stats s) + 2)%nat
         /\ ((forall e, failed_orders_append (trace s) so = Raise e ->
                        is_Exception e = false) ->
             failed (stats (snd (process_and_count so s))) = (failed (stats s) + 1)%nat))
  /\ (forall so s e s1,
         process_service_order so 0 s = (Raise e, s1) ->
         (is_Exception e = true ->
          failed (stats (snd (process_and_count so s))) = (failed (stats s) + 1)%nat)
         /\ (is_Exception e = false -> stats (snd (process_and_count so s)) = stats s))
  /\ (forall flag old,
         skipped (stats (snd (run_automation (initial_state flag old)))) = 0%nat
         /\ exists t ok ko d,
             In (Summary t ok ko 0 d)
                (log (snd (run_automation (initial_state flag old))))).
Proof.
  split; [ reflexivity | ].
  split.
  { intros so rc s. pose proof (coordinator_process so rc s) as H.
    apply coordinator_parts in H. unfold skipped_count. destruct H as [-> _].
    reflexivity. }
  split.
  { intros so s. destruct (process_and_count_counted_twice so s) as [H _].
    unfold counted in H. unfold skipped_count. tauto. }
  split; [ intros n i rest; apply fixed_skipped, fixed_process_orders | ].
  split; [ apply fixed_skipped, frame_fixed, frame_return_to_search | ].
  split; [ intros ids; apply fixed_skipped, fixed_session | ].
  split; [ apply fixed_skipped, fixed_run_body | ].
  split; [ apply skipped_finalize | ].
  split; [ apply skipped_run_automation | ].
  split; [ apply cancelled_order_is_failed | ].
  split.
  { intros so s e s1 Hp.
    destruct (errored_order_is_failed_or_uncounted so s e s1 Hp) as [H1 H2].
    split; [ intros He; apply (H1 He) | exact H2 ]. }
  intros flag old.
  pose proof (skipped_run_automation (initial_state flag old)) as Hk.
  unfold skipped_count in Hk. simpl in Hk. split; [ exact Hk | ].
  destruct (run_automation_finalized (initial_state flag old))
    as [b [e [_ [_ [_ [_ Hin]]]]]].
  rewrite Hk in Hin. eauto.
Qed.

(** *** From the body of the run to the session *)

Lemma cleanup_returns s : fst (cleanup s) = Ok tt.
Proof.
  unfold cleanup, except_any, try_except, bind, call_, ret.
  destruct (env unit (trace s) BrowserClose); simpl;
    match goal with
    | |- context [env unit ?t PlaywrightStop] =>
        destruct (env unit t PlaywrightStop) as [[] | e']
    end; reflexivity.
Qed.

Lemma cleanup_trace s :
  trace (snd (cleanup s)) = trace s ++ [Ev BrowserClose; Ev PlaywrightStop].
Proof.
  unfold cleanup, except_any, try_except, bind, call_, ret.
  destruct (env unit (trace s) BrowserClose); simpl;
    match goal with
    | |- context [env unit ?t PlaywrightStop] => destruct (env unit t PlaywrightStop)
    end; simpl; rewrite <- app_assoc; reflexivity.
Qed.

(** The handler and the cleanup around the session change nothing that the
    coordinator observes. *)
Lemma guarded_session_observed ids s :
  observed (snd (guarded_session ids s)) = observed (snd (session ids s)).
Proof.
  unfold guarded_session, finally, except_Exception, try_except.
  destruct (session ids s) as [[u | e] s1]; simpl.
  - pose proof (frame_observed _ frame_cleanup s1) as Hc.
    destruct (cleanup s1) as [[u' | e'] s2]; exact Hc.
  - destruct (is_Exception e).
    + match goal with
      | |- context [bind ?m ?k s1] =>
          assert (Hh : keeps observed (bind m k))
      end.
      { observed_tac. }
      specialize (Hh s1).
      match goal with
      | |- context [bind ?m ?k s1] => destruct (bind m k s1) as [r s2]
      end.
      pose proof (frame_observed _ frame_cleanup s2) as Hc.
      destruct (cleanup s2) as [[u' | e'] s3]; simpl in *; congruence.
    + pose proof (frame_observed _ frame_cleanup s1) as Hc.
      destruct (cleanup s1) as [[u' | e'] s2]; exact Hc.
Qed.

(** When the session returns, so does the guarded session, after the two
    calls of the cleanup. *)
Lemma guarded_session_returns ids s u s1 :
  session ids s = (Ok u, s1) ->
  fst (guarded_session ids s) = Ok tt
  /\ trace (snd (guarded_session ids s))
     = trace s1 ++ [Ev BrowserClose; Ev PlaywrightStop].
Proof.
  intros H. unfold guarded_session, finally, except_Exception.
  rewrite (try_ok _ _ _ _ _ _ H).
  pose proof (cleanup_returns s1) as Hr. pose proof (cleanup_trace s1) as Ht.
  destruct (cleanup s1) as [[u' | e'] s2]; simpl in *; [ | discriminate ].
  destruct u. auto.
Qed.

(** With a non-empty column, loading succeeds, and the body of the run is
    the browser setup and the guarded session under the outer handler. *)
Lemma run_body_loaded ids s :
  excel_column = Ok ids -> ids <> [] ->
  run_body s
  = except_Exception (setup_browser ;; guarded_session ids)
      (fun e => log_ (SetupFailed e)) (loaded ids s).
Proof.
  intros Hx Hne. unfold run_body, load_service_orders. rewrite Hx.
  destruct ids as [| so ids]; [ congruence | ]. reflexivity.
Qed.

(** The prologue succeeds only with a non-empty column and a browser. *)
Lemma run_prologue_inv s ids s2 :
  run_prologue s = (Ok ids, s2) ->
  excel_column = Ok ids /\ ids <> []
  /\ setup_browser (loaded ids (started s)) = (Ok tt, s2).
Proof.
  unfold run_prologue. intros H.
  apply bind_ok_inv in H. destruct H as [t [sa [Hnow H]]].
  unfold now, gets in Hnow. inversion Hnow; subst t sa; clear Hnow.
  apply bind_ok_inv in H. destruct H as [u [sb [Hupd H]]].
  unfold update_stats, modify in Hupd. inversion Hupd; subst sb; clear Hupd.
  fold (started s) in H.
  apply bind_ok_inv in H. destruct H as [l [sc [Hload H]]].
  apply bind_ok_inv in H. destruct H as [u' [sd [Hset H]]].
  unfold update_stats, modify in Hset. inversion Hset; subst sd; clear Hset.
  apply bind_ok_inv in H. destruct H as [u'' [se [Hsetup H]]].
  inversion H; subst l se; clear H.
  unfold load_service_orders, except_Exception, try_except in Hload.
  destruct excel_column as [[| so l] | e].
  - simpl in Hload. discriminate.
  - unfold bind, log_, modify, ret in Hload. simpl in Hload.
    inversion Hload; subst ids sc; clear Hload.
    destruct u''.
    split; [ reflexivity | split; [ discriminate | exact Hsetup ] ].
  - simpl in Hload. destruct (is_Exception e); discriminate.
Qed.

(** The state in which the prologue hands over to the login. *)
Lemma run_prologue_state s ids s2 :
  run_prologue s = (Ok ids, s2) ->
  stats s2 = set_total (length ids) (set_start_time (clock (trace s)) (stats s))
  /\ cancelled s2 = cancelled s
  /\ failed_orders_txt s2 = failed_orders_txt s
  /\ attempts_logged s2 = attempts_logged s.
Proof.
  intros H. apply run_prologue_inv in H. destruct H as [_ [_ Hsetup]].
  pose proof (frame_observed _ frame_setup_browser (loaded ids (started s))) as Hk.
  rewrite Hsetup in Hk. apply observed_parts in Hk.
  destruct Hk as [Hst [Hc [Hf Ha]]]. simpl in *.
  rewrite Hst, Hc, Hf, Ha. unfold attempts_logged. simpl.
  rewrite filter_app. simpl. rewrite app_nil_r. auto.
Qed.

(** After the prologue, the body of the run ends as the session ends, up to
    what the handlers and the cleanup log and call. *)
Lemma run_body_after_prologue s ids s2 :
  run_prologue s = (Ok ids, s2) ->
  observed (snd (run_body (started s))) = observed (snd (session ids s2))
  /\ (forall u s3,
         session ids s2 = (Ok u, s3) ->
         fst (run_body (started s)) = Ok tt
         /\ trace (snd (run_body (started s)))
            = trace s3 ++ [Ev BrowserClose; Ev PlaywrightStop]).
Proof.
  intros H. apply run_prologue_inv in H. destruct H as [Hx [Hne Hsetup]].
  rewrite (run_body_loaded ids _ Hx Hne). unfold except_Exception, try_except.
  rewrite (bind_ok _ _ _ _ _ Hsetup).
  pose proof (guarded_session_observed ids s2) as Hobs.
  split.
  - destruct (guarded_session ids s2) as [[u | e] s3]; simpl in *; [ exact Hobs | ].
    destruct (is_Exception e); simpl; [ | exact Hobs ].
    rewrite <- Hobs. apply (observed_log (SetupFailed e) eq_refl s3).
  - intros u s3 Hs. destruct (guarded_session_returns ids s2 u s3 Hs) as [Hr Ht].
    destruct (guarded_session ids s2) as [[u' | e] s4]; simpl in *;
      [ | discriminate ].
    auto.
Qed.

(** The statistics of a run: those of the end of its body, with the end
    time set. *)
Lemma run_automation_observed s :
  stats (snd (run_automation s))
  = set_end_time (clock (trace (snd (run_body (started s)))))
      (stats (snd (run_body (started s))))
  /\ cancelled (snd (run_automation s)) = cancelled (snd (run_body (started s)))
  /\ failed_orders_txt (snd (run_automation s))
     = failed_orders_txt (snd (run_body (started s)))
  /\ attempts_logged (snd (run_automation s))
     = attempts_logged (snd (run_body (started s)))
  /\ trace (snd (run_automation s)) = trace (snd (run_body (started s))).
Proof.
  rewrite run_automation_finalizes. simpl.
  pose proof (fixed_run_body (started s)) as Hfix.
  assert (Hstart : start_time (stats (snd (run_body (started s))))
                   = Some (clock (trace s))).
  { unfold fixed in Hfix. inversion Hfix. reflexivity. }
  destruct (finalize_spec _ _ Hstart) as [_ [_ H]]. exact H.
Qed.

(** *** A run whose login fails *)

Lemma session_login_failed ids s s1 :
  login s = (Ok false, s1) ->
  session ids s = (Ok tt, with_log (log s1 ++ [LoginFailedExiting]) s1).
Proof. intros H. unfold session. rewrite (bind_ok _ _ _ _ _ H). reflexivity. Qed.

(** The login succeeds only through an attempt that succeeds: when none of
    the attempts returns True, neither does the login. *)
Lemma login_loop_needs_an_attempt (user pass : string) :
  (forall a s, fst (login_attempt a user pass s) <> Ok true) ->
  forall attempts s, fst (login_loop attempts user pass s) <> Ok true.
Proof.
  intros Hnone. induction attempts as [| a rest IH]; intros s.
  - cbn [login_loop]. unfold bind, log_, modify, screenshot, bind, call_.
    simpl. destruct (env unit _ _); simpl; discriminate.
  - cbn [login_loop]. specialize (Hnone a s). unfold bind.
    destruct (login_attempt a user pass s) as [[[|] | e] s1]; simpl in *.
    + congruence.
    + apply IH.
    + discriminate.
Qed.

Lemma login_needs_an_attempt :
  (forall a user pass s, fst (login_attempt a user pass s) <> Ok true) ->
  forall s, fst (login s) <> Ok true.
Proof.
  intros Hnone s Habs. unfold login, except_Exception, try_except in Habs.
  match type of Habs with
  | context [bind (log_ LoggingIn) ?k s] =>
      destruct (bind (log_ LoggingIn) k s) as [[b | e] s1] eqn:Hbody
  end.
  - simpl in Habs. inversion Habs; subst b; clear Habs.
    apply bind_ok_inv in Hbody. destruct Hbody as [u0 [sa [_ H]]].
    apply bind_ok_inv in H. destruct H as [url [sb [_ H]]].
    apply bind_ok_inv in H. destruct H as [user [sc [_ H]]].
    apply bind_ok_inv in H. destruct H as [pass [sd [_ H]]].
    apply bind_ok_inv in H. destruct H as [u1 [se [_ H]]].
    apply bind_ok_inv in H. destruct H as [u2 [sf [_ H]]].
    apply bind_ok_inv in H. destruct H as [u3 [sg [_ H]]].
    apply (login_loop_needs_an_attempt user pass (fun a s0 => Hnone a user pass s0)
             (Py.range (Z.to_nat max_attempts)) sg).
    rewrite H. reflexivity.
  - destruct (is_Exception e); [ | discriminate ].
    unfold bind, log_, modify, screenshot, bind, call_, add_file, modify, ret in Habs.
    cbn [fst snd] in Habs.
    match type of Habs with
    | context [env unit ?t ?c] => destruct (env unit t c)
    end; discriminate.
Qed.

(** The session of a login that does not succeed changes nothing that the
    coordinator observes. *)
Lemma session_without_login ids s :
  fst (login s) <> Ok true ->
  observed (snd (session ids s)) = observed s.
Proof.
  intros Hfail. unfold session.
  pose proof (frame_observed _ frame_login s) as Hk.
  destruct (login s) as [[[|] | e] s1] eqn:Hlogin; simpl in Hfail, Hk.
  - congruence.
  - rewrite (bind_ok _ _ _ _ _ Hlogin). cbn [negb].
    rewrite <- Hk. apply (observed_log LoginFailedExiting eq_refl s1).
  - rewrite (bind_raise _ _ _ _ _ Hlogin). exact Hk.
Qed.

(** C6, amended.  When the login does not succeed, the run ends there: no
    order is attempted, nothing is added to the failure log, the statistics
    show [total = len(ids)] with no success and no failure, and the summary
    is finalized.  When the login returns False, as it does after its three
    attempts, no error reaches the caller: the only calls after the login
    are the two calls of the cleanup, and [run_automation] returns
    normally. *)
Theorem login_failure_ends_the_run (s : state) (ids : list string) (s2 : state) :
  stats s = initial_stats ->
  run_prologue s = (Ok ids, s2) ->
  fst (login s2) <> Ok true ->
  (total (stats (snd (run_automation s))) = length ids
   /\ success (stats (snd (run_automation s))) = 0%nat
   /\ failed (stats (snd (run_automation s))) = 0%nat
   /\ attempts_logged (snd (run_automation s)) = attempts_logged s
   /\ failed_orders_txt (snd (run_automation s)) = failed_orders_txt s
   /\ finalized (snd (run_automation s)))
  /\ (forall s3,
         login s2 = (Ok false, s3) ->
         fst (run_automation s) = Ok tt
         /\ trace (snd (run_automation s))
            = trace s3 ++ [Ev BrowserClose; Ev PlaywrightStop]).
Proof.
  intros Hinit Hpro Hfail.
  destruct (run_body_after_prologue _ _ _ Hpro) as [Hobs Hret].
  destruct (run_automation_observed s) as [Rst [Rc [Rf [Ra Rt]]]].
  split.
  - rewrite (session_without_login ids s2 Hfail) in Hobs.
    apply observed_parts in Hobs. destruct Hobs as [Hst [Hc [Hf Ha]]].
    destruct (run_prologue_state _ _ _ Hpro) as [Hst2 [Hc2 [Hf2 Ha2]]].
    rewrite Rst, Ra, Rf, Hst, Hst2, Hinit, Ha, Ha2, Hf, Hf2. simpl.
    repeat split; auto using run_automation_finalized.
  - intros s3 Hlogin.
    destruct (Hret _ _ (session_login_failed ids _ _ Hlogin)) as [Hok Htrace].
    rewrite run_automation_finalizes at 1. simpl fst.
    rewrite Rt, Htrace. auto.
Qed.

(** *** A run that reaches the end of its loop *)

(** While the appends work, the session classifies each order at most once. *)
Lemma session_counted (Happ : appends_work) ids s :
  counted (length ids) s (snd (session ids s)).
Proof.
  unfold session.
  pose proof (counted_keeps _ s (frame_coordinator _ frame_login)) as H1.
  destruct (bind_cases login
              (fun ok => if negb ok then log_ LoginFailedExiting
                         else
                           nav <- navigate_to_job_search ;;
                           if negb nav then log_ NavigationFailedExiting
                           else process_orders (length ids) 1 ids ;; print_summary) s)
    as [[ok [s1 [Hm Hb]]] | [e [s1 [Hm Hb]]]]; rewrite Hb; rewrite Hm in H1;
    simpl in H1; clear Hb Hm.
  2: { unfold counted in *. simpl. intuition lia. }
  destruct ok; cbv beta; cbn [negb]; cbv iota.
  2: { pose proof (counted_keeps _ s1 (coordinator_log LoginFailedExiting)) as H2.
       pose proof (counted_trans _ _ _ _ _ H1 H2) as H.
       unfold counted in *. intuition (try congruence; try lia). }
  pose proof (counted_keeps _ s1 (frame_coordinator _ frame_navigate)) as H2.
  destruct (bind_cases navigate_to_job_search
              (fun nav => if negb nav then log_ NavigationFailedExiting
                          else process_orders (length ids) 1 ids ;; print_summary) s1)
    as [[nav [s2 [Hm Hb]]] | [e [s2 [Hm Hb]]]]; rewrite Hb; rewrite Hm in H2;
    simpl in H2; clear Hb Hm;
    pose proof (counted_trans _ _ _ _ _ H1 H2) as H12; simpl in H12.
  2: { unfold counted in *. simpl. intuition lia. }
  destruct nav; cbv beta; cbn [negb]; cbv iota.
  2: { pose proof (counted_keeps _ s2 (coordinator_log NavigationFailedExiting)) as H3.
       pose proof (counted_trans _ _ _ _ _ H12 H3) as H.
       unfold counted in *. intuition (try congruence; try lia). }
  destruct (process_orders_counted Happ (length ids) ids 1 s2) as [H3 _].
  destruct (bind_cases (process_orders (length ids) 1 ids) (fun _ => print_summary) s2)
    as [[u [s3 [Hm Hb]]] | [e [s3 [Hm Hb]]]]; rewrite Hb; rewrite Hm in H3;
    simpl in H3; clear Hb Hm;
    pose proof (counted_trans _ _ _ _ _ H12 H3) as H123; simpl in H123.
  2: { exact H123. }
  pose proof (observed_print_summary s3) as H4. apply observed_parts in H4.
  destruct H4 as [Hst [Hc _]]. unfold counted in *. rewrite Hst, Hc. exact H123.
Qed.

(** In general the session moves the counters by at most two per order. *)
Lemma session_counted_twice ids s :
  counted (2 * length ids) s (snd (session ids s)).
Proof.
  unfold session.
  pose proof (counted_keeps _ s (frame_coordinator _ frame_login)) as H1.
  destruct (bind_cases login
              (fun ok => if negb ok then log_ LoginFailedExiting
                         else
                           nav <- navigate_to_job_search ;;
                           if negb nav then log_ NavigationFailedExiting
                           else process_orders (length ids) 1 ids ;; print_summary) s)
    as [[ok [s1 [Hm Hb]]] | [e [s1 [Hm Hb]]]]; rewrite Hb; rewrite Hm in H1;
    simpl in H1; clear Hb Hm.
  2: { unfold counted in *. simpl. intuition lia. }
  destruct ok; cbv beta; cbn [negb]; cbv iota.
  2: { pose proof (counted_keeps _ s1 (coordinator_log LoginFailedExiting)) as H2.
       pose proof (counted_trans _ _ _ _ _ H1 H2) as H.
       unfold counted in *. intuition (try congruence; try lia). }
  pose proof (counted_keeps _ s1 (frame_coordinator _ frame_navigate)) as H2.
  destruct (bind_cases navigate_to_job_search
              (fun nav => if negb nav then log_ NavigationFailedExiting
                          else process_orders (length ids) 1 ids ;; print_summary) s1)
    as [[nav [s2 [Hm Hb]]] | [e [s2 [Hm Hb]]]]; rewrite Hb; rewrite Hm in H2;
    simpl in H2; clear Hb Hm;
    pose proof (counted_trans _ _ _ _ _ H1 H2) as H12; simpl in H12.
  2: { unfold counted in *. simpl. intuition lia. }
  destruct nav; cbv beta; cbn [negb]; cbv iota.
  2: { pose proof (counted_keeps _ s2 (coordinator_log NavigationFailedExiting)) as H3.
       pose proof (counted_trans _ _ _ _ _ H12 H3) as H.
       unfold counted in *. intuition (try congruence; try lia). }
  destruct (process_orders_counted_twice (length ids) ids 1 s2) as [H3 _].
  destruct (bind_cases (process_orders (length ids) 1 ids) (fun _ => print_summary) s2)
    as [[u [s3 [Hm Hb]]] | [e [s3 [Hm Hb]]]]; rewrite Hb; rewrite Hm in H3;
    simpl in H3; clear Hb Hm;
    pose proof (counted_trans _ _ _ _ _ H12 H3) as H123; simpl in H123.
  2: { exact H123. }
  pose proof (observed_print_summary s3) as H4. apply observed_parts in H4.
  destruct H4 as [Hst [Hc _]]. unfold counted in *. rewrite Hst, Hc. exact H123.
Qed.

(** The session that gets through its loop. *)
Lemma session_completed ids s s1 s2 s3 :
  login s = (Ok true, s1) ->
  navigate_to_job_search s1 = (Ok true, s2) ->
  process_orders (length ids) 1 ids s2 = (Ok tt, s3) ->
  session ids s = print_summary s3.
Proof.
  intros H1 H2 H3. unfold session.
  rewrite (bind_ok _ _ _ _ _ H1). simpl.
  rewrite (bind_ok _ _ _ _ _ H2). simpl.
  rewrite (bind_ok _ _ _ _ _ H3). reflexivity.
Qed.



(** *** A run under cancellation *)



(** What the loop does around the pipeline makes no call of a step. *)
Lemma steps_call {T : Type} (c : call T) :
  is_step_call (Ev c) = false -> keeps step_calls (call_ c).
Proof.
  intros H. apply keeps_call. intros s. unfold step_calls. simpl.
  rewrite filter_app. simpl. rewrite H. apply app_nil_r.
Qed.


















(** Either the browser comes up and the prologue succeeds, or its setup
    raises and the body of the run ends with the identifiers loaded and
    nothing else changed. *)
Lemma run_prologue_cases ids s :
  excel_column = Ok ids -> ids <> [] ->
  (exists s2, run_prologue s = (Ok ids, s2))
  \/ observed (snd (run_body (started s))) = observed (loaded ids (started s)).
Proof.
  intros Hx Hne.
  pose proof (frame_observed _ frame_setup_browser (loaded ids (started s))) as K.
  destruct (setup_browser (loaded ids (started s))) as [[[] | e] s2] eqn:Hsetup;
    simpl in K.
  - left. exists s2. unfold run_prologue, now, update_stats, modify, gets.
    unfold bind at 1. unfold bind at 1. fold (started s).
    unfold load_service_orders. rewrite Hx.
    destruct ids as [| so ids]; [ congruence | ].
    unfold except_Exception, try_except. unfold bind at 1. simpl.
    unfold bind at 1. simpl.
    change (with_stats _ _) with (loaded (so :: ids) (started s)).
    rewrite (bind_ok _ _ _ _ _ Hsetup). reflexivity.
  - right. rewrite (run_body_loaded ids _ Hx Hne).
    unfold except_Exception, try_except. rewrite (bind_raise _ _ _ _ _ Hsetup).
    destruct (is_Exception e); simpl; [ | exact K ].
    rewrite <- K. apply (observed_log (SetupFailed e) eq_refl s2).
Qed.


(** ** Failures that are reported as values *)

Lemma no_Exception_ret {A : Type} (a : A) : no_Exception (ret a).
Proof. intros s e H. discriminate. Qed.

Lemma no_Exception_gets {A : Type} (f : state -> A) : no_Exception (gets f).
Proof. intros s e H. discriminate. Qed.

Lemma no_Exception_log (m : msg) : no_Exception (log_ m).
Proof. intros s e H. discriminate. Qed.

Lemma no_Exception_bind {A B : Type} (m : M A) (k : A -> M B) :
  no_Exception m -> (forall a, no_Exception (k a)) -> no_Exception (bind m k).
Proof.
  intros Hm Hk s e. unfold bind. specialize (Hm s).
  destruct (m s) as [[a | e'] s1]; simpl in *.
  - apply Hk.
  - intros H. inversion H; subst. apply Hm. reflexivity.
Qed.

(** A handler that does not raise makes the whole [try] safe, whatever the
    body does. *)
Lemma no_Exception_except_Exception {A : Type} (m : M A) (h : exn -> M A) :
  (forall e, no_Exception (h e)) -> no_Exception (except_Exception m h).
Proof.
  intros Hh s e. unfold except_Exception, try_except.
  destruct (m s) as [[a | e'] s1]; simpl; [ discriminate | ].
  destruct (is_Exception e') eqn:He.
  - apply Hh.
  - simpl. intros H. inversion H; subst. exact He.
Qed.

Lemma no_Exception_except_any {A : Type} (m h : M A) :
  no_Exception h -> no_Exception (except_any m h).
Proof.
  intros Hh s e. unfold except_any, try_except.
  destruct (m s) as [[a | e'] s1]; simpl; [ discriminate | apply Hh ].
Qed.

Ltac no_Exception_step :=
  lazymatch goal with
  | |- no_Exception (ret _) => apply no_Exception_ret
  | |- no_Exception (gets _) => apply no_Exception_gets
  | |- no_Exception (log_ _) => apply no_Exception_log
  | |- no_Exception (bind _ _) => apply no_Exception_bind; [ | intros ? ]
  | |- no_Exception (except_Exception _ _) =>
      apply no_Exception_except_Exception; intros ?
  | |- no_Exception (except_any _ _) => apply no_Exception_except_any
  | |- no_Exception (match ?x with _ => _ end) => destruct x
  end.

Ltac no_Exception_with leaf := repeat first [ leaf | no_Exception_step ].

Lemma no_Exception_search so : no_Exception (search_service_order so).
Proof. unfold search_service_order. no_Exception_with fail. Qed.

Lemma no_Exception_new_tab so : no_Exception (save_invoice_image_new_tab so).
Proof. unfold save_invoice_image_new_tab. no_Exception_with fail. Qed.

(** X1.  The steps that wrap all their work in [try ... except Exception] with a
    handler that only logs report every ordinary failure as a value: the
    login check, the verification and the search, the lookup of the view
    button and the new-tab capture never raise an [Exception]. *)
Theorem failures_are_reported_as_values :
  no_Exception is_logged_in
  /\ (forall so, no_Exception (verify_search_results so))
  /\ (forall so, no_Exception (search_service_order so))
  /\ (forall so, no_Exception (find_eye_button_for_so so))
  /\ (forall so, no_Exception (save_invoice_image_new_tab so)).
Proof.
  split; [ unfold is_logged_in; no_Exception_with fail | ].
  split; [ intros so; unfold verify_search_results; no_Exception_with fail | ].
  split; [ apply no_Exception_search | ].
  split; [ intros so; unfold find_eye_button_for_so; no_Exception_with fail | ].
  apply no_Exception_new_tab.
Qed.

(** *** Retries need a failing diagnostic screenshot *)

Section WorkingScreenshots.

(** The page screenshots, which the handlers take as diagnostics, do not
    fail with an ordinary error. *)
Hypothesis screenshots_work :
  forall t p f e, env unit t (Screenshot p f) = Raise e -> is_Exception e = false.

Lemma no_Exception_screenshot p f : no_Exception (screenshot p f).
Proof.
  intros s e. unfold screenshot, bind, call_, add_file, modify.
  destruct (env unit (trace s) (Screenshot p f)) as [u | e'] eqn:Hshot; simpl.
  - discriminate.
  - intros H. inversion H; subst. eapply screenshots_work. exact Hshot.
Qed.

Lemma no_Exception_open_details so : no_Exception (open_service_order_details so).
Proof.
  unfold open_service_order_details.
  no_Exception_with ltac:(apply no_Exception_screenshot).
Qed.

Lemma no_Exception_find_and_save so : no_Exception (find_and_save_invoice_image so).
Proof.
  unfold find_and_save_invoice_image.
  no_Exception_with ltac:(apply no_Exception_screenshot).
Qed.

Lemma no_Exception_attempt_steps so rc : no_Exception (attempt_steps so rc).
Proof.
  unfold attempt_steps.
  no_Exception_with ltac:(first [ apply no_Exception_search
                               | apply no_Exception_open_details
                               | apply no_Exception_find_and_save ]).
Qed.

(** X2.  As long as the diagnostic screenshots work, nothing that [except
    Exception] catches escapes the steps of an order, so the retry branch is
    never taken: with the flag unset, processing an order is one run of its
    steps, whatever [max_retries] is. *)
Theorem no_retry_while_screenshots_work (so_number : string) (retry_count : Z) (s : state) :
  cancelled s = false ->
  process_service_order so_number retry_count s = attempt_steps so_number retry_count s
  /\ attempts_logged (snd (process_service_order so_number retry_count s))
     = attempts_logged s
       ++ [ProcessingSO so_number (retry_count + 1) (get_max_retries cfg)].
Proof.
  intros Hflag.
  assert (Heq : process_service_order so_number retry_count s
                = attempt_steps so_number retry_count s).
  { etransitivity; [ apply (f_equal (fun m => m s)), process_service_order_unfold | ].
    unfold bind at 1, gets. rewrite Hflag. unfold except_Exception, try_except.
    pose proof (no_Exception_attempt_steps so_number retry_count s) as Hne.
    destruct (attempt_steps so_number retry_count s) as [[b | e] s1]; [ reflexivity | ].
    rewrite (Hne e eq_refl). reflexivity. }
  split; [ exact Heq | ].
  rewrite Heq. apply attempt_steps_logs_one.
Qed.

End WorkingScreenshots.

(** ** A success leaves the invoice on disk *)

Lemma new_tab_writes so s s' :
  save_invoice_image_new_tab so s = (Ok true, s') -> In (png so) (files s').
Proof.
  unfold save_invoice_image_new_tab, except_Exception, try_except. intros H.
  match type of H with
  | context [bind ?m ?k s] => destruct (bind m k s) as [[b | e] s1] eqn:Hbody
  end.
  2: { destruct (is_Exception e); [ | discriminate ].
       unfold bind, log_, modify, ret in H. simpl in H. discriminate. }
  inversion H; subst b s1; clear H.
  apply bind_ok_inv in Hbody. destruct Hbody as [link [sa [_ H]]].
  destruct link as [link |].
  2: { unfold bind, log_, modify, ret in H. simpl in H. discriminate. }
  apply bind_ok_inv in H. destruct H as [u1 [sb [_ H]]].
  apply bind_ok_inv in H. destruct H as [new_page [sc [_ H]]].
  apply bind_ok_inv in H. destruct H as [u2 [sd [_ H]]].
  apply bind_ok_inv in H. destruct H as [u3 [se [_ H]]].
  apply bind_ok_inv in H. destruct H as [u4 [sf [Hshot H]]].
  apply bind_ok_inv in H. destruct H as [u5 [sg [Hlog H]]].
  apply bind_ok_inv in H. destruct H as [u6 [sh [Hclose H]]].
  inversion H; subst; clear H.
  unfold screenshot in Hshot. apply bind_ok_inv in Hshot.
  destruct Hshot as [u7 [si [_ Hadd]]].
  inversion Hadd; subst; clear Hadd.
  inversion Hlog; subst; clear Hlog.
  unfold call_ in Hclose. inversion Hclose; subst; clear Hclose.
  simpl. apply in_or_app. right. left. reflexivity.
Qed.

Lemma region_screenshot_writes so s s' :
  region_screenshot so s = (Ok true, s') -> In (png so) (files s').
Proof.
  unfold region_screenshot. intros H.
  apply bind_ok_inv in H. destruct H as [el [sa [_ H]]].
  destruct el as [el |].
  2: { unfold bind, log_, modify, ret in H. simpl in H. discriminate. }
  apply bind_ok_inv in H. destruct H as [u1 [sb [Hshot H]]].
  apply bind_ok_inv in H. destruct H as [u2 [sc [Hlog H]]].
  inversion H; subst; clear H.
  unfold elem_screenshot in Hshot. apply bind_ok_inv in Hshot.
  destruct Hshot as [u3 [sd [_ Hadd]]].
  inversion Hadd; subst; clear Hadd.
  inversion Hlog; subst; clear Hlog.
  simpl. apply in_or_app. right. left. reflexivity.
Qed.

Lemma find_and_save_writes so s s' :
  find_and_save_invoice_image so s = (Ok true, s') -> artifact_exists so s'.
Proof.
  unfold find_and_save_invoice_image, except_Exception, try_except. intros H.
  match type of H with
  | context [bind ?m ?k s] => destruct (bind m k s) as [[b | e] s1] eqn:Hbody
  end.
  2: { destruct (is_Exception e); [ | discriminate ].
       unfold bind in H.
       match type of H with
       | context [log_ ?m s1] => destruct (log_ m s1) as [[u | e'] s2]
       end; [ | discriminate ].
       match type of H with
       | context [screenshot ?p ?f s2] => destruct (screenshot p f s2) as [[u' | e'] s3]
       end; discriminate. }
  inversion H; subst b s1; clear H.
  apply bind_ok_inv in Hbody. destruct Hbody as [u0 [sa [_ H]]].
  apply bind_ok_inv in H. destruct H as [by_new_tab [sb [Htab H]]].
  destruct by_new_tab.
  - inversion H; subst; clear H. left. apply (new_tab_writes _ _ _ Htab).
  - apply bind_ok_inv in H. destruct H as [by_fetch [sc [Hfetch H]]].
    destruct by_fetch.
    + inversion H; subst; clear H. apply (embedded_image_fetch_writes _ _ _ Hfetch).
    + left. apply (region_screenshot_writes _ _ _ H).
Qed.

Lemma attempt_steps_writes so rc s s' :
  attempt_steps so rc s = (Ok true, s') -> artifact_exists so s'.
Proof.
  unfold attempt_steps. intros H.
  apply bind_ok_inv in H. destruct H as [u0 [sa [_ H]]].
  apply bind_ok_inv in H. destruct H as [found [sb [_ H]]].
  destruct found; cbn [negb] in H.
  2: { unfold bind, log_, modify, ret in H. simpl in H. discriminate. }
  apply bind_ok_inv in H. destruct H as [opened [sc [_ H]]].
  destruct opened; cbn [negb] in H.
  2: { unfold bind, log_, modify, ret in H. simpl in H. discriminate. }
  apply bind_ok_inv in H. destruct H as [saved [sd [Hsave H]]].
  destruct saved; cbn [negb] in H.
  2: { unfold bind, log_, modify, ret in H. simpl in H. discriminate. }
  apply find_and_save_writes in Hsave.
  unfold bind, log_, modify, ret in H. simpl in H. inversion H; subst; clear H.
  exact Hsave.
Qed.

Lemma process_rec_writes fuel :
  forall so rc s s',
    process_service_order_rec fuel so rc s = (Ok true, s') -> artifact_exists so s'.
Proof.
  induction fuel as [| fuel IH]; intros so rc s s' H;
    cbn [process_service_order_rec] in H;
    apply bind_ok_inv in H; destruct H as [flag [sa [_ H]]];
    (destruct flag; [ discriminate | ]);
    unfold except_Exception, try_except in H;
    destruct (attempt_steps so rc sa) as [[b | e] sb] eqn:Hsteps;
    try (inversion H; subst b sb; clear H; apply (attempt_steps_writes _ _ _ _ Hsteps));
    (destruct (is_Exception e); [ | discriminate ]);
    apply bind_ok_inv in H; destruct H as [u0 [sc [_ H]]];
    (destruct (rc <? get_max_retries cfg - 1)%Z; [ | discriminate ]);
    apply bind_ok_inv in H; destruct H as [u1 [sd [_ H]]];
    apply bind_ok_inv in H; destruct H as [u2 [se [_ H]]].
  - discriminate.
  - apply (IH _ _ _ _ H).
Qed.

(** X3.  Success is reported only with the invoice on disk: when the extraction
    chain, or the processing of an order through any number of retries,
    returns True, the file [{so_number}.png] or [{so_number}.jpg] has been
    written to the download directory. *)
Theorem success_leaves_the_invoice (so_number : string) :
  (forall s s',
      find_and_save_invoice_image so_number s = (Ok true, s') ->
      artifact_exists so_number s')
  /\ (forall retry_count s s',
         process_service_order so_number retry_count s = (Ok true, s') ->
         artifact_exists so_number s').
Proof.
  split.
  - apply find_and_save_writes.
  - intros rc s s'. apply process_rec_writes.
Qed.

(** ** What the operations below the coordinator leave unchanged *)

Section Inner.

(** A part of the state that no call but a lifecycle call, and no message
    but a message of the coordinator, can change. *)
Context {X : Type} (proj : state -> X).
Hypothesis proj_call :
  forall T (c : call T), is_lifecycle (Ev c) = false -> keeps proj (call_ c).
Hypothesis proj_log : forall m, is_run_msg m = false -> keeps proj (log_ m).
Hypothesis proj_file : forall f, keeps proj (add_file f).

Lemma inner_screenshot p f : keeps proj (screenshot p f).
Proof.
  apply keeps_bind; [ apply proj_call; reflexivity | intros _; apply proj_file ].
Qed.

Lemma inner_elem_screenshot e f : keeps proj (elem_screenshot e f).
Proof.
  apply keeps_bind; [ apply proj_call; reflexivity | intros _; apply proj_file ].
Qed.

Create HintDb inner_db.
Hint Resolve inner_screenshot inner_elem_screenshot proj_file : inner_db.

Ltac inner_tac :=
  keeps_with ltac:(first [ solve [ auto with inner_db ]
                         | apply proj_call; reflexivity
                         | apply proj_log; reflexivity ]).

Lemma inner_dashboard_loop l : keeps proj (dashboard_loop l).
Proof. induction l; simpl; inner_tac. Qed.

Lemma inner_welcome_loop l : keeps proj (welcome_loop l).
Proof. induction l; simpl; inner_tac. Qed.
Hint Resolve inner_dashboard_loop inner_welcome_loop : inner_db.

Lemma inner_is_logged_in : keeps proj is_logged_in.
Proof. unfold is_logged_in; inner_tac. Qed.
Hint Resolve inner_is_logged_in : inner_db.

Lemma inner_login_attempt a u p : keeps proj (login_attempt a u p).
Proof. unfold login_attempt; inner_tac. Qed.
Hint Resolve inner_login_attempt : inner_db.

Lemma inner_login_loop l u p : keeps proj (login_loop l u p).
Proof. induction l; simpl; inner_tac. Qed.
Hint Resolve inner_login_loop : inner_db.

Lemma inner_login : keeps proj login.
Proof. unfold login, config_item; inner_tac. Qed.

Lemma inner_navigate : keeps proj navigate_to_job_search.
Proof. unfold navigate_to_job_search; inner_tac. Qed.

Lemma inner_so_in_rows so rows : keeps proj (so_in_rows so rows).
Proof. induction rows; simpl; inner_tac. Qed.
Hint Resolve inner_so_in_rows : inner_db.

Lemma inner_verify so : keeps proj (verify_search_results so).
Proof. unfold verify_search_results; inner_tac. Qed.
Hint Resolve inner_verify : inner_db.

Lemma inner_search so : keeps proj (search_service_order so).
Proof. unfold search_service_order; inner_tac. Qed.

Lemma inner_eye_loop so rows : keeps proj (eye_loop so rows).
Proof. induction rows; simpl; inner_tac. Qed.
Hint Resolve inner_eye_loop : inner_db.

Lemma inner_find_eye so : keeps proj (find_eye_button_for_so so).
Proof. unfold find_eye_button_for_so; inner_tac. Qed.
Hint Resolve inner_find_eye : inner_db.

Lemma inner_open_details so : keeps proj (open_service_order_details so).
Proof. unfold open_service_order_details; inner_tac. Qed.

Lemma inner_new_tab so : keeps proj (save_invoice_image_new_tab so).
Proof. unfold save_invoice_image_new_tab; inner_tac. Qed.

Lemma inner_save_base64 src so : keeps proj (save_base64_image src so).
Proof. unfold save_base64_image; inner_tac. Qed.
Hint Resolve inner_save_base64 : inner_db.

Lemma inner_scroll : keeps proj scroll_to_invoice.
Proof. unfold scroll_to_invoice; inner_tac. Qed.

Lemma inner_embedded so : keeps proj (embedded_image_fetch so).
Proof. unfold embedded_image_fetch; inner_tac. Qed.

Lemma inner_region so : keeps proj (region_screenshot so).
Proof. unfold region_screenshot; inner_tac. Qed.
Hint Resolve inner_new_tab inner_scroll inner_embedded inner_region : inner_db.

Lemma inner_find_and_save so : keeps proj (find_and_save_invoice_image so).
Proof. unfold find_and_save_invoice_image; inner_tac. Qed.

Lemma inner_return_to_search : keeps proj return_to_search.
Proof. unfold return_to_search, config_item; inner_tac. Qed.
Hint Resolve inner_search inner_open_details inner_find_and_save : inner_db.

Lemma inner_attempt_steps so rc : keeps proj (attempt_steps so rc).
Proof. unfold attempt_steps; inner_tac. Qed.
Hint Resolve inner_attempt_steps : inner_db.

Lemma inner_process_rec fuel :
  forall so rc, keeps proj (process_service_order_rec fuel so rc).
Proof. induction fuel; intros so rc; simpl; inner_tac. Qed.

Lemma inner_process so rc : keeps proj (process_service_order so rc).
Proof. apply inner_process_rec. Qed.

Lemma inner_between_orders (i n : nat) :
  keeps proj (if (i <? n)%nat then return_to_search ;; ret tt else ret tt).
Proof.
  destruct (i <? n)%nat.
  - apply keeps_bind; [ apply inner_return_to_search | intros _; apply keeps_ret ].
  - apply keeps_ret.
Qed.

End Inner.

Lemma journal_call {T : Type} (c : call T) : keeps journal (call_ c).
Proof. apply keeps_call. reflexivity. Qed.

Lemma journal_log (m : msg) : is_run_msg m = false -> keeps journal (log_ m).
Proof.
  intros H. apply keeps_modify. intros s. unfold journal. simpl.
  rewrite filter_app. simpl. rewrite H. apply app_nil_r.
Qed.

Lemma journal_add_file (f : path) : keeps journal (add_file f).
Proof. apply keeps_modify. reflexivity. Qed.

Lemma lifecycle_call {T : Type} (c : call T) :
  is_lifecycle (Ev c) = false -> keeps lifecycle (call_ c).
Proof.
  intros H. apply keeps_call. intros s. unfold lifecycle. simpl.
  rewrite filter_app. simpl. rewrite H. apply app_nil_r.
Qed.

Lemma lifecycle_log (m : msg) : keeps lifecycle (log_ m).
Proof. apply keeps_modify. reflexivity. Qed.

Lemma lifecycle_add_file (f : path) : keeps lifecycle (add_file f).
Proof. apply keeps_modify. reflexivity. Qed.

(** *** The statistics and the failure log follow the logged verdicts *)

Lemma verdict_ids_app l1 l2 : verdict_ids (l1 ++ l2) = verdict_ids l1 ++ verdict_ids l2.
Proof.
  induction l1 as [| m l1 IH]; [ reflexivity | ].
  destruct m; simpl; rewrite ?IH; reflexivity.
Qed.























(** *** The order of processing *)

Lemma verdicts_call {T : Type} (c : call T) : keeps verdicts (call_ c).
Proof. apply keeps_call. reflexivity. Qed.

Lemma verdicts_add_file (f : path) : keeps verdicts (add_file f).
Proof. apply keeps_modify. reflexivity. Qed.

Lemma verdicts_log (m : msg) : verdict_ids [m] = [] -> keeps verdicts (log_ m).
Proof.
  intros H. apply keeps_modify. intros s. unfold verdicts. simpl.
  rewrite verdict_ids_app, H. apply app_nil_r.
Qed.

Lemma verdicts_log_inner (m : msg) : is_run_msg m = false -> keeps verdicts (log_ m).
Proof. intros H. apply verdicts_log. destruct m; simpl in *; congruence. Qed.

Ltac verdicts_inner :=
  first [ apply inner_process | apply inner_between_orders | apply inner_screenshot ];
  first [ exact verdicts_log_inner | exact verdicts_add_file | intros; apply verdicts_call ].

(** While no append raises an [Exception], one order gets one verdict, unless
    its processing is interrupted. *)
Lemma process_and_count_verdict (Happ : appends_work) so s :
  (verdicts (snd (process_and_count so s)) = verdicts s ++ [so])
  \/ (verdicts (snd (process_and_count so s)) = verdicts s
      /\ fst (process_and_count so s) <> Ok tt).
Proof.
  assert (Hk : keeps verdicts (process_service_order so 0)) by verdicts_inner.
  specialize (Hk s).
  destruct (process_service_order so 0 s) as [[[|] | e] s1] eqn:Hp; simpl in Hk.
  - left. rewrite (process_and_count_success _ _ _ Hp). unfold verdicts in *. simpl.
    rewrite verdict_ids_app, Hk. reflexivity.
  - left. destruct (failed_orders_append (trace s1) so) as [[] | e] eqn:Hw.
    + rewrite (process_and_count_failed _ _ _ Hp Hw). unfold verdicts in *. simpl.
      rewrite verdict_ids_app, Hk. reflexivity.
    + rewrite (process_and_count_unwritten_uncaught _ _ _ _ Hp Hw (Happ _ _ _ Hw)).
      unfold verdicts, failed_state in *. simpl.
      rewrite verdict_ids_app, Hk. reflexivity.
  - destruct (is_Exception e) eqn:He.
    + left. rewrite (process_and_count_critical _ _ _ _ Hp He).
      match goal with
      | |- context [screenshot ?p ?f ?s0] =>
          assert (Hshot : keeps verdicts (screenshot p f)) by verdicts_inner;
          rewrite (Hshot s0)
      end.
      unfold verdicts in *. simpl. rewrite verdict_ids_app, Hk. reflexivity.
    + right. rewrite (process_and_count_uncaught _ _ _ _ Hp He). simpl.
      split; [ exact Hk | discriminate ].
Qed.

(** X5.  While no append to the failure log raises an [Exception], the loop
    gives the orders their verdicts in the order of the input list, one
    verdict per order and none for an identifier outside the list: the
    orders with a verdict are a prefix of the list, and the whole list when
    the loop runs to its end. *)
Theorem orders_get_their_verdicts_in_input_order (n : nat) :
  appends_work ->
  forall rest i s,
  exists processed later,
    rest = processed ++ later
    /\ verdicts (snd (process_orders n i rest s)) = verdicts s ++ processed
    /\ (fst (process_orders n i rest s) = Ok tt -> later = []).
Proof.
  intros Happ.
  induction rest as [| so rest IH]; intros i s.
  - exists [], []. simpl. rewrite app_nil_r. auto.
  - rewrite process_orders_step.
    set (s0 := with_log (log s ++ [ProcessingHeader i n so]) s).
    assert (H0 : verdicts s0 = verdicts s).
    { unfold verdicts, s0. simpl. rewrite verdict_ids_app. simpl. apply app_nil_r. }
    destruct (process_and_count_verdict Happ so s0) as [Hv | [Hv Hr]].
    + destruct (process_and_count so s0) as [[u | e] s1]; simpl in Hv.
      * assert (Hb : keeps verdicts
                       (if (i <? n)%nat then return_to_search ;; ret tt else ret tt))
          by verdicts_inner.
        specialize (Hb s1).
        destruct ((if (i <? n)%nat then return_to_search ;; ret tt else ret tt) s1)
          as [[u' | e'] s2]; simpl in Hb.
        -- destruct (IH (S i) s2) as [processed [later [Hrest [Hver Hok]]]].
           exists (so :: processed), later. rewrite Hver, Hb, Hv, H0, <- app_assoc.
           simpl. subst rest. auto.
        -- exists [so], rest. simpl. rewrite Hb, Hv, H0.
           split; [ reflexivity | split; [ reflexivity | discriminate ] ].
      * exists [so], rest. simpl. rewrite Hv, H0.
        split; [ reflexivity | split; [ reflexivity | discriminate ] ].
    + destruct (process_and_count so s0) as [[[] | e] s1]; simpl in Hv, Hr.
      * congruence.
      * exists [], (so :: rest). simpl. rewrite Hv, H0, app_nil_r.
        split; [ reflexivity | split; [ reflexivity | discriminate ] ].
Qed.

(** ** The browser session of a run *)

Ltac lifecycle_inner :=
  first [ apply inner_login | apply inner_navigate | apply inner_process
        | apply inner_return_to_search | apply inner_screenshot ];
  first [ intros; apply lifecycle_call; assumption
        | intros; apply lifecycle_log
        | exact lifecycle_add_file ].

Ltac lifecycle_tac :=
  keeps_with ltac:(first [ lifecycle_inner
                         | apply lifecycle_log
                         | apply keeps_append; reflexivity
                         | apply keeps_modify; reflexivity ]).

Lemma lifecycle_process_and_count so : keeps lifecycle (process_and_count so).
Proof. unfold process_and_count, update_stats. lifecycle_tac. Qed.

Lemma lifecycle_process_orders n : forall rest i, keeps lifecycle (process_orders n i rest).
Proof.
  induction rest as [| so rest IH]; intros i; cbn [process_orders].
  - apply keeps_ret.
  - keeps_with ltac:(first [ apply IH
                           | apply lifecycle_process_and_count
                           | lifecycle_inner
                           | apply lifecycle_log ]).
Qed.

Lemma lifecycle_session ids : keeps lifecycle (session ids).
Proof.
  unfold session, print_summary.
  keeps_with ltac:(first [ apply lifecycle_process_orders
                         | lifecycle_inner
                         | apply lifecycle_log
                         | apply keeps_modify; reflexivity ]).
Qed.

(** The guarded session ends with the two calls of the cleanup, and makes no
    other lifecycle call. *)
Lemma guarded_session_cleanup ids s :
  (exists t, trace (snd (guarded_session ids s)) = t ++ [Ev BrowserClose; Ev PlaywrightStop])
  /\ lifecycle (snd (guarded_session ids s))
     = lifecycle s ++ [Ev BrowserClose; Ev PlaywrightStop].
Proof.
  unfold guarded_session, finally.
  match goal with
  | |- context [except_Exception ?m ?h s] =>
      assert (Hk : keeps lifecycle (except_Exception m h));
      [ keeps_with ltac:(first [ apply lifecycle_session
                               | lifecycle_inner
                               | apply lifecycle_log ])
      | specialize (Hk s); destruct (except_Exception m h s) as [r s1] ]
  end.
  simpl in Hk.
  pose proof (cleanup_returns s1) as Hr. pose proof (cleanup_trace s1) as Ht.
  destruct (cleanup s1) as [[u | e] s2]; simpl in *; [ | discriminate ].
  split.
  - exists (trace s1). exact Ht.
  - unfold lifecycle in *. rewrite Ht, filter_app, Hk. reflexivity.
Qed.

(** X6.  Once the browser is set up, the run releases it exactly once, as its
    last two calls, however the session ends: the lifecycle calls of the run
    are the launch, [browser.close()] and [playwright.stop()], in this
    order. *)
Theorem browser_is_released_exactly_once (s : state) (ids : list string) (s2 : state) :
  run_prologue s = (Ok ids, s2) ->
  lifecycle (snd (run_automation s))
  = lifecycle s ++ [Ev LaunchBrowser; Ev BrowserClose; Ev PlaywrightStop]
  /\ exists t,
       trace (snd (run_automation s)) = t ++ [Ev BrowserClose; Ev PlaywrightStop].
Proof.
  intros Hpro.
  destruct (run_prologue_inv _ _ _ Hpro) as [Hx [Hne Hsetup]].
  destruct (run_automation_observed s) as [_ [_ [_ [_ Rt]]]].
  assert (Hbody : trace (snd (run_body (started s))) = trace (snd (guarded_session ids s2))).
  { rewrite (run_body_loaded ids _ Hx Hne). unfold except_Exception, try_except.
    rewrite (bind_ok _ _ _ _ _ Hsetup).
    destruct (guarded_session ids s2) as [[u | e] s3]; [ reflexivity | ].
    destruct (is_Exception e); reflexivity. }
  destruct (guarded_session_cleanup ids s2) as [[t Ht] Hl].
  assert (Hs2 : lifecycle s2 = lifecycle s ++ [Ev LaunchBrowser]).
  { unfold setup_browser, call_ in Hsetup. inversion Hsetup; subst s2.
    unfold lifecycle. simpl. rewrite filter_app. reflexivity. }
  split.
  - unfold lifecycle in *. rewrite Rt, Hbody, Hl, Hs2, <- app_assoc. reflexivity.
  - exists t. rewrite Rt, Hbody. exact Ht.
Qed.

(** ** Runs that end before the loop *)

(** Without identifiers (an unreadable file or an empty column) the body of
    the run only logs. *)
Lemma run_body_without_input s :
  (forall ids, excel_column = Ok ids -> ids = []) ->
  exists e,
    (excel_column = Raise e \/ (excel_column = Ok [] /\ e = ValueError))
    /\ run_body s
       = (if is_Exception e
          then (Ok tt,
                with_log ((log s ++ [FailedToLoadServiceOrders e]) ++ [SetupFailed e]) s)
          else (Raise e, s)).
Proof.
  intros Hnone. unfold run_body, load_service_orders.
  destruct excel_column as [[| so l] | e] eqn:Hx.
  - exists ValueError. split; [ right; auto | reflexivity ].
  - specialize (Hnone _ eq_refl). discriminate.
  - exists e. split; [ left; reflexivity | ].
    unfold except_Exception, try_except, bind, raise, log_, modify. simpl.
    destruct (is_Exception e) eqn:He; simpl; rewrite ?He; reflexivity.
Qed.

(** X7.  An unreadable input file or an empty column ends the run before any use
    of the browser: the error is logged twice (by the loader and as "Setup
    failed"), no capability call is made, the counters keep their values, the
    summary is finalized, and the run returns normally. *)
Theorem run_without_input_touches_no_browser (s : state) (e : exn) :
  excel_column = Raise e \/ (excel_column = Ok [] /\ e = ValueError) ->
  is_Exception e = true ->
  fst (run_automation s) = Ok tt
  /\ trace (snd (run_automation s)) = trace s
  /\ total (stats (snd (run_automation s))) = total (stats s)
  /\ success (stats (snd (run_automation s))) = success (stats s)
  /\ failed (stats (snd (run_automation s))) = failed (stats s)
  /\ failed_orders_txt (snd (run_automation s)) = failed_orders_txt s
  /\ In (FailedToLoadServiceOrders e) (log (snd (run_automation s)))
  /\ In (SetupFailed e) (log (snd (run_automation s)))
  /\ finalized (snd (run_automation s)).
Proof.
  intros Hx He.
  assert (Hnone : forall ids, excel_column = Ok ids -> ids = []).
  { intros ids Hids. destruct Hx as [Hx | [Hx _]]; congruence. }
  destruct (run_body_without_input (started s) Hnone) as [e' [Hx' Hbody]].
  assert (e' = e).
  { destruct Hx as [Hx | [Hx ->]], Hx' as [Hx' | [Hx' ->]]; congruence. }
  subst e'. rewrite He in Hbody.
  destruct (run_automation_observed s) as [Rst [_ [Rf [_ Rt]]]].
  rewrite run_automation_finalizes at 1. rewrite Rst, Rf, Rt.
  assert (Hlog : forall m, In m (log (snd (run_body (started s)))) ->
                           In m (log (snd (run_automation s)))).
  { intros m Hin. rewrite run_automation_finalizes. simpl.
    unfold finalize, now, print_summary, bind, gets, update_stats, modify, log_.
    simpl.
    destruct (start_time (stats (snd (run_body (started s))))); simpl; [ | exact Hin ].
    destruct (0 <? total (stats (snd (run_body (started s)))))%nat; simpl;
      repeat (apply in_or_app; left); exact Hin. }
  rewrite Hbody in *. simpl in *.
  repeat split; auto using run_automation_finalized.
  - apply Hlog. apply in_or_app. left. apply in_or_app. right. left. reflexivity.
  - apply Hlog. apply in_or_app. right. left. reflexivity.
Qed.

(** X8.  For every run of a fresh object, whatever the input and the browser
    do, [total] is the number of identifiers loaded (0 when loading failed)
    and the counters never exceed twice the total; while no append to the
    failure log raises an [Exception] they never exceed the total:
    [success + failed + skipped <= total]. *)
Theorem counters_never_exceed_the_total (s : state) :
  stats s = initial_stats ->
  (appends_work ->
   (success (stats (snd (run_automation s)))
    + failed (stats (snd (run_automation s)))
    + skipped (stats (snd (run_automation s)))
    <= total (stats (snd (run_automation s))))%nat)
  /\ (success (stats (snd (run_automation s)))
      + failed (stats (snd (run_automation s)))
      + skipped (stats (snd (run_automation s)))
      <= 2 * total (stats (snd (run_automation s))))%nat
  /\ total (stats (snd (run_automation s)))
     = match excel_column with
       | Ok ids => length ids
       | Raise _ => 0%nat
       end.
Proof.
  intros Hinit.
  assert (Hgen : forall k : nat,
             (1 <= k)%nat ->
             (forall ids s2, counted (k * length ids) s2 (snd (session ids s2))) ->
             (success (stats (snd (run_automation s)))
              + failed (stats (snd (run_automation s)))
              + skipped (stats (snd (run_automation s)))
              <= k * total (stats (snd (run_automation s))))%nat
             /\ total (stats (snd (run_automation s)))
                = match excel_column with
                  | Ok ids => length ids
                  | Raise _ => 0%nat
                  end).
  { intros k Hk Hcounted.
    destruct (run_automation_observed s) as [Rst _]. rewrite Rst.
    destruct excel_column as [[| so l] | e] eqn:Hx.
    - destruct (run_body_without_input (started s)) as [e' [_ Hbody]];
        [ intros ids H; congruence | ].
      rewrite Hbody. destruct (is_Exception e'); simpl; rewrite Hinit; simpl; lia.
    - assert (Hne : so :: l <> []) by discriminate.
      destruct (run_prologue_cases (so :: l) s Hx Hne) as [[s2 Hpro] | Hobs].
      + destruct (run_body_after_prologue _ _ _ Hpro) as [Hobs _].
        apply observed_parts in Hobs. destruct Hobs as [Hst _].
        destruct (run_prologue_state _ _ _ Hpro) as [Hst2 _].
        pose proof (Hcounted (so :: l) s2) as Hc. unfold counted in Hc.
        destruct Hc as [Ct [Cs [_ [_ [_ [_ [_ Csum]]]]]]].
        rewrite Hst. simpl. rewrite Ct, Cs in *. rewrite Hst2, Hinit in *.
        simpl in *. split; [ nia | reflexivity ].
      + apply observed_parts in Hobs. destruct Hobs as [Hst _].
        rewrite Hst. simpl. rewrite Hinit. simpl. lia.
    - destruct (run_body_without_input (started s)) as [e' [_ Hbody]];
        [ intros ids H; congruence | ].
      rewrite Hbody. destruct (is_Exception e'); simpl; rewrite Hinit; simpl; lia. }
  split; [ | split ].
  - intros Happ. destruct (Hgen 1%nat) as [H _]; [ lia | | lia ].
    intros ids s2. eapply counted_le; [ | apply (session_counted Happ) ]. lia.
  - apply (Hgen 2%nat); [ lia | ]. intros ids s2. apply session_counted_twice.
  - apply (Hgen 2%nat); [ lia | ]. intros ids s2. apply session_counted_twice.
Qed.

(** X9.  When the browser cannot be launched, the run ends there: the launch is
    its only call (no login, and no cleanup either), "Setup failed" is
    logged, the identifiers are counted in [total] and nothing else, and the
    run returns normally with a finalized summary. *)
Theorem failed_launch_ends_the_run (s : state) (ids : list string) (e : exn) (s2 : state) :
  stats s = initial_stats ->
  excel_column = Ok ids ->
  ids <> [] ->
  setup_browser (loaded ids (started s)) = (Raise e, s2) ->
  is_Exception e = true ->
  fst (run_automation s) = Ok tt
  /\ trace (snd (run_automation s)) = trace s ++ [Ev LaunchBrowser]
  /\ log (snd (run_body (started s)))
     = (log s ++ [LoadedServiceOrders (length ids)]) ++ [SetupFailed e]
  /\ total (stats (snd (run_automation s))) = length ids
  /\ success (stats (snd (run_automation s))) = 0%nat
  /\ failed (stats (snd (run_automation s))) = 0%nat
  /\ finalized (snd (run_automation s)).
Proof.
  intros Hinit Hx Hne Hsetup He.
  destruct (run_automation_observed s) as [Rst [_ [_ [_ Rt]]]].
  assert (Hbody : run_body (started s)
                  = (Ok tt, with_log (log s2 ++ [SetupFailed e]) s2)).
  { rewrite (run_body_loaded ids _ Hx Hne). unfold except_Exception.
    rewrite (try_caught _ _ _ _ _ _ (bind_raise _ _ _ _ _ Hsetup) He). reflexivity. }
  unfold setup_browser, call_ in Hsetup. inversion Hsetup as [[Henv Hs2]].
  rewrite run_automation_finalizes at 1. rewrite Rst, Rt, Hbody. simpl.
  subst s2. simpl. rewrite Hinit. simpl.
  repeat split; auto using run_automation_finalized.
Qed.

(** X10.  A navigation to the search page that does not succeed is as fatal as a
    failed login: no order is attempted, nothing is counted or written to the
    failure log, and the summary is finalized with [total = len(ids)]. *)
Theorem failed_navigation_ends_the_run
    (s : state) (ids : list string) (s2 s3 : state) :
  stats s = initial_stats ->
  run_prologue s = (Ok ids, s2) ->
  login s2 = (Ok true, s3) ->
  fst (navigate_to_job_search s3) <> Ok true ->
  total (stats (snd (run_automation s))) = length ids
  /\ success (stats (snd (run_automation s))) = 0%nat
  /\ failed (stats (snd (run_automation s))) = 0%nat
  /\ attempts_logged (snd (run_automation s)) = attempts_logged s
  /\ failed_orders_txt (snd (run_automation s)) = failed_orders_txt s
  /\ finalized (snd (run_automation s)).
Proof.
  intros Hinit Hpro Hlogin Hnav.
  destruct (run_body_after_prologue _ _ _ Hpro) as [Hobs _].
  destruct (run_automation_observed s) as [Rst [_ [Rf [Ra _]]]].
  assert (Hsession : observed (snd (session ids s2)) = observed s2).
  { unfold session. rewrite (bind_ok _ _ _ _ _ Hlogin). cbn [negb].
    pose proof (frame_observed _ frame_login s2) as K1. rewrite Hlogin in K1.
    pose proof (frame_observed _ frame_navigate s3) as K2.
    destruct (navigate_to_job_search s3) as [[[|] | e] s4] eqn:Hn; simpl in Hnav, K1, K2.
    - congruence.
    - rewrite (bind_ok _ _ _ _ _ Hn). cbn [negb].
      rewrite <- K1, <- K2. apply (observed_log NavigationFailedExiting eq_refl s4).
    - rewrite (bind_raise _ _ _ _ _ Hn). simpl. congruence. }
  rewrite Hsession in Hobs.
  apply observed_parts in Hobs. destruct Hobs as [Hst [Hc [Hf Ha]]].
  destruct (run_prologue_state _ _ _ Hpro) as [Hst2 [Hc2 [Hf2 Ha2]]].
  rewrite Rst, Ra, Rf, Hst, Hst2, Hinit, Ha, Ha2, Hf, Hf2. simpl.
  repeat split; auto using run_automation_finalized.
Qed.

(** ** The attempts on one order, and the summary inside the loop *)

Lemma attempts_from_cons so rc k :
  ProcessingSO so (rc + 1) (get_max_retries cfg) :: attempts_from so (rc + 1) k
  = attempts_from so rc (S k).
Proof.
  unfold attempts_from. cbn [seq map]. f_equal.
  - f_equal. lia.
  - rewrite <- seq_shift, map_map. apply map_ext. intros i. f_equal. lia.
Qed.

Lemma attempts_from_one so rc :
  attempts_from so rc 1 = [ProcessingSO so (rc + 1) (get_max_retries cfg)].
Proof. unfold attempts_from. simpl. do 2 f_equal. lia. Qed.

Lemma attempts_logged_log (m : msg) s :
  attempts_logged (with_log (log s ++ [m]) s)
  = attempts_logged s ++ (if is_attempt m then [m] else []).
Proof. unfold attempts_logged. simpl. rewrite filter_app. simpl. destruct (is_attempt m); reflexivity. Qed.

Lemma process_rec_numbered fuel :
  forall so rc s,
    cancelled s = false ->
    exists k,
      (1 <= k <= S fuel)%nat
      /\ attempts_logged (snd (process_service_order_rec fuel so rc s))
         = attempts_logged s ++ attempts_from so rc k.
Proof.
  induction fuel as [| fuel IH]; intros so rc s Hc;
    cbn [process_service_order_rec]; unfold bind at 1, gets; rewrite Hc;
    unfold except_Exception, try_except;
    pose proof (attempt_steps_logs_one so rc s) as Hone;
    pose proof (coordinator_attempt_steps so rc s) as Hco;
    apply coordinator_parts in Hco; destruct Hco as [_ [Hc1 _]];
    destruct (attempt_steps so rc s) as [[b | e] s1]; simpl in Hone, Hc1;
    try (exists 1%nat; split; [ lia | rewrite attempts_from_one; simpl; exact Hone ]);
    (destruct (is_Exception e); [ | exists 1%nat; split; [ lia | rewrite attempts_from_one; simpl; exact Hone ] ]);
    unfold bind at 1; simpl;
    (destruct (rc <? get_max_retries cfg - 1)%Z;
     [ | exists 1%nat; split; [ lia | rewrite attempts_from_one; simpl; rewrite attempts_logged_log; simpl;
                                     rewrite app_nil_r; exact Hone ] ]);
    unfold bind at 1; simpl; unfold bind at 1; unfold call_ at 1;
    match goal with
    | |- context [env unit ?t ?c] => destruct (env unit t c)
    end; simpl.
  - exists 1%nat. split; [ lia | ]. rewrite attempts_from_one. unfold attempts_logged in *. simpl.
    rewrite !filter_app. simpl. rewrite !app_nil_r. exact Hone.
  - exists 1%nat. split; [ lia | ]. rewrite attempts_from_one. unfold attempts_logged in *. simpl.
    rewrite !filter_app. simpl. rewrite !app_nil_r. exact Hone.
  - match goal with
    | |- context [process_service_order_rec fuel so (rc + 1) ?s2] =>
        destruct (IH so (rc + 1)%Z s2) as [k [Hk Hlog]]; [ exact (eq_trans eq_refl (eq_trans Hc1 Hc)) | ];
        assert (Hs2 : attempts_logged s2 = attempts_logged s1)
    end.
    { unfold attempts_logged. simpl. rewrite !filter_app. simpl.
      rewrite !app_nil_r. reflexivity. }
    exists (S k). split; [ lia | ].
    rewrite Hlog, Hs2, Hone, <- app_assoc. f_equal. apply attempts_from_cons.
  - exists 1%nat. split; [ lia | ]. rewrite attempts_from_one. unfold attempts_logged in *. simpl.
    rewrite !filter_app. simpl. rewrite !app_nil_r. exact Hone.
Qed.

(** X11.  While the flag is unset, an order is attempted at least once and at most
    [max(1, max_retries - retry_count)] times, and the log numbers the
    attempts consecutively from [retry_count + 1]. *)
Theorem attempts_are_numbered_consecutively (so_number : string) (retry_count : Z) (s : state) :
  cancelled s = false ->
  exists k : nat,
    (1 <= k)%nat
    /\ (Z.of_nat k <= Z.max 1 (get_max_retries cfg - retry_count))%Z
    /\ attempts_logged (snd (process_service_order so_number retry_count s))
       = attempts_logged s ++ attempts_from so_number retry_count k.
Proof.
  intros Hc. unfold process_service_order.
  destruct (process_rec_numbered
              (Z.to_nat (get_max_retries cfg - 1 - retry_count)) so_number retry_count s Hc)
    as [k [Hk Hlog]].
  exists k. repeat split; [ lia | lia | exact Hlog ].
Qed.

Lemma summary_call {T : Type} (c : call T) : keeps summary_txt (call_ c).
Proof. apply keeps_call. reflexivity. Qed.

Lemma summary_log (m : msg) : keeps summary_txt (log_ m).
Proof. apply keeps_modify. reflexivity. Qed.

Lemma summary_add_file (f : path) : keeps summary_txt (add_file f).
Proof. apply keeps_modify. reflexivity. Qed.

Ltac summary_inner :=
  first [ apply inner_login | apply inner_navigate | apply inner_process
        | apply inner_return_to_search | apply inner_screenshot ];
  first [ intros; apply summary_call
        | intros; apply summary_log
        | exact summary_add_file ].

Lemma summary_process_and_count so : keeps summary_txt (process_and_count so).
Proof.
  unfold process_and_count, update_stats.
  keeps_with ltac:(first [ summary_inner
                         | apply summary_log
                         | apply keeps_append; reflexivity
                         | apply keeps_modify; reflexivity ]).
Qed.

Lemma summary_process_orders n :
  forall rest i, keeps summary_txt (process_orders n i rest).
Proof.
  induction rest as [| so rest IH]; intros i; cbn [process_orders].
  - apply keeps_ret.
  - keeps_with ltac:(first [ apply IH
                           | apply summary_process_and_count
                           | summary_inner
                           | apply summary_log ]).
Qed.

Lemma summary_cleanup : keeps summary_txt cleanup.
Proof. unfold cleanup. keeps_with ltac:(apply summary_call). Qed.

Lemma log_cleanup : keeps log cleanup.
Proof. unfold cleanup. keeps_with ltac:(apply keeps_call; reflexivity). Qed.

(** X12.  The summary that the loop prints after the last order (line 757) is
    computed before the end time is set: on an object whose end time is
    still unset it raises TypeError, which the handler around the session
    logs as "Automation failed"; no summary file is written by the
    session. *)
Theorem summary_inside_the_loop_raises (ids : list string) (s s1 s2 s3 : state) :
  end_time (stats s) = None ->
  login s = (Ok true, s1) ->
  navigate_to_job_search s1 = (Ok true, s2) ->
  process_orders (length ids) 1 ids s2 = (Ok tt, s3) ->
  session ids s = (Raise TypeError, s3)
  /\ log (snd (guarded_session ids s)) = log s3 ++ [AutomationFailed TypeError]
  /\ summary_txt (snd (guarded_session ids s)) = summary_txt s.
Proof.
  intros Hend H1 H2 H3.
  assert (Hs : session ids s = (Raise TypeError, s3)).
  { rewrite (session_completed ids s s1 s2 s3 H1 H2 H3).
    pose proof (frame_observed _ frame_login s) as K1. rewrite H1 in K1.
    pose proof (frame_observed _ frame_navigate s1) as K2. rewrite H2 in K2.
    apply observed_parts in K1. apply observed_parts in K2.
    destruct K1 as [K1 _]. destruct K2 as [K2 _]. simpl in K1, K2.
    destruct (process_orders_counted_twice (length ids) ids 1%nat s2) as [Hcnt _].
    rewrite H3 in Hcnt. simpl in Hcnt. destruct Hcnt as [_ [_ [_ [He _]]]].
    unfold print_summary, bind, gets. simpl.
    rewrite He, K2, K1, Hend. reflexivity. }
  assert (Hsum : summary_txt s3 = summary_txt s).
  { assert (K1 : keeps summary_txt login) by summary_inner.
    assert (K2 : keeps summary_txt navigate_to_job_search) by summary_inner.
    specialize (K1 s). specialize (K2 s1).
    pose proof (summary_process_orders (length ids) ids 1%nat s2) as K3.
    rewrite H1 in K1. rewrite H2 in K2. rewrite H3 in K3. simpl in K1, K2, K3.
    congruence. }
  split; [ exact Hs | ].
  unfold guarded_session, finally, except_Exception.
  rewrite (try_caught _ _ _ _ _ _ Hs eq_refl).
  match goal with
  | |- context [bind ?m ?k s3] =>
      assert (Hh : log (snd (bind m k s3)) = log s3 ++ [AutomationFailed TypeError]);
      [ | assert (Hk : keeps summary_txt (bind m k));
          [ keeps_with ltac:(first [ apply summary_log | summary_inner ]) | ] ]
  end.
  { unfold bind at 1. simpl. rewrite (log_screenshot MainPage _ _). reflexivity. }
  specialize (Hk s3).
  match goal with
  | |- context [bind ?m ?k s3] => destruct (bind m k s3) as [r s4]
  end.
  pose proof (log_cleanup s4) as Hc. pose proof (summary_cleanup s4) as Hc'.
  destruct (cleanup s4) as [[u | e] s5]; simpl in *; split; congruence.
Qed.

(** ** The login *)

Lemma tries_call {T : Type} (c : call T) : keeps login_tries (call_ c).
Proof. apply keeps_call. reflexivity. Qed.

Lemma tries_log (m : msg) : is_login_try m = false -> keeps login_tries (log_ m).
Proof.
  intros H. apply keeps_modify. intros s. unfold login_tries. simpl.
  rewrite filter_app. simpl. rewrite H. apply app_nil_r.
Qed.

Lemma tries_add_file (f : path) : keeps login_tries (add_file f).
Proof. apply keeps_modify. reflexivity. Qed.

Lemma tries_screenshot p f : keeps login_tries (screenshot p f).
Proof.
  apply keeps_bind; [ apply tries_call | intros _; apply tries_add_file ].
Qed.

Ltac tries_tac :=
  keeps_with ltac:(first [ apply tries_call
                         | apply tries_log; reflexivity
                         | apply tries_screenshot
                         | assumption ]).

Lemma tries_dashboard_loop l : keeps login_tries (dashboard_loop l).
Proof. induction l; simpl; tries_tac. Qed.

Lemma tries_welcome_loop l : keeps login_tries (welcome_loop l).
Proof. induction l; simpl; tries_tac. Qed.

Lemma tries_is_logged_in : keeps login_tries is_logged_in.
Proof.
  pose proof tries_dashboard_loop. pose proof tries_welcome_loop.
  unfold is_logged_in.
  keeps_with ltac:(first [ apply tries_call | apply tries_dashboard_loop
                         | apply tries_welcome_loop ]).
Qed.

(** Every iteration of the loop announces itself once, however it ends. *)
Lemma login_attempt_tries a u p s :
  login_tries (snd (login_attempt a u p s))
  = login_tries s ++ [LookingForUsername (a + 1) max_attempts].
Proof.
  unfold login_attempt.
  match goal with
  | |- context [except_Exception (bind (log_ ?m) ?k) ?h] =>
      assert (Hk : keeps login_tries (except_Exception (k tt) h));
      [ | change (except_Exception (bind (log_ m) k) h s)
            with (except_Exception (k tt) h (with_log (log s ++ [m]) s)) ]
  end.
  { cbv beta.
    keeps_with ltac:(first [ apply tries_call
                           | apply tries_log; reflexivity
                           | apply tries_screenshot
                           | apply tries_is_logged_in ]). }
  rewrite Hk. unfold login_tries. simpl. rewrite filter_app. reflexivity.
Qed.

Lemma login_loop_tries u p :
  forall attempts s,
  exists done later,
    attempts = done ++ later
    /\ login_tries (snd (login_loop attempts u p s))
       = login_tries s ++ map (fun a => LookingForUsername (a + 1) max_attempts) done.
Proof.
  induction attempts as [| a rest IH]; intros s.
  - exists [], []. split; [ reflexivity | ]. simpl map. rewrite app_nil_r.
    cbn [login_loop].
    assert (Hk : keeps login_tries
                   (log_ AllLoginAttemptsFailed ;;
                    screenshot MainPage (Cwd "login_failed.png") ;; ret false)).
    { keeps_with ltac:(first [ apply tries_log; reflexivity | apply tries_screenshot ]). }
    apply Hk.
  - cbn [login_loop]. unfold bind at 1.
    pose proof (login_attempt_tries a u p s) as Hone.
    destruct (login_attempt a u p s) as [[[|] | e] s1]; simpl in Hone.
    + exists [a], rest. split; [ reflexivity | exact Hone ].
    + destruct (IH s1) as [done [later [Hsplit Hlog]]].
      exists (a :: done), later. split; [ simpl; congruence | ].
      rewrite Hlog, Hone, <- app_assoc. reflexivity.
    + exists [a], rest. split; [ reflexivity | exact Hone ].
Qed.

(** X13.  [login] looks for the login form at most three times, and the log
    numbers the attempts 1/3, 2/3, 3/3 in this order. *)
Theorem login_makes_at_most_three_attempts (s : state) :
  exists k : nat,
    (k <= 3)%nat
    /\ login_tries (snd (login s))
       = login_tries s
         ++ map (fun i => LookingForUsername (Z.of_nat i + 1) 3) (seq 0 k).
Proof.
  unfold login.
  remember (login_loop (Py.range (Z.to_nat max_attempts))) as loop eqn:Hl.
  assert (Hloop : forall u p s0,
             exists k : nat,
               (k <= 3)%nat
               /\ login_tries (snd (loop u p s0))
                  = login_tries s0
                    ++ map (fun i => LookingForUsername (Z.of_nat i + 1) 3) (seq 0 k)).
  { intros u p s0. rewrite Hl.
    destruct (login_loop_tries u p (Py.range (Z.to_nat max_attempts)) s0)
      as [done [later [Hsplit Hlog]]].
    exists (length done). rewrite Hlog.
    assert (Hlen : (length done <= 3)%nat).
    { apply (f_equal (@length Z)) in Hsplit. rewrite length_app in Hsplit.
      simpl in Hsplit. lia. }
    split; [ exact Hlen | ]. f_equal.
    change (Py.range (Z.to_nat max_attempts)) with [0%Z; 1%Z; 2%Z] in Hsplit.
    destruct done as [| a [| b [| c [| d done]]]]; simpl in Hsplit, Hlen;
      try lia; inversion Hsplit; subst; reflexivity. }
  assert (Hh : forall e, keeps login_tries
                 (log_ (LoginFailedWithError e) ;;
                  screenshot MainPage (Cwd "login_error.png") ;; ret false)).
  { intros e.
    keeps_with ltac:(first [ apply tries_log; reflexivity | apply tries_screenshot ]). }
  assert (Hnone : forall s1 s2, login_tries s2 = login_tries s1 ->
             exists k : nat,
               (k <= 3)%nat
               /\ login_tries s2
                  = login_tries s1
                    ++ map (fun i => LookingForUsername (Z.of_nat i + 1) 3) (seq 0 k)).
  { intros s1 s2 H. exists 0%nat. split; [ lia | ]. simpl. rewrite app_nil_r. exact H. }
  clear Hl. unfold except_Exception, try_except.
  unfold bind at 1. simpl.
  set (s0 := with_log (log s ++ [LoggingIn]) s).
  assert (H0 : login_tries s0 = login_tries s).
  { apply (tries_log LoggingIn eq_refl s). }
  unfold config_item.
  destruct (crm_url cfg) as [url |];
    [ | unfold bind at 1; simpl; rewrite Hh; apply Hnone; exact H0 ].
  unfold bind at 1. simpl.
  destruct (cfg_username cfg) as [user |];
    [ | unfold bind at 1; simpl; rewrite Hh; apply Hnone; exact H0 ].
  unfold bind at 1. simpl.
  destruct (cfg_password cfg) as [pass |];
    [ | unfold bind at 1; simpl; rewrite Hh; apply Hnone; exact H0 ].
  unfold bind at 1. simpl.
  match goal with
  | |- context [bind (call_ ?c1) (fun _ => bind (call_ ?c2) (fun _ => bind (call_ ?c3) ?k))] =>
      assert (Hpre : keeps login_tries (call_ c1 ;; call_ c2 ;; call_ c3));
      [ keeps_with ltac:(apply tries_call) | ];
      assert (Hassoc : bind (call_ c1) (fun _ => bind (call_ c2) (fun _ => bind (call_ c3) k)) s0
                       = bind (call_ c1 ;; call_ c2 ;; call_ c3) k s0);
      [ unfold bind; destruct (call_ c1 s0) as [[[] | e1] sa]; [ | reflexivity ];
        destruct (call_ c2 sa) as [[[] | e2] sb]; [ | reflexivity ];
        destruct (call_ c3 sb) as [[[] | e3] sc]; reflexivity
      | rewrite Hassoc; clear Hassoc ];
      unfold bind at 1; specialize (Hpre s0);
      destruct ((call_ c1 ;; call_ c2 ;; call_ c3) s0) as [[[] | e] sp]
  end; simpl in Hpre.
  - destruct (Hloop user pass sp) as [k [Hk Hlog]].
    rewrite Hpre, H0 in Hlog.
    destruct (loop user pass sp) as [[b | e] sl]; simpl in Hlog.
    + exists k. auto.
    + destruct (is_Exception e); simpl.
      * rewrite Hh. exists k. auto.
      * exists k. auto.
  - destruct (is_Exception e); simpl.
    + rewrite Hh. apply Hnone. congruence.
    + apply Hnone. congruence.
Qed.

Lemma try_inv {A : Type} (m : M A) c h s a s' :
  try_except m c h s = (Ok a, s') ->
  m s = (Ok a, s')
  \/ exists e s1, m s = (Raise e, s1) /\ c e = true /\ h e s1 = (Ok a, s').
Proof.
  unfold try_except. destruct (m s) as [[a0 | e] s1]; intros H.
  - left. exact H.
  - destruct (c e) eqn:Hc; [ | discriminate ]. right. exists e, s1. auto.
Qed.

Ltac bind_inv_fresh H :=
  let a := fresh "a" in
  let s := fresh "s" in
  let Hm := fresh "Hm" in
  apply bind_ok_inv in H; destruct H as [a [s [Hm H]]].

Tactic Notation "bind_inv" hyp(H) := bind_inv_fresh H.

Tactic Notation "bind_inv" hyp(H) "as" ident(a) ident(s) ident(Hm) :=
  apply bind_ok_inv in H; destruct H as [a [s [Hm H]]].

Lemma login_attempt_true a u p s s' :
  login_attempt a u p s = (Ok true, s') -> session_saved s'.
Proof.
  unfold login_attempt, except_Exception. intros H. apply try_inv in H.
  destruct H as [H | [e [s1 [_ [_ H]]]]].
  - bind_inv H. bind_inv H as username_field sa Ha.
    destruct username_field as [uf |]; [ | discriminate ].
    bind_inv H. bind_inv H. bind_inv H as password_field sb Hb.
    destruct password_field as [pf |]; [ | discriminate ].
    bind_inv H. bind_inv H as button sc Hc.
    destruct button as [lb |]; [ | discriminate ].
    bind_inv H. bind_inv H. bind_inv H. bind_inv H.
    bind_inv H as logged_in sd Hd.
    destruct logged_in.
    + bind_inv H as u1 se He. bind_inv H as u2 sf Hf.
      unfold ret in H. inversion H; subst; clear H.
      unfold call_ in Hf. inversion Hf; subst; clear Hf.
      unfold log_, modify in He. inversion He; subst; clear He.
      split; simpl; eauto.
    + bind_inv H. bind_inv H. discriminate.
  - bind_inv H. bind_inv H. bind_inv H. discriminate.
Qed.

Lemma login_loop_true u p :
  forall attempts s s',
    login_loop attempts u p s = (Ok true, s') -> session_saved s'.
Proof.
  induction attempts as [| a rest IH]; intros s s' H; cbn [login_loop] in H.
  - bind_inv H. bind_inv H. discriminate.
  - bind_inv H as returned s1 H1. destruct returned.
    + unfold ret in H. inversion H; subst. eapply login_attempt_true; eauto.
    + eapply IH; eauto.
Qed.

(** X14.  [login] reports success only after it has stored the session: when it
    returns True, its last call wrote [auth_state.json] and its last message
    is "Login successful". *)
Theorem login_success_stores_the_session (s s' : state) :
  login s = (Ok true, s') -> session_saved s'.
Proof.
  unfold login, except_Exception. intros H. apply try_inv in H.
  destruct H as [H | [e [s1 [_ [_ H]]]]].
  - do 7 bind_inv H. eapply login_loop_true; eauto.
  - bind_inv H. bind_inv H. discriminate.
Qed.

(** X15.  With a setting of the login missing from the configuration, [login]
    opens nothing: the KeyError is logged, the only call is the diagnostic
    screenshot, and the result is not True. *)
Theorem login_without_settings_opens_nothing (s : state) :
  crm_url cfg = None \/ cfg_username cfg = None \/ cfg_password cfg = None ->
  trace (snd (login s)) = trace s ++ [Ev (Screenshot MainPage (Cwd "login_error.png"))]
  /\ log (snd (login s)) = log s ++ [LoggingIn; LoginFailedWithError KeyError]
  /\ fst (login s) <> Ok true.
Proof.
  intros Hmiss.
  assert (Hraise : (log_ LoggingIn ;;
                    url <- config_item crm_url ;;
                    user <- config_item cfg_username ;;
                    pass <- config_item cfg_password ;;
                    call_ (Goto MainPage url) ;;
                    call_ (WaitForLoadState MainPage) ;;
                    call_ (WaitForTimeout MainPage 5000) ;;
                    login_loop (Py.range (Z.to_nat max_attempts)) user pass) s
                   = (Raise KeyError, with_log (log s ++ [LoggingIn]) s)).
  { unfold config_item, bind, log_, modify, raise, ret.
    destruct (crm_url cfg); [ | reflexivity ].
    destruct (cfg_username cfg); [ | reflexivity ].
    destruct (cfg_password cfg); [ | reflexivity ].
    destruct Hmiss as [H | [H | H]]; discriminate. }
  unfold login, except_Exception.
  rewrite (try_caught _ _ _ _ _ _ Hraise eq_refl).
  unfold screenshot, bind, log_, add_file, modify, call_, ret. simpl.
  match goal with
  | |- context [env unit ?t ?c] => destruct (env unit t c) as [[] | e]
  end; simpl; rewrite <- !app_assoc; repeat split; discriminate.
Qed.

(** ** The embedded image, and the way back to the search *)

(** X16.  An inline image that [base64.b64decode] rejects ends the chain: the
    ValueError of [save_base64_image] leaves the fetch of strategy 2, the
    handler of [find_and_save_invoice_image] logs it, and the region
    screenshot of strategy 3 is never tried; no file is written for the
    order. *)
Theorem undecodable_image_ends_the_chain
    (so_number : string) (s s1 s2 : state) (img : elem) (src : string) :
  scroll_to_invoice s = (Ok tt, s1) ->
  save_invoice_image_new_tab so_number s1 = (Ok false, s2) ->
  env _ (trace s2) (QuerySelector MainPage (xpaths invoice_image ++ " img")%string)
  = Ok (Some img) ->
  env _ (trace s2 ++ [Ev (QuerySelector MainPage (xpaths invoice_image ++ " img")%string)])
    (ElemGetAttribute img "src")
  = Ok (Some src) ->
  Py.startswith src "data:" = true ->
  b64decode_ok src = false ->
  log (snd (find_and_save_invoice_image so_number s))
  = log s2 ++ [FailedToSaveBase64 ValueError; FailedToSaveInvoice so_number ValueError]
  /\ region_shots (snd (find_and_save_invoice_image so_number s)) = region_shots s
  /\ files (snd (find_and_save_invoice_image so_number s))
     = files s2
       ++ match fst (find_and_save_invoice_image so_number s) with
          | Ok _ => [Cwd ("invoice_error_" ++ so_number ++ ".png")%string]
          | Raise _ => []
          end
  /\ fst (find_and_save_invoice_image so_number s) <> Ok true.
Proof.
  intros Hscroll Htab Himg Hsrc Hdata Hb64.
  assert (Htruthy : Py.truthy src = true).
  { destruct src; [ discriminate | reflexivity ]. }
  pose proof (region_scroll s) as R0. rewrite Hscroll in R0.
  pose proof (region_new_tab so_number s1) as R1. rewrite Htab in R1.
  simpl in R0, R1.
  set (s3 := with_trace
               ((trace s2 ++ [Ev (QuerySelector MainPage (xpaths invoice_image ++ " img")%string)])
                ++ [Ev (ElemGetAttribute img "src")]) s2).
  assert (Hfetch : embedded_image_fetch so_number s2
                   = (Raise ValueError,
                      with_log (log s2 ++ [FailedToSaveBase64 ValueError]) s3)).
  { unfold embedded_image_fetch. unfold bind at 1. unfold call_ at 1. rewrite Himg.
    unfold bind at 1. unfold call_ at 1. cbn [trace with_trace]. rewrite Hsrc.
    rewrite Htruthy, Hdata. cbn [negb].
    unfold save_base64_image, except_Exception, try_except, bind. rewrite Hb64.
    reflexivity. }
  assert (Hbody : (scroll_to_invoice ;;
                   by_new_tab <- save_invoice_image_new_tab so_number ;;
                   if by_new_tab then ret true
                   else
                     by_fetch <- embedded_image_fetch so_number ;;
                     if by_fetch then ret true
                     else region_screenshot so_number) s
                  = (Raise ValueError,
                     with_log (log s2 ++ [FailedToSaveBase64 ValueError]) s3)).
  { rewrite (bind_ok _ _ _ _ _ Hscroll), (bind_ok _ _ _ _ _ Htab).
    apply bind_raise. exact Hfetch. }
  unfold find_and_save_invoice_image, except_Exception.
  rewrite (try_caught _ _ _ _ _ _ Hbody eq_refl).
  unfold screenshot, bind, log_, add_file, modify, call_, ret. simpl.
  match goal with
  | |- context [env unit ?t ?c] => destruct (env unit t c) as [[] | e]
  end; simpl; rewrite <- ?app_assoc; unfold region_shots in *; simpl;
    rewrite ?filter_app; simpl; rewrite ?app_nil_r;
    repeat split; try discriminate; congruence.
Qed.

Ltac env_cases :=
  repeat match goal with
         | |- context [env ?T ?t ?c] =>
             let E := fresh "E" in
             destruct (env T t c) as [? | ?] eqn:E; simpl
         | |- context [is_Exception ?e] =>
             let E := fresh "E" in
             destruct (is_Exception e) eqn:E; simpl
         end.

(** X17.  [return_to_search] reports False in one case only: the menu link and
    the two waits worked and the search box is not on the page.  Nothing is
    logged then, and no fallback is tried; once the fallbacks run, the
    result is True or an exception. *)
Theorem return_to_search_false_means_no_search_box (s : state) :
  fst (return_to_search s) = Ok false ->
  trace (snd (return_to_search s))
  = trace s ++ [Ev (Click MainPage (xpaths job_search_link));
                Ev (WaitForLoadState MainPage);
                Ev (WaitForTimeout MainPage 2000);
                Ev (QuerySelector MainPage (xpaths search_input))]
  /\ log (snd (return_to_search s)) = log s
  /\ env _ (trace s ++ [Ev (Click MainPage (xpaths job_search_link));
                        Ev (WaitForLoadState MainPage);
                        Ev (WaitForTimeout MainPage 2000)])
       (QuerySelector MainPage (xpaths search_input))
     = Ok None.
Proof.
  unfold return_to_search, except_Exception, except_any, try_except, config_item,
    bind, call_, log_, modify, ret, raise.
  simpl. rewrite <- !app_assoc. simpl.
  repeat first [ progress env_cases
               | match goal with
                 | |- context [match ?x with Some _ => _ | None => _ end] =>
                     destruct x; simpl
                 end ];
    intros H; try discriminate;
    rewrite <- ?app_assoc; simpl; repeat split; reflexivity.
Qed.

(** X18.  [navigate_to_job_search] treats a missing search input as a warning:
    whenever it logs "Search input not found" it returns True; and it
    returns False only from its handler, after logging the failure and with
    the diagnostic screenshot as its last call. *)
Theorem missing_search_input_is_only_a_warning (s : state) :
  (forall l,
      log (snd (navigate_to_job_search s)) = log s ++ l ->
      In SearchInputNotFound l ->
      fst (navigate_to_job_search s) = Ok true)
  /\ (fst (navigate_to_job_search s) = Ok false ->
      exists e t,
        is_Exception e = true
        /\ log (snd (navigate_to_job_search s))
           = log s ++ [NavigatingToJobSearch; FailedToNavigate e]
        /\ trace (snd (navigate_to_job_search s))
           = t ++ [Ev (Screenshot MainPage (Cwd "navigation_error.png"))]).
Proof.
  unfold navigate_to_job_search, except_Exception, except_any, try_except, screenshot,
    bind, call_, log_, add_file, modify, ret, raise.
  simpl. rewrite <- !app_assoc. simpl.
  split.
  - env_cases; rewrite <- ?app_assoc; simpl;
      intros l Hl Hin; apply app_inv_head in Hl; subst l; simpl in Hin;
      try reflexivity;
      repeat match goal with
             | H : _ \/ _ |- _ => destruct H
             | H : False |- _ => destruct H
             | H : _ = SearchInputNotFound |- _ => discriminate H
             end.
  - env_cases; intros H; try discriminate;
      match goal with
      | E : is_Exception ?e = true |- _ =>
          exists e; eexists; split; [ exact E | split ];
          [ rewrite <- ?app_assoc; reflexivity | reflexivity ]
      end.
Qed.

End Workflow.

(** ** The workflow against the test doubles *)

Local Abbreviation run_with env flag ids :=
  (run_automation env Double.clock Double.cfg (Ok ids) Double.b64 Double.disk
     (initial_state flag [])).

Local Abbreviation run_unwritable env flag ids :=
  (run_automation env Double.clock Double.cfg (Ok ids) Double.b64 Double.unwritable
     (initial_state flag [])).

Local Abbreviation prologue_with env flag ids :=
  (run_prologue env Double.clock (Ok ids) (initial_state flag [])).

(** The end-to-end scenario of the specification: SO001 is found, SO002 is
    not. *)
Example two_orders_scenario :
  let s := snd (run_with Double.crm false Double.two_orders) in
  total (stats s) = 2%nat /\ success (stats s) = 1%nat /\ failed (stats s) = 1%nat
  /\ failed_orders_txt s = ["SO002"]
  /\ In (Download "SO001.png") (files s).
Proof. vm_compute. repeat split; auto. Qed.





(** C3, counterexample.  Order SO002 is not in the result table: the search
    step reports failure on the first attempt, with two retries left, and
    the order is Failed at once, after one attempt and with no backoff. *)
Lemma step_failure_is_not_retried :
  let s0 := initial_state false [] in
  let r := process_service_order Double.crm Double.cfg Double.b64 "SO002" 0 s0 in
  fst (search_service_order Double.crm "SO002" s0) = Ok false
  /\ (0 <? get_max_retries Double.cfg - 1)%Z = true
  /\ fst r = Ok false
  /\ attempts_logged (snd r) = [ProcessingSO "SO002" 1 3]
  /\ existsb Double.is_backoff (trace (snd r)) = false.
Proof. vm_compute. repeat split. Qed.

(** A fault that escapes a step is retried up to the bound: with clicks that
    fault and no diagnostic screenshot, SO001 is attempted three times, with a
    backoff before the second and the third attempt. *)
Example exception_is_retried :
  let s0 := initial_state false [] in
  let r := process_service_order (Double.override Double.broken_click Double.crm)
             Double.cfg Double.b64 "SO001" 0 s0 in
  fst r = Ok false
  /\ attempts_logged (snd r)
     = [ProcessingSO "SO001" 1 3; ProcessingSO "SO001" 2 3; ProcessingSO "SO001" 3 3]
  /\ length (filter Double.is_backoff (trace (snd r))) = 2%nat.
Proof. vm_compute. repeat split. Qed.

(** C3, witness: the first attempt on SO001 ends in a fault that escapes the
    steps, and the order backs off and starts over as attempt 2. *)
Lemma retry_only_on_exception_witness :
  let env := Double.override Double.broken_click Double.crm in
  let s0 := initial_state false [] in
  process_service_order env Double.cfg Double.b64 "SO001" 0 s0
  = bind (log_ (ErrorProcessing "SO001" PlaywrightError))
      (fun _ => bind (log_ (Retrying "SO001"))
         (fun _ => bind (call_ env (WaitForTimeout MainPage 3000))
            (fun _ => process_service_order env Double.cfg Double.b64 "SO001" (0 + 1))))
      (snd (attempt_steps env Double.cfg Double.b64 "SO001" 0 s0)).
Proof.
  intros env s0.
  apply (proj1 (proj2 (retry_only_on_exception env Double.cfg Double.b64 "SO001" 0 s0
                         eq_refl))
           PlaywrightError (snd (attempt_steps env Double.cfg Double.b64 "SO001" 0 s0))).
  - vm_compute. reflexivity.
  - reflexivity.
  - vm_compute. reflexivity.
Defined.



(** The chain with a link that opens no new tab and an inline PNG: the
    new-tab capture fails, the embedded image is saved, and no region
    screenshot is taken. *)
Example embedded_image_scenario :
  let env := Double.override Double.no_new_tab Double.crm in
  let s0 := initial_state false [] in
  let s1 := snd (scroll_to_invoice env s0) in
  let s2 := snd (save_invoice_image_new_tab env "SO001" s1) in
  fst (save_invoice_image_new_tab env "SO001" s1) = Ok false
  /\ fst (embedded_image_fetch env Double.b64 "SO001" s2) = Ok true
  /\ fst (find_and_save_invoice_image env Double.b64 "SO001" s0) = Ok true
  /\ files (snd (find_and_save_invoice_image env Double.b64 "SO001" s0))
     = [Download "SO001.png"]
  /\ region_shots (snd (find_and_save_invoice_image env Double.b64 "SO001" s0)) = [].
Proof. vm_compute. repeat split. Qed.

(** C5, witness. *)
Lemma extraction_chain_first_success_witness :
  let env := Double.override Double.no_new_tab Double.crm in
  let s0 := initial_state false [] in
  let s1 := snd (scroll_to_invoice env s0) in
  let s2 := snd (save_invoice_image_new_tab env "SO001" s1) in
  let s3 := snd (embedded_image_fetch env Double.b64 "SO001" s2) in
  find_and_save_invoice_image env Double.b64 "SO001" s0 = (Ok true, s3)
  /\ artifact_exists "SO001" s3
  /\ region_shots s3 = region_shots s0.
Proof.
  intros env s0 s1 s2 s3.
  assert (Hscroll : scroll_to_invoice env s0 = (Ok tt, s1))
    by (vm_compute; reflexivity).
  apply (proj1 (proj2 (extraction_chain_first_success env Double.b64 "SO001" s0 s1
                         Hscroll)) s2 s3);
    vm_compute; reflexivity.
Defined.

(** C6, counterexample.  The login form never shows: the three attempts
    fail, the login returns False, and [run_automation] returns normally; no
    error reaches the caller. *)
Lemma login_failure_surfaces_no_error :
  let env := Double.override Double.no_login_form Double.crm in
  let r := run_with env false Double.two_orders in
  fst (login env Double.cfg (snd (prologue_with env false Double.two_orders))) = Ok false
  /\ length (filter Double.is_attempt_failed (log (snd r))) = 3%nat
  /\ In AllLoginAttemptsFailed (log (snd r))
  /\ fst r = Ok tt.
Proof. vm_compute. repeat split; auto 20. Qed.

(** C6, witness. *)
Lemma login_failure_ends_the_run_witness :
  let env := Double.override Double.no_login_form Double.crm in
  let r := run_with env false Double.two_orders in
  fst r = Ok tt
  /\ total (stats (snd r)) = 2%nat
  /\ success (stats (snd r)) = 0%nat
  /\ failed (stats (snd r)) = 0%nat.
Proof.
  pose (env := Double.override Double.no_login_form Double.crm).
  pose (s2 := snd (prologue_with env false Double.two_orders)).
  pose (s3 := snd (login env Double.cfg s2)).
  destruct (login_failure_ends_the_run env Double.clock Double.cfg
              (Ok Double.two_orders) Double.b64 Double.disk (initial_state false [])
              Double.two_orders s2 eq_refl
              ltac:(vm_compute; reflexivity) ltac:(vm_compute; discriminate))
    as [[Ht [Hs [Hf _]]] Hret].
  destruct (Hret s3 ltac:(vm_compute; reflexivity)) as [Hr _].
  cbv zeta. fold env. rewrite Hr, Ht, Hs, Hf. repeat split.
Defined.

(** The substring match also accepts an identifier that is part of another
    one: SO1 is found in the row of order SO10. *)
Example substring_of_another_identifier :
  fst (verify_search_results (Double.all_ok ["SO10 | Pump"; "SO77 | Valve"] "")
         "SO1" (initial_state false [])) = Ok true.
Proof. vm_compute. reflexivity. Qed.

(** C8, witness: a table of two rows. *)
Lemma verify_search_results_substring_witness :
  let env := Double.all_ok ["SO10 | Pump"; "SO77 | Valve"] "" in
  let text := fun row : elem => nth row ["SO10 | Pump"; "SO77 | Valve"] "" in
  (fst (verify_search_results env "SO77" (initial_state false [])) = Ok true
   <-> exists row before after,
         In row [0; 1]%nat /\ text row = (before ++ "SO77" ++ after)%string)
  /\ ((forall t e, env _ t (QuerySelector MainPage no_results_selector) = Raise e ->
                   is_Exception e = true) ->
      (forall row, In row [0; 1]%nat -> Py.contains "SO77" (text row) = false) ->
      fst (verify_search_results env "SO77" (initial_state false [])) = Ok false).
Proof.
  apply (verify_search_results_substring
           (Double.all_ok ["SO10 | Pump"; "SO77 | Valve"] "") "SO77" [0; 1]%nat
           (fun row : elem => nth row ["SO10 | Pump"; "SO77 | Valve"] "")
           (initial_state false [])).
  - intros t. exists (Some 100%nat). reflexivity.
  - intros t. reflexivity.
  - intros t row [<- | [<- | []]]; reflexivity.
Defined.

(** C9, the failing input.  After the first of two orders the session is
    lost and every way back to the search page faults: the loop is left, the
    second order is neither processed nor counted, and the run ends with
    [total = 2], [success = 1], [failed = 0]. *)
Lemma lost_session_aborts_the_run :
  let env := Double.override Double.lost_after_search Double.crm in
  let s := snd (run_with env false Double.two_orders) in
  fst (return_to_search env Double.cfg
         (snd (process_and_count env Double.cfg Double.b64 Double.disk "SO001"
                 (snd (navigate_to_job_search env
                         (snd (login env Double.cfg
                                 (snd (prologue_with env false Double.two_orders))))))))) 
  = Raise PlaywrightError
  /\ total (stats s) = 2%nat
  /\ success (stats s) = 1%nat
  /\ failed (stats s) = 0%nat
  /\ failed_orders_txt s = []
  /\ In (AutomationFailed PlaywrightError) (log s)
  /\ ~ In (ProcessingHeader 2 2 "SO002") (log s).
Proof.
  vm_compute. repeat split; auto 30.
  intros H. repeat (destruct H as [H | H]; [ discriminate | ]). exact H.
Qed.

(** ** The log of the web front end *)

(** X19.  [add_log] keeps a bounded log: the new entry is always the last one, at
    most 100 entries are kept, and what is kept is the tail of the old log
    with the new entry, so only the oldest entries are dropped. *)
Theorem add_log_keeps_the_newest_hundred
    (timestamp message : string) (automation_logs : list string) :
  let log_entry := ("[" ++ timestamp ++ "] " ++ message)%string in
  let logs := Streamlit.add_log timestamp message automation_logs in
  length logs = Nat.min 100 (S (length automation_logs))
  /\ (exists kept, logs = kept ++ [log_entry])
  /\ (exists dropped, automation_logs ++ [log_entry] = dropped ++ logs).
Proof.
  intros log_entry logs. subst logs. unfold Streamlit.add_log. fold log_entry.
  cbv zeta. rewrite length_app. cbn [length].
  destruct (100 <? length automation_logs + 1)%nat eqn:Hlen.
  - apply Nat.ltb_lt in Hlen. unfold Streamlit.last_entries.
    rewrite length_app. cbn [length]. split; [ | split ].
    + rewrite length_skipn, length_app. cbn [length]. lia.
    + exists (skipn (length automation_logs + 1 - 100) automation_logs).
      rewrite skipn_app.
      replace (length automation_logs + 1 - 100 - length automation_logs)%nat
        with 0%nat by lia.
      reflexivity.
    + exists (firstn (length automation_logs + 1 - 100) (automation_logs ++ [log_entry])).
      symmetry. apply firstn_skipn.
  - apply Nat.ltb_ge in Hlen. split; [ rewrite length_app; cbn [length]; lia | split ].
    + exists automation_logs. reflexivity.
    + exists []. reflexivity.
Qed.

(** ** Instances of the further properties *)

(** X2, witness.  With clicks that fault and screenshots that work, the handler of the
    details step absorbs the fault and SO001 is attempted once. *)
Lemma no_retry_while_screenshots_work_witness :
  let env := Double.override Double.stuck_click Double.crm in
  let s0 := initial_state false [] in
  process_service_order env Double.cfg Double.b64 "SO001" 0 s0
  = attempt_steps env Double.cfg Double.b64 "SO001" 0 s0
  /\ attempts_logged (snd (process_service_order env Double.cfg Double.b64 "SO001" 0 s0))
     = attempts_logged s0 ++ [ProcessingSO "SO001" (0 + 1) (get_max_retries Double.cfg)].
Proof.
  intros env s0.
  apply (no_retry_while_screenshots_work env Double.cfg Double.b64).
  - intros t p f e H. discriminate H.
  - reflexivity.
Defined.

(** X5, witness: the loop over the two orders of the scenario. *)
Lemma orders_get_their_verdicts_in_input_order_witness :
  let s0 := initial_state false [] in
  exists processed later,
    Double.two_orders = processed ++ later
    /\ verdicts (snd (process_orders Double.crm Double.cfg Double.b64 Double.disk
                        2 1 Double.two_orders s0))
       = verdicts s0 ++ processed
    /\ (fst (process_orders Double.crm Double.cfg Double.b64 Double.disk
               2 1 Double.two_orders s0) = Ok tt ->
        later = []).
Proof.
  intros s0.
  apply (orders_get_their_verdicts_in_input_order Double.crm Double.cfg Double.b64
           Double.disk 2).
  intros t so e H. discriminate H.
Defined.

(** X6, witness. *)
Lemma browser_is_released_exactly_once_witness :
  let s0 := initial_state false [] in
  lifecycle (snd (run_with Double.crm false Double.two_orders))
  = lifecycle s0 ++ [Ev LaunchBrowser; Ev BrowserClose; Ev PlaywrightStop]
  /\ exists t,
       trace (snd (run_with Double.crm false Double.two_orders))
       = t ++ [Ev BrowserClose; Ev PlaywrightStop].
Proof.
  intros s0.
  apply (browser_is_released_exactly_once Double.crm Double.clock Double.cfg
           (Ok Double.two_orders) Double.b64 Double.disk s0 Double.two_orders
           (snd (prologue_with Double.crm false Double.two_orders))).
  vm_compute. reflexivity.
Defined.

(** X7, witness.  An empty column. *)
Lemma run_without_input_touches_no_browser_witness :
  let s0 := initial_state false [] in
  let r := run_automation Double.crm Double.clock Double.cfg (Ok []) Double.b64
             Double.disk s0 in
  fst r = Ok tt
  /\ trace (snd r) = trace s0
  /\ total (stats (snd r)) = total (stats s0)
  /\ success (stats (snd r)) = success (stats s0)
  /\ failed (stats (snd r)) = failed (stats s0)
  /\ failed_orders_txt (snd r) = failed_orders_txt s0
  /\ In (FailedToLoadServiceOrders ValueError) (log (snd r))
  /\ In (SetupFailed ValueError) (log (snd r))
  /\ finalized (snd r).
Proof.
  intros s0 r.
  apply (run_without_input_touches_no_browser Double.crm Double.clock Double.cfg
           (Ok []) Double.b64 Double.disk s0 ValueError).
  - right. split; reflexivity.
  - reflexivity.
Defined.

(** X8, witness. *)
Lemma counters_never_exceed_the_total_witness :
  let s := snd (run_with Double.crm false Double.two_orders) in
  (success (stats s) + failed (stats s) + skipped (stats s) <= total (stats s))%nat
  /\ (success (stats s) + failed (stats s) + skipped (stats s) <= 2 * total (stats s))%nat
  /\ total (stats s) = length Double.two_orders.
Proof.
  intros s.
  destruct (counters_never_exceed_the_total Double.crm Double.clock Double.cfg
              (Ok Double.two_orders) Double.b64 Double.disk (initial_state false [])
              eq_refl) as [H1 [H2 H3]].
  split; [ | split; [ exact H2 | exact H3 ] ].
  apply H1. intros t so e H. discriminate H.
Defined.

(** X9, witness. *)
Lemma failed_launch_ends_the_run_witness :
  let env := Double.override Double.no_browser Double.crm in
  let s0 := initial_state false [] in
  fst (run_with env false Double.two_orders) = Ok tt
  /\ trace (snd (run_with env false Double.two_orders)) = trace s0 ++ [Ev LaunchBrowser]
  /\ log (snd (run_body env Double.cfg (Ok Double.two_orders) Double.b64 Double.disk
                 (started Double.clock s0)))
     = (log s0 ++ [LoadedServiceOrders (length Double.two_orders)])
       ++ [SetupFailed PlaywrightError]
  /\ total (stats (snd (run_with env false Double.two_orders))) = length Double.two_orders
  /\ success (stats (snd (run_with env false Double.two_orders))) = 0%nat
  /\ failed (stats (snd (run_with env false Double.two_orders))) = 0%nat
  /\ finalized (snd (run_with env false Double.two_orders)).
Proof.
  intros env s0.
  apply (failed_launch_ends_the_run env Double.clock Double.cfg (Ok Double.two_orders)
           Double.b64 Double.disk s0 Double.two_orders PlaywrightError
           (snd (setup_browser env (loaded Double.two_orders (started Double.clock s0))))).
  - reflexivity.
  - reflexivity.
  - discriminate.
  - vm_compute. reflexivity.
  - reflexivity.
Defined.

(** X10, witness. *)
Lemma failed_navigation_ends_the_run_witness :
  let env := Double.override Double.broken_menu Double.crm in
  let s0 := initial_state false [] in
  let s := snd (run_with env false Double.two_orders) in
  total (stats s) = length Double.two_orders
  /\ success (stats s) = 0%nat
  /\ failed (stats s) = 0%nat
  /\ attempts_logged s = attempts_logged s0
  /\ failed_orders_txt s = failed_orders_txt s0
  /\ finalized s.
Proof.
  intros env s0 s.
  apply (failed_navigation_ends_the_run env Double.clock Double.cfg
           (Ok Double.two_orders) Double.b64 Double.disk s0 Double.two_orders
           (snd (prologue_with env false Double.two_orders))
           (snd (login env Double.cfg (snd (prologue_with env false Double.two_orders))))).
  - reflexivity.
  - vm_compute. reflexivity.
  - vm_compute. reflexivity.
  - vm_compute. discriminate.
Defined.

(** X11, witness.  With clicks that fault and no diagnostic screenshot, SO001 gets its
    three attempts. *)
Lemma attempts_are_numbered_consecutively_witness :
  let env := Double.override Double.broken_click Double.crm in
  let s0 := initial_state false [] in
  exists k : nat,
    (1 <= k)%nat
    /\ (Z.of_nat k <= Z.max 1 (get_max_retries Double.cfg - 0))%Z
    /\ attempts_logged (snd (process_service_order env Double.cfg Double.b64 "SO001" 0 s0))
       = attempts_logged s0 ++ attempts_from Double.cfg "SO001" 0 k.
Proof.
  intros env s0.
  apply (attempts_are_numbered_consecutively env Double.cfg Double.b64 "SO001" 0 s0).
  reflexivity.
Defined.

(** X12, witness. *)
Lemma summary_inside_the_loop_raises_witness :
  let s2 := snd (prologue_with Double.crm false Double.two_orders) in
  let s3 := snd (login Double.crm Double.cfg s2) in
  let s4 := snd (navigate_to_job_search Double.crm s3) in
  let s5 := snd (process_orders Double.crm Double.cfg Double.b64 Double.disk
                   (length Double.two_orders) 1 Double.two_orders s4) in
  session Double.crm Double.cfg Double.b64 Double.disk Double.two_orders s2
  = (Raise TypeError, s5)
  /\ log (snd (guarded_session Double.crm Double.cfg Double.b64 Double.disk
                   Double.two_orders s2))
     = log s5 ++ [AutomationFailed TypeError]
  /\ summary_txt (snd (guarded_session Double.crm Double.cfg Double.b64 Double.disk
                           Double.two_orders s2))
     = summary_txt s2.
Proof.
  intros s2 s3 s4 s5.
  apply (summary_inside_the_loop_raises Double.crm Double.cfg Double.b64 Double.disk
           Double.two_orders s2 s3 s4 s5); vm_compute; reflexivity.
Defined.

(** X14, witness. *)
Lemma login_success_stores_the_session_witness :
  session_saved (snd (login Double.crm Double.cfg (initial_state false []))).
Proof.
  apply (login_success_stores_the_session Double.crm Double.cfg (initial_state false [])).
  vm_compute. reflexivity.
Defined.

(** X15, witness. *)
Lemma login_without_settings_opens_nothing_witness :
  let s0 := initial_state false [] in
  let r := login Double.crm Double.cfg_without_password s0 in
  trace (snd r) = trace s0 ++ [Ev (Screenshot MainPage (Cwd "login_error.png"))]
  /\ log (snd r) = log s0 ++ [LoggingIn; LoginFailedWithError KeyError]
  /\ fst r <> Ok true.
Proof.
  intros s0 r.
  apply (login_without_settings_opens_nothing Double.crm Double.cfg_without_password s0).
  right. right. reflexivity.
Defined.

(** X16, witness.  A link that opens no new tab, and an inline PNG that the decoder
    rejects. *)
Lemma undecodable_image_ends_the_chain_witness :
  let env := Double.override Double.no_new_tab Double.crm in
  let s0 := initial_state false [] in
  let s1 := snd (scroll_to_invoice env s0) in
  let s2 := snd (save_invoice_image_new_tab env "SO001" s1) in
  let r := find_and_save_invoice_image env Double.b64_rejects "SO001" s0 in
  log (snd r)
  = log s2 ++ [FailedToSaveBase64 ValueError; FailedToSaveInvoice "SO001" ValueError]
  /\ region_shots (snd r) = region_shots s0
  /\ files (snd r)
     = files s2
       ++ match fst r with
          | Ok _ => [Cwd ("invoice_error_" ++ "SO001" ++ ".png")%string]
          | Raise _ => []
          end
  /\ fst r <> Ok true.
Proof.
  intros env s0 s1 s2 r.
  apply (undecodable_image_ends_the_chain env Double.b64_rejects "SO001" s0 s1 s2
           100%nat "data:image/png;base64,AA"); vm_compute; reflexivity.
Defined.

(** X17, witness. *)
Lemma return_to_search_false_means_no_search_box_witness :
  let env := Double.override Double.no_search_box Double.crm in
  let s0 := initial_state false [] in
  let r := return_to_search env Double.cfg s0 in
  trace (snd r)
  = trace s0 ++ [Ev (Click MainPage (xpaths job_search_link));
                 Ev (WaitForLoadState MainPage);
                 Ev (WaitForTimeout MainPage 2000);
                 Ev (QuerySelector MainPage (xpaths search_input))]
  /\ log (snd r) = log s0
  /\ env _ (trace s0 ++ [Ev (Click MainPage (xpaths job_search_link));
                         Ev (WaitForLoadState MainPage);
                         Ev (WaitForTimeout MainPage 2000)])
       (QuerySelector MainPage (xpaths search_input))
     = Ok None.
Proof.
  intros env s0 r.
  apply (return_to_search_false_means_no_search_box env Double.cfg s0).
  vm_compute. reflexivity.
Defined.
